(** * TDataFrameInterface: the builder surface of the TDataFrame engine

    A shallow embedding of [tree/treeplayer/inc/ROOT/TDataFrameInterface.hxx].
    Every public method of [TDataFrameInterface<Proxied>] is a function in a
    state-and-exception monad over a [World]: the engines that are alive, the
    result objects shared between the engine and the user's handles, the
    files written so far, and the memory the user's callables act on.

    The header only declares what it needs from [TDFNodes.hxx],
    [TDFOperations.hxx], [TDFUtils.hxx] and [TActionResultProxy.hxx]; those
    parts (the event loop, the operations, the node gates) are modelled from
    the specification and marked as such. *)

From Stdlib Require Import ZArith NArith String List Bool Lia SpecFloat.
From stdpp Require Import base list strings.

Local Open Scope string_scope.
Local Open Scope list_scope.

(** ** Doubles

    [double] is IEEE binary64, as the Standard Library specifies it. The
    interface only seeds, compares and hands doubles over; [std::min] and
    [std::max] are written as the C++ library defines them. *)

Definition double := spec_float.
Definition prec : Z := 53.
Definition emax : Z := 1024.

(** [std::numeric_limits<double>::max()], the largest finite double. *)
Definition numeric_limits_max : double := S754_finite false (2 ^ 53 - 1) 971.
(** [std::numeric_limits<double>::min()], the smallest positive normal
    double, 2^-1022. *)
Definition numeric_limits_min : double := S754_finite false (2 ^ 52) (-1074).
(** [std::numeric_limits<double>::lowest()], the most negative finite
    double. *)
Definition numeric_limits_lowest : double := S754_finite true (2 ^ 53 - 1) 971.

Definition double_zero : double := S754_zero false.
Definition double_of_Z (z : Z) : double := binary_normalize prec emax z 0 false.

(** [std::min(a, b)] is [(b < a) ? b : a]; [std::max(a, b)] is
    [(a < b) ? b : a]. *)
Definition std_min (a b : double) : double := if SFltb b a then b else a.
Definition std_max (a b : double) : double := if SFltb a b then b else a.

(** ** Column values *)

Definition BranchNames_t := list string.

(** Aggregators ([TH1F], [TH2F], [TH3F], [TProfile], [TProfile2D] and any
    object with a Fill method).

    Modelled from the spec: the histogram classes are not part of the
    header; the specification gives them as an opaque aggregator that can be
    filled, may extend its axes, and answers whether it has axis limits
    ([TDFV7Utils::Histo<T>::HasAxisLimits]). The x-axis limits are kept
    because [Histo1D] compares them itself. *)
Record Aggregator := {
  fXmin : double;
  fXmax : double;
  fCanExtendAllAxes : bool;
  fHasAxisLimits : bool;
  fFills : list (list double)
}.

Definition SetCanExtendAllAxes (h : Aggregator) : Aggregator :=
  {| fXmin := fXmin h; fXmax := fXmax h; fCanExtendAllAxes := true;
     fHasAxisLimits := fHasAxisLimits h; fFills := fFills h |}.
Definition HasAxisLimits (h : Aggregator) : bool := fHasAxisLimits h.
Definition AggFill (h : Aggregator) (vs : list double) : Aggregator :=
  {| fXmin := fXmin h; fXmax := fXmax h; fCanExtendAllAxes := fCanExtendAllAxes h;
     fHasAxisLimits := fHasAxisLimits h; fFills := fFills h ++ [vs] |}.

(** The default model of [Histo1D]: [TH1F{"", "", 128u, 0., 0.}]. *)
Definition default_TH1F : Aggregator :=
  {| fXmin := double_zero; fXmax := double_zero; fCanExtendAllAxes := false;
     fHasAxisLimits := false; fFills := [] |}.

(** A value held by a column, by a result object or by the user's memory. *)
#[warnings="-register-all"]
Inductive value :=
| VVoid
| VBool (b : bool)
| VInt (z : Z)
| VUInt (n : N)
| VDouble (d : double)
| VVec (l : list value)
| VHisto (h : Aggregator).

(** The conversion to [double] that the numeric operations apply to what
    they read. *)
Definition to_double (v : value) : double :=
  match v with
  | VDouble d => d
  | VInt z => double_of_Z z
  | VUInt n => double_of_Z (Z.of_N n)
  | VBool b => double_of_Z (if b then 1 else 0)
  | _ => double_zero
  end.

(** Column types, as the template arguments name them.
    [TDataFrameGuessedType] is the sentinel for a type left to inference. *)
Inductive ctype :=
| t_bool | t_int | t_uint | t_double | t_vector (T : ctype) | t_object (name : string)
| TDataFrameGuessedType.

Fixpoint ctype_eqb (a b : ctype) : bool :=
  match a, b with
  | t_bool, t_bool | t_int, t_int | t_uint, t_uint | t_double, t_double => true
  | t_vector x, t_vector y => ctype_eqb x y
  | t_object x, t_object y => String.eqb x y
  | TDataFrameGuessedType, TDataFrameGuessedType => true
  | _, _ => false
  end.

Definition type_of (v : value) : ctype :=
  match v with
  | VVoid => t_object "void"
  | VBool _ => t_bool
  | VInt _ => t_int
  | VUInt _ => t_uint
  | VDouble _ => t_double
  | VVec _ => t_vector TDataFrameGuessedType
  | VHisto _ => t_object "TH1"
  end.

(** [std::is_default_constructible<T>], with the value [T()] yields. *)
Class DefaultConstructible (T : ctype) := T_default : value.
#[global] Instance bool_default : DefaultConstructible t_bool := VBool false.
#[global] Instance int_default : DefaultConstructible t_int := VInt 0.
#[global] Instance uint_default : DefaultConstructible t_uint := VUInt 0.
#[global] Instance double_default : DefaultConstructible t_double := VDouble double_zero.
#[global] Instance vector_default T : DefaultConstructible (t_vector T) := VVec [].

(** ** Errors

    Every failure of the header is a [std::runtime_error]; the specification
    classifies them by kind. *)
Inductive ErrorKind :=
| InvalidArgument | Unsupported | UnknownColumn | TypeMismatch | ArityMismatch
| DuplicateColumn | MissingColumnSpec | ExpressionError | EngineGone
| AggregatorBindingError.

(** ** Trees and files

    Modelled from the spec: [TTree], [TChain] and [TFile] are the external
    columnar store. A tree is a list of branches, each bound to the address
    its values are read from when an entry is filled, and a list of entries.
    An address names the per-slot storage of a column. *)

Definition addr : Type := N * string.
Definition Env := list (string * value).

Fixpoint lookup_col (env : Env) (c : string) : value :=
  match env with
  | [] => VVoid
  | (n, v) :: rest => if String.eqb n c then v else lookup_col rest c
  end.

(** The per-slot value storage during the event loop. *)
Definition Storage := N -> Env.
Definition read (sto : Storage) (a : addr) : value := lookup_col (sto (fst a)) (snd a).

Record TTree := {
  fBranches : list (string * addr);
  fEntries : list (list value)
}.

Definition new_TTree : TTree := {| fBranches := []; fEntries := [] |}.
Definition GetEntries (t : TTree) : nat := length (fEntries t).
Definition GetListOfBranches (t : TTree) : list string := map fst (fBranches t).
(** [t.Branch(name, &arg)] *)
Definition TTree_Branch (t : TTree) (name : string) (a : addr) : TTree :=
  {| fBranches := fBranches t ++ [(name, a)]; fEntries := fEntries t |}.
(** [t.Fill()]: one entry, read through the addresses the branches are bound to. *)
Definition TTree_Fill (t : TTree) (sto : Storage) : TTree :=
  {| fBranches := fBranches t;
     fEntries := fEntries t ++ [map (fun b => read sto (snd b)) (fBranches t)] |}.
(** The values of entry [r], by branch name. *)
Definition GetEntry (t : TTree) (r : nat) : Env :=
  combine (GetListOfBranches t) (nth r (fEntries t) []).

(** Files: file name, tree name, tree. *)
Definition Files := list (string * string * TTree).

Definition TFile_Open_RECREATE (filename : string) (fs : Files) : Files :=
  List.filter (fun e => negb (String.eqb (fst (fst e)) filename)) fs.
Definition TTree_Write (filename treename : string) (t : TTree) (fs : Files) : Files :=
  (filename, treename, t) :: fs.
Fixpoint TFile_Get (filename treename : string) (fs : Files) : option TTree :=
  match fs with
  | [] => None
  | (f, n, t) :: rest =>
      if String.eqb f filename && String.eqb n treename then Some t
      else TFile_Get filename treename rest
  end.

(** What an engine reads: a tree in memory, or a [TChain] over a file. *)
Inductive TreeSource :=
| InMemory (t : TTree)
| TChain (treename filename : string).

Definition resolve (src : TreeSource) (fs : Files) : TTree :=
  match src with
  | InMemory t => t
  | TChain treename filename =>
      match TFile_Get filename treename fs with Some t => t | None => new_TTree end
  end.

(** ** Callables

    A C++ callable has the list of the types of its parameters
    ([TFunctionTraits<F>::Args_t]), whose size is its arity
    ([Args_t::fgSize]), and a body. The callables given to [Foreach] act on
    the memory they capture; that memory is a list of values. The lambda
    [fillTree] of [SnapshotImpl] has the parameters [Args &... args]; it
    captures the tree being written and the column names, and is kept as
    data. *)

Record Fn (R : Type) := { Args_t : list ctype; fcall : list value -> R }.
Arguments Args_t {R} _.
Arguments fcall {R} _ _.
Definition fgSize {R} (f : Fn R) : N := N.of_nat (length (Args_t f)).

Definition UserMem := list value.

Inductive Callable :=
| UserFn (Args_t : list ctype) (f : list value -> UserMem -> UserMem)
| fillTree (Args : list ctype) (bnames : BranchNames_t).

(** A callable that takes the slot first: [Args_t] includes the type of the
    slot parameter. *)
Inductive SlotCallable :=
| UserSlotFn (Args_t : list ctype) (f : N -> list value -> UserMem -> UserMem)
| AddSlotParameter (f : Callable).

Definition Callable_Args_t (f : Callable) : list ctype :=
  match f with UserFn ts _ => ts | fillTree ts _ => ts end.
Definition Callable_fgSize (f : Callable) : N := N.of_nat (length (Callable_Args_t f)).
Definition SlotCallable_fgSize (f : SlotCallable) : N :=
  match f with
  | UserSlotFn ts _ => N.of_nat (length ts)
  | AddSlotParameter g => Callable_fgSize g + 1
  end.
(** The types of the columns a slot callable reads: its parameters but the
    first ([TRemoveFirst<Args_t>]). *)
Definition BranchTypes_t (f : SlotCallable) : list ctype :=
  match f with
  | UserSlotFn ts _ => tail ts
  | AddSlotParameter g => Callable_Args_t g
  end.

(** The memory callables act on: the function-static [firstEvt] and the
    local tree [t] of [SnapshotImpl], and the user's own variables. *)
Record Ambient := {
  firstEvt : bool;
  t : TTree;
  user : UserMem
}.

(** The body of [fillTree]: bind the branches at the first event, then fill. *)
Definition fillTree_body (bnames : BranchNames_t) (args : list addr) (sto : Storage)
    (amb : Ambient) : Ambient :=
  let amb1 :=
    if firstEvt amb
    then {| firstEvt := false;
            t := fold_left (fun tr ba => TTree_Branch tr (fst ba) (snd ba)) (combine bnames args) (t amb);
            user := user amb |}
    else amb in
  {| firstEvt := firstEvt amb1; t := TTree_Fill (t amb1) sto; user := user amb1 |}.

Definition invoke_slot (f : SlotCallable) (slot : N) (args : list addr) (sto : Storage)
    (amb : Ambient) : Ambient :=
  match f with
  | UserSlotFn _ g =>
      {| firstEvt := firstEvt amb; t := t amb; user := g slot (map (read sto) args) (user amb) |}
  | AddSlotParameter (UserFn _ g) =>
      {| firstEvt := firstEvt amb; t := t amb; user := g (map (read sto) args) (user amb) |}
  | AddSlotParameter (fillTree _ bnames) => fillTree_body bnames args sto amb
  end.

(** ** The graph

    Modelled from the spec: the node classes ([TDataFrameImpl],
    [TDataFrameFilter], [TDataFrameBranch], [TDataFrameRange],
    [TDataFrameAction]) live in [TDFNodes.hxx]. Each node has a reference to
    its parent and a children count; the engine itself is node 0. *)

Inductive NodeKind :=
| ImplNode
| FilterNode (f : Fn bool) (bl : BranchNames_t) (name : string)
| BranchNode (name : string) (expression : Fn value) (bl : BranchNames_t)
| RangeNode (start stop stride : N).

Record Node := {
  nKind : NodeKind;
  fPrevData : nat;
  fNChildren : N
}.

Definition IncrChildrenCount_node (n : Node) : Node :=
  {| nKind := nKind n; fPrevData := fPrevData n; fNChildren := fNChildren n + 1 |}.

(** The operations of [TDFOperations.hxx], each with the result object it
    fills (an index into the heap of shared objects) and the slot count. *)
Inductive Operation :=
| ForeachSlotOperation (f : SlotCallable)
| ReduceOperation (f : value -> value -> value) (r : nat) (nSlots : N)
| CountOperation (r : nat) (nSlots : N)
| TakeOperation (r : nat) (nSlots : N)
| FillTOOperation (h : nat) (nSlots : N)
| FillOperation (h : nat) (nSlots : N)
| MinOperation (r : nat) (nSlots : N)
| MaxOperation (r : nat) (nSlots : N)
| MeanOperation (r : nat) (nSlots : N).

Record Action := {
  aOp : Operation;
  aTypes : list ctype;
  aBl : BranchNames_t;
  aPrev : nat
}.

(** Per-node counters: a filter's accepted and total entries, a range's
    entries seen. *)
Record Counter := {
  cAccepted : N;
  cTotal : N;
  cSeen : N
}.
Definition zero_counter : Counter := {| cAccepted := 0; cTotal := 0; cSeen := 0 |}.

Record TDataFrameImpl := {
  fTree : TreeSource;
  fDefaultBranches : BranchNames_t;
  fNSlots : N;
  fNodes : list Node;
  fBookedBranches : list (string * nat);
  fBookedActions : list Action;
  fResProxyReadiness : list nat;
  fCounters : list Counter;
  fHasRunAtLeastOnce : bool
}.

(** A result object shared between an operation and the user's handle, with
    the readiness flag of the handle. *)
Record Cell := {
  cValue : value;
  cReady : bool
}.

(** The compiler of string expressions ([gInterpreter]).

    Modelled from the spec: given the expression and the visible column
    names it returns a callable and the columns it refers to, or fails. *)
Record ExpressionCompiler := {
  compile_filter : string -> list string -> option (Fn bool * BranchNames_t);
  compile_define : string -> list string -> option (Fn value * BranchNames_t)
}.

Record World := {
  fgImplicitMT : bool;
  fgPoolSize : N;
  engines : list (option TDataFrameImpl);
  heap : list Cell;
  files : Files;
  ambient : Ambient;
  gInterpreter : ExpressionCompiler;
  stdout : list (string * N * N)
}.

Definition set_engines (es : list (option TDataFrameImpl)) (w : World) : World :=
  {| fgImplicitMT := fgImplicitMT w; fgPoolSize := fgPoolSize w; engines := es;
     heap := heap w; files := files w; ambient := ambient w;
     gInterpreter := gInterpreter w; stdout := stdout w |}.
Definition set_heap (h : list Cell) (w : World) : World :=
  {| fgImplicitMT := fgImplicitMT w; fgPoolSize := fgPoolSize w; engines := engines w;
     heap := h; files := files w; ambient := ambient w;
     gInterpreter := gInterpreter w; stdout := stdout w |}.
Definition set_files (fs : Files) (w : World) : World :=
  {| fgImplicitMT := fgImplicitMT w; fgPoolSize := fgPoolSize w; engines := engines w;
     heap := heap w; files := fs; ambient := ambient w;
     gInterpreter := gInterpreter w; stdout := stdout w |}.
Definition set_ambient (a : Ambient) (w : World) : World :=
  {| fgImplicitMT := fgImplicitMT w; fgPoolSize := fgPoolSize w; engines := engines w;
     heap := heap w; files := files w; ambient := a;
     gInterpreter := gInterpreter w; stdout := stdout w |}.
Definition set_stdout (o : list (string * N * N)) (w : World) : World :=
  {| fgImplicitMT := fgImplicitMT w; fgPoolSize := fgPoolSize w; engines := engines w;
     heap := heap w; files := files w; ambient := ambient w;
     gInterpreter := gInterpreter w; stdout := o |}.

Definition set_nodes (ns : list Node) (cs : list Counter) (e : TDataFrameImpl) : TDataFrameImpl :=
  {| fTree := fTree e; fDefaultBranches := fDefaultBranches e; fNSlots := fNSlots e;
     fNodes := ns; fBookedBranches := fBookedBranches e;
     fBookedActions := fBookedActions e; fResProxyReadiness := fResProxyReadiness e;
     fCounters := cs; fHasRunAtLeastOnce := fHasRunAtLeastOnce e |}.
Definition set_branches (bs : list (string * nat)) (e : TDataFrameImpl) : TDataFrameImpl :=
  {| fTree := fTree e; fDefaultBranches := fDefaultBranches e; fNSlots := fNSlots e;
     fNodes := fNodes e; fBookedBranches := bs;
     fBookedActions := fBookedActions e; fResProxyReadiness := fResProxyReadiness e;
     fCounters := fCounters e; fHasRunAtLeastOnce := fHasRunAtLeastOnce e |}.
Definition set_actions (acts : list Action) (e : TDataFrameImpl) : TDataFrameImpl :=
  {| fTree := fTree e; fDefaultBranches := fDefaultBranches e; fNSlots := fNSlots e;
     fNodes := fNodes e; fBookedBranches := fBookedBranches e;
     fBookedActions := acts; fResProxyReadiness := fResProxyReadiness e;
     fCounters := fCounters e; fHasRunAtLeastOnce := fHasRunAtLeastOnce e |}.
Definition set_readiness (rs : list nat) (e : TDataFrameImpl) : TDataFrameImpl :=
  {| fTree := fTree e; fDefaultBranches := fDefaultBranches e; fNSlots := fNSlots e;
     fNodes := fNodes e; fBookedBranches := fBookedBranches e;
     fBookedActions := fBookedActions e; fResProxyReadiness := rs;
     fCounters := fCounters e; fHasRunAtLeastOnce := fHasRunAtLeastOnce e |}.
Definition SetTree (src : TreeSource) (e : TDataFrameImpl) : TDataFrameImpl :=
  {| fTree := src; fDefaultBranches := fDefaultBranches e; fNSlots := fNSlots e;
     fNodes := fNodes e; fBookedBranches := fBookedBranches e;
     fBookedActions := fBookedActions e; fResProxyReadiness := fResProxyReadiness e;
     fCounters := fCounters e; fHasRunAtLeastOnce := fHasRunAtLeastOnce e |}.

(** [TDataFrameImpl(tree, defaultBranches)]: a graph with the engine as its
    only node. The slot count is 1, or the pool size under implicit
    multi-threading. *)
Definition new_TDataFrameImpl (src : TreeSource) (defaultBranches : BranchNames_t)
    (nSlots : N) : TDataFrameImpl :=
  {| fTree := src; fDefaultBranches := defaultBranches; fNSlots := nSlots;
     fNodes := [{| nKind := ImplNode; fPrevData := 0; fNChildren := 0 |}];
     fBookedBranches := []; fBookedActions := []; fResProxyReadiness := [];
     fCounters := [zero_counter]; fHasRunAtLeastOnce := false |}.

(** ** The event loop

    Modelled from the spec: [TDataFrameImpl::Run] and the [CheckFilters] and
    [Exec] methods of the nodes are not in the header. The loop below is the
    run protocol of the specification for the schedule in which every entry
    is taken by slot 0 in ascending row order: for each row and each booked
    action, the gates on the path from the source to the action are
    evaluated top-down with a per-row cache of verdicts; a row that passes
    is fed to the action; after the last row the partial results are stored
    in the result objects, every pending handle is marked ready and the
    list of booked actions is emptied. The engine keeps the derived columns
    by name ([GetBookedBranches]); the values of a row are those of the tree
    and of the derived columns, each computed from the columns before it.
    The loop reads through the readers bound before the first row (see
    [bind_columns] below); a run whose readers do not all bind is aborted
    before any row is read. *)

Fixpoint path_up (nodes : list Node) (fuel : nat) (id : nat) : list nat :=
  match fuel with
  | O => []
  | S k =>
      match id with
      | O => []
      | S _ =>
          match nodes !! id with
          | Some nd => id :: path_up nodes k (fPrevData nd)
          | None => []
          end
      end
  end.

(** The nodes between the source and node [id], source side first. *)
Definition path (nodes : list Node) (id : nat) : list nat :=
  rev (path_up nodes (length nodes) id).

(** The admission rule of a range, on the number of entries it has seen. *)
Definition RangeAdmit (start stop stride seen : N) : bool :=
  (start <=? seen)%N && ((stop =? 0)%N || (seen <? stop)%N)
  && ((seen - start) mod stride =? 0)%N.

Fixpoint cache_find (id : nat) (cache : list (nat * bool)) : option bool :=
  match cache with
  | [] => None
  | (i, b) :: rest => if Nat.eqb i id then Some b else cache_find id rest
  end.

Definition count_filter (b : bool) (c : Counter) : Counter :=
  {| cAccepted := if b then cAccepted c + 1 else cAccepted c;
     cTotal := cTotal c + 1; cSeen := cSeen c |}.
Definition count_seen (c : Counter) : Counter :=
  {| cAccepted := cAccepted c; cTotal := cTotal c; cSeen := cSeen c + 1 |}.
Definition reset_seen (c : Counter) : Counter :=
  {| cAccepted := cAccepted c; cTotal := cTotal c; cSeen := 0 |}.
Definition seen_of (cnt : list Counter) (id : nat) : N :=
  match cnt !! id with Some c => cSeen c | None => 0%N end.

Definition values (env : Env) (bl : BranchNames_t) : list value :=
  map (lookup_col env) bl.

(** The derived columns, added to the columns of the tree in the order they
    were booked. *)
Definition derive (nodes : list Node) (env : Env) (b : string * nat) : Env :=
  match nKind <$> nodes !! snd b with
  | Some (BranchNode name expression bl) => (name, fcall expression (values env bl)) :: env
  | _ => env
  end.

Definition row_env (e : TDataFrameImpl) (tree : TTree) (r : nat) : Env :=
  fold_left (derive (fNodes e)) (fBookedBranches e) (GetEntry tree r).

Fixpoint CheckFilters (nodes : list Node) (p : list nat) (env : Env)
    (cache : list (nat * bool)) (cnt : list Counter)
  : bool * list (nat * bool) * list Counter :=
  match p with
  | [] => (true, cache, cnt)
  | id :: rest =>
      match nKind <$> nodes !! id with
      | Some (FilterNode f bl _) =>
          match cache_find id cache with
          | Some true => CheckFilters nodes rest env cache cnt
          | Some false => (false, cache, cnt)
          | None =>
              let b := fcall f (values env bl) in
              let cnt' := alter (count_filter b) id cnt in
              let cache' := (id, b) :: cache in
              if b then CheckFilters nodes rest env cache' cnt'
              else (false, cache', cnt')
          end
      | Some (RangeNode start stop stride) =>
          match cache_find id cache with
          | Some true => CheckFilters nodes rest env cache cnt
          | Some false => (false, cache, cnt)
          | None =>
              let b := RangeAdmit start stop stride (seen_of cnt id) in
              let cnt' := alter count_seen id cnt in
              let cache' := (id, b) :: cache in
              if b then CheckFilters nodes rest env cache' cnt'
              else (false, cache', cnt')
          end
      | _ => CheckFilters nodes rest env cache cnt
      end
  end.

Definition cell_value (h : list Cell) (r : nat) : value :=
  match h !! r with Some c => cValue c | None => VVoid end.
Definition cell_ready (h : list Cell) (r : nat) : bool :=
  match h !! r with Some c => cReady c | None => false end.
Definition set_value (r : nat) (v : value) (h : list Cell) : list Cell :=
  alter (fun c => {| cValue := v; cReady := cReady c |}) r h.
Definition mark_ready (h : list Cell) (r : nat) : list Cell :=
  alter (fun c => {| cValue := cValue c; cReady := true |}) r h.

(** The partial result an operation starts from: the seed its result object
    was created with, or the empty count, collection or sum. *)
Definition init_partial (h : list Cell) (op : Operation) : value :=
  match op with
  | ForeachSlotOperation _ => VVoid
  | ReduceOperation _ r _ => cell_value h r
  | CountOperation _ _ => VUInt 0
  | TakeOperation r _ => cell_value h r
  | FillTOOperation r _ | FillOperation r _ => cell_value h r
  | MinOperation r _ | MaxOperation r _ => cell_value h r
  | MeanOperation _ _ => VVec [VDouble double_zero; VUInt 0]
  end.

Definition slot_storage (slot : N) (env : Env) : Storage :=
  fun s => if (s =? slot)%N then env else [].

(** What an operation makes of its partial result and the values [vs] of
    one row. *)
Definition accumulate (op : Operation) (vs : list value) (partial : value) : value :=
  match op with
  | ForeachSlotOperation _ => partial
  | ReduceOperation f _ _ => f partial (hd VVoid vs)
  | CountOperation _ _ => match partial with VUInt n => VUInt (n + 1) | _ => partial end
  | TakeOperation _ _ =>
      match partial with VVec l => VVec (l ++ [hd VVoid vs]) | _ => partial end
  | FillTOOperation _ _ | FillOperation _ _ =>
      match partial with
      | VHisto h => VHisto (AggFill h (map to_double vs))
      | _ => partial
      end
  | MinOperation _ _ => VDouble (std_min (to_double (hd VVoid vs)) (to_double partial))
  | MaxOperation _ _ => VDouble (std_max (to_double (hd VVoid vs)) (to_double partial))
  | MeanOperation _ _ =>
      match partial with
      | VVec [VDouble s; VUInt n] =>
          VVec [VDouble (SFadd prec emax s (to_double (hd VVoid vs))); VUInt (n + 1)]
      | _ => partial
      end
  end.

(** One row fed to an operation: the partial result is advanced, and a
    [Foreach] callable is called on the addresses of the values. *)
Definition Exec (op : Operation) (slot : N) (bl : BranchNames_t) (env : Env)
    (partial : value) (amb : Ambient) : value * Ambient :=
  (accumulate op (values env bl) partial,
   match op with
   | ForeachSlotOperation f =>
       invoke_slot f slot (map (pair slot) bl) (slot_storage slot env) amb
   | _ => amb
   end).

(** One row: every booked action in booking order, the verdict cache shared
    between them. *)
Fixpoint run_actions (nodes : list Node) (env : Env) (acts : list (Action * value))
    (cache : list (nat * bool)) (cnt : list Counter) (amb : Ambient)
  : list (Action * value) * list Counter * Ambient :=
  match acts with
  | [] => ([], cnt, amb)
  | (a, p) :: rest =>
      let '(b, cache1, cnt1) :=
        CheckFilters nodes (path nodes (aPrev a)) env cache cnt in
      let '(p1, amb1) := if b then Exec (aOp a) 0 (aBl a) env p amb else (p, amb) in
      let '(rest', cnt2, amb2) := run_actions nodes env rest cache1 cnt1 amb1 in
      ((a, p1) :: rest', cnt2, amb2)
  end.

Definition process_row (e : TDataFrameImpl) (tree : TTree)
    (st : list (Action * value) * list Counter * Ambient) (r : nat)
  : list (Action * value) * list Counter * Ambient :=
  let '(acts, cnt, amb) := st in
  run_actions (fNodes e) (row_env e tree r) acts [] cnt amb.

(** The result an operation leaves in its result object. *)
Definition Finalize (h : list Cell) (ap : Action * value) : list Cell :=
  match aOp (fst ap) with
  | ForeachSlotOperation _ => h
  | ReduceOperation _ r _ | CountOperation r _ | TakeOperation r _
  | FillTOOperation r _ | FillOperation r _ | MinOperation r _ | MaxOperation r _ =>
      set_value r (snd ap) h
  | MeanOperation r _ =>
      match snd ap with
      | VVec [VDouble s; VUInt n] =>
          set_value r (VDouble (SFdiv prec emax s (double_of_Z (Z.of_N n)))) h
      | _ => h
      end
  end.

Definition event_loop (e : TDataFrameImpl) (fs : Files) (h : list Cell) (amb : Ambient)
  : list (Action * value) * list Counter * Ambient :=
  let tree := resolve (fTree e) fs in
  fold_left (process_row e tree) (seq 0 (GetEntries tree))
    (map (fun a => (a, init_partial h (aOp a))) (fBookedActions e),
     map reset_seen (fCounters e), amb).

(** ** Column readers

    Modelled from the spec: the engine reads a column through a typed reader
    that it binds before the first row ([bind(column_name, expected_type)] of
    the Column Reader interface), one for every parameter of every filter,
    derived column and booked action, the reader of the i-th parameter on
    the i-th name. Binding fails with [UnknownColumn] when neither a derived
    column nor the store has the name (or when there is no name left for the
    parameter), and with [TypeMismatch] when the store holds the column with
    another type. The type of a derived column is that of the value its
    expression returns, which the graph does not keep: a reader of any type
    binds to it. The type of a column of the store is the one
    [ColumnName2ColumnTypeName] reports, that of the values it holds; a
    store with no entry holds none, and a reader of any type binds to its
    columns. *)

(** A column the store or a derived column gives a type to. *)
Definition known_column (tree : TTree) (booked : list (string * nat)) (b : string) : bool :=
  existsb (String.eqb b) (GetListOfBranches tree) || existsb (String.eqb b) (map fst booked).
Definition column_type (tree : TTree) (b : string) : ctype :=
  if existsb (String.eqb b) (GetListOfBranches tree)
  then type_of (lookup_col (GetEntry tree 0) b)
  else t_object "auto".

Definition reader_bind (tree : TTree) (booked : list (string * nat)) (b : string)
    (T : ctype) : option ErrorKind :=
  if existsb (String.eqb b) (map fst booked) then None
  else if existsb (String.eqb b) (GetListOfBranches tree)
  then if Nat.eqb (GetEntries tree) 0 || ctype_eqb T (column_type tree b)
       then None else Some TypeMismatch
  else Some UnknownColumn.

Fixpoint bind_readers (tree : TTree) (booked : list (string * nat)) (types : list ctype)
    (bl : BranchNames_t) : option ErrorKind :=
  match types with
  | [] => None
  | T :: ts =>
      match bl with
      | [] => Some UnknownColumn
      | b :: bs =>
          match reader_bind tree booked b T with
          | Some k => Some k
          | None => bind_readers tree booked ts bs
          end
      end
  end.

Definition node_readers (tree : TTree) (booked : list (string * nat)) (nd : Node)
  : option ErrorKind :=
  match nKind nd with
  | FilterNode f bl _ => bind_readers tree booked (Args_t f) bl
  | BranchNode _ expression bl => bind_readers tree booked (Args_t expression) bl
  | _ => None
  end.

Definition action_readers (tree : TTree) (booked : list (string * nat)) (a : Action)
  : option ErrorKind :=
  bind_readers tree booked (aTypes a) (aBl a).

Fixpoint first_error (l : list (option ErrorKind)) : option ErrorKind :=
  match l with
  | [] => None
  | Some k :: _ => Some k
  | None :: rest => first_error rest
  end.

(** The readers of the nodes, then those of the booked actions: the first
    failure, if any. *)
Definition bind_columns (e : TDataFrameImpl) (tree : TTree) : option ErrorKind :=
  first_error (map (node_readers tree (fBookedBranches e)) (fNodes e)
               ++ map (action_readers tree (fBookedBranches e)) (fBookedActions e)).

Definition ran (e : TDataFrameImpl) (cnt : list Counter) : TDataFrameImpl :=
  {| fTree := fTree e; fDefaultBranches := fDefaultBranches e; fNSlots := fNSlots e;
     fNodes := fNodes e; fBookedBranches := fBookedBranches e;
     fBookedActions := []; fResProxyReadiness := [];
     fCounters := cnt; fHasRunAtLeastOnce := true |}.

(** ** The monad of the interface: a world, and a result or an exception *)

Inductive Res (A : Type) :=
| Ok (a : A)
| Throw (e : ErrorKind).
Arguments Ok {A} _.
Arguments Throw {A} _.

Definition M (A : Type) : Type := World -> Res A * World.

Definition ret {A} (a : A) : M A := fun w => (Ok a, w).
Definition throw {A} (e : ErrorKind) : M A := fun w => (Throw e, w).
Definition bind {A B} (m : M A) (k : A -> M B) : M B :=
  fun w => match m w with
           | (Ok a, w') => k a w'
           | (Throw e, w') => (Throw e, w')
           end.

Declare Scope tdf_scope.
Delimit Scope tdf_scope with tdf.
Notation "x <- c1 ;; c2" := (bind c1 (fun x => c2))
  (at level 100, c1 at next level, right associativity) : tdf_scope.
Notation "c1 ;; c2" := (bind c1 (fun _ => c2))
  (at level 100, right associativity) : tdf_scope.
Local Open Scope tdf_scope.

(** [weak_ptr::lock] *)
Definition lock (w : World) (df : nat) : option TDataFrameImpl :=
  match engines w !! df with
  | Some (Some e) => Some e
  | _ => None
  end.

(** A member of the engine, read through a shared pointer to it. *)
Definition impl {A} (df : nat) (f : TDataFrameImpl -> A) : M A :=
  fun w => match lock w df with
           | Some e => (Ok (f e), w)
           | None => (Throw EngineGone, w)
           end.
Definition put_engine (df : nat) (e : TDataFrameImpl) (w : World) : World :=
  set_engines (<[df := Some e]> (engines w)) w.
Definition update (df : nat) (f : TDataFrameImpl -> TDataFrameImpl) : M unit :=
  fun w => match lock w df with
           | Some e => (Ok tt, put_engine df (f e) w)
           | None => (Throw EngineGone, w)
           end.

Definition IsImplicitMTEnabled : M bool := fun w => (Ok (fgImplicitMT w), w).

(** [TDataFrameImpl::Run]

    Modelled from the spec: the readers are bound, the loop is run and the
    results are stored. An error raised by the run aborts it: no result is
    stored, no handle is made ready, and the engine is left idle with its
    actions still booked. *)
Definition Run (df : nat) : M unit :=
  fun w =>
    match lock w df with
    | Some e =>
        match bind_columns e (resolve (fTree e) (files w)) with
        | Some k => (Throw k, w)
        | None =>
            let '(acts, cnt, amb) := event_loop e (files w) (heap w) (ambient w) in
            let h1 := fold_left Finalize acts (heap w) in
            let h2 := fold_left mark_ready (fResProxyReadiness e) h1 in
            (Ok tt, set_ambient amb (set_heap h2 (put_engine df (ran e cnt) w)))
        end
    | None => (Throw EngineGone, w)
    end.

(** ** What the header uses from the engine and the utilities *)

Definition GetDefaultBranches (df : nat) : M BranchNames_t := impl df fDefaultBranches.
Definition GetNSlots (df : nat) : M N := impl df fNSlots.
Definition HasRunAtLeastOnce (df : nat) : M bool := impl df fHasRunAtLeastOnce.
Definition GetBookedBranches (df : nat) : M (list (string * nat)) := impl df fBookedBranches.
Definition GetTree (df : nat) : M TTree :=
  fun w => match lock w df with
           | Some e => (Ok (resolve (fTree e) (files w)), w)
           | None => (Throw EngineGone, w)
           end.

(** [node->IncrChildrenCount()] *)
Definition IncrChildrenCount (df : nat) (node : nat) : M unit :=
  update df (fun e => set_nodes (alter IncrChildrenCount_node node (fNodes e)) (fCounters e) e).

(** [df->Book(nodePtr)]: the engine keeps the node; the pointer to it is its
    index in the graph. *)
Definition Book (df : nat) (nd : Node) : M nat :=
  id <- impl df (fun e => length (fNodes e)) ;;
  update df (fun e => set_nodes (fNodes e ++ [nd]) (fCounters e ++ [zero_counter]) e) ;;
  ret id.

Definition BookBranch (df : nat) (name : string) (nd : Node) : M nat :=
  id <- Book df nd ;;
  update df (fun e => set_branches (fBookedBranches e ++ [(name, id)]) e) ;;
  ret id.

Definition BookAction (df : nat) (a : Action) : M unit :=
  update df (fun e => set_actions (fBookedActions e ++ [a]) e).

(** [std::make_shared<T>(v)], at the point where the engine takes its copy of
    the pointer. *)
Definition make_shared (v : value) : M nat :=
  fun w => (Ok (length (heap w)), set_heap (heap w ++ [{| cValue := v; cReady := false |}]) w).

(** [unsigned int] arithmetic. *)
Definition uint (z : Z) : N := Z.to_N (z mod 2 ^ 32).

(** Modelled from the spec: [ROOT::Internal::PickBranchNames] of
    [TDFUtils.hxx]. The arity of the callable must equal the number of
    columns supplied or, if none is supplied, the size of the default list. *)
Definition PickBranchNames (nArgs : N) (bl defBl : BranchNames_t) : M BranchNames_t :=
  if (nArgs =? N.of_nat (length bl))%N then ret bl
  else if (N.of_nat (length bl) =? 0)%N && (nArgs =? N.of_nat (length defBl))%N then ret defBl
  else throw ArityMismatch.

(** Modelled from the spec: [ROOT::Internal::CheckTmpBranch] of
    [TDFUtils.hxx]. The name of a derived column must not be a branch of
    the tree. *)
Definition CheckTmpBranch (name : string) (tree : TTree) : M unit :=
  if existsb (String.eqb name) (GetListOfBranches tree) then throw DuplicateColumn
  else ret tt.

(** Modelled from the spec: [ROOT::Internal::ColumnName2ColumnTypeName] of
    [TDFUtils.hxx]: the type of a column of the tree or of a booked derived
    column, an error for any other name. *)
Definition ColumnName2ColumnTypeName (b : string) (tree : TTree)
    (booked : list (string * nat)) : M ctype :=
  if existsb (String.eqb b) (GetListOfBranches tree)
  then ret (type_of (lookup_col (GetEntry tree 0) b))
  else if existsb (String.eqb b) (map fst booked) then ret (t_object "auto")
  else throw UnknownColumn.

Fixpoint mapM {A B} (f : A -> M B) (l : list A) : M (list B) :=
  match l with
  | [] => ret []
  | x :: rest => y <- f x ;; ys <- mapM f rest ;; ret (y :: ys)
  end.

(** [TDFTraitsUtils::TNeedJitting<BranchTypes...>] *)
Definition TNeedJitting (types : list ctype) : bool :=
  existsb (ctype_eqb TDataFrameGuessedType) types.

(** Handles. A handle owns its node and refers weakly to the engine. *)
Record TDataFrameInterface := {
  fProxiedPtr : nat;
  fImplWeakPtr : nat
}.

(** Modelled from the spec: [TActionResultProxy] of
    [TActionResultProxy.hxx], the handle of a lazy result. *)
Record TActionResultProxy := {
  fObjPtr : nat;
  fImplWeakPtrOfResult : nat
}.

(** Modelled from the spec: [ROOT::Detail::MakeActionResultProxy]. The engine
    remembers the handle's readiness flag until its next run. *)
Definition MakeActionResultProxy (r : nat) (df : nat) : M TActionResultProxy :=
  update df (fun e => set_readiness (fResProxyReadiness e ++ [r]) e) ;;
  ret {| fObjPtr := r; fImplWeakPtrOfResult := df |}.

(** Modelled from the spec: dereferencing a lazy result. A handle is valid
    until the engine is released; a result that is not ready triggers the
    run. *)
Definition Get (p : TActionResultProxy) : M value :=
  fun w =>
    match lock w (fImplWeakPtrOfResult p) with
    | None => (Throw EngineGone, w)
    | Some _ =>
        if cell_ready (heap w) (fObjPtr p) then (Ok (cell_value (heap w) (fObjPtr p)), w)
        else match Run (fImplWeakPtrOfResult p) w with
             | (Ok _, w') => (Ok (cell_value (heap w') (fObjPtr p)), w')
             | (Throw e, w') => (Throw e, w')
             end
    end.

(** The names of the derived columns visible from a node. *)
Definition GetTmpBranches (df : nat) (node : nat) : M (list string) :=
  impl df (fun e =>
    flat_map (fun id => match nKind <$> fNodes e !! id with
                        | Some (BranchNode name _ _) => [name]
                        | _ => []
                        end) (path (fNodes e) node)).

(** Modelled from the spec: [fProxiedPtr->Report()], the counters of the named
    filters between the source and the node, in the order they were added. *)
Definition NodeReport (df : nat) (node : nat) : M unit :=
  ls <- impl df (fun e =>
    flat_map (fun id => match nKind <$> fNodes e !! id, fCounters e !! id with
                        | Some (FilterNode _ _ name), Some c =>
                            if String.eqb name "" then [] else [(name, cAccepted c, cTotal c)]
                        | _, _ => []
                        end) (path (fNodes e) node)) ;;
  fun w => (Ok tt, set_stdout (stdout w ++ ls) w).

Inductive ActionType :=
| AT_Histo1D | AT_Histo2D | AT_Histo3D | AT_Profile1D | AT_Profile2D | AT_Fill
| AT_Min | AT_Max | AT_Mean.

(** ** The interface

    The methods of [TDataFrameInterface<Proxied>], in the order of the
    header. The object the method is called on is the last argument,
    [this]. Template type arguments are explicit arguments. *)

Module TDF.

(** Get the TDataFrameImpl if reachable. If not, throw. *)
Definition GetDataFrameChecked (this : TDataFrameInterface) : M nat :=
  fun w => match lock w (fImplWeakPtr this) with
           | Some _ => (Ok (fImplWeakPtr this), w)
           | None => (Throw EngineGone, w)
           end.

Definition Filter (f : Fn bool) (bn : BranchNames_t) (name : string)
    (this : TDataFrameInterface) : M TDataFrameInterface :=
  df <- GetDataFrameChecked this ;;
  defBl <- GetDefaultBranches df ;;
  let nArgs := fgSize f in
  actualBl <- PickBranchNames nArgs bn defBl ;;
  let FilterPtr := {| nKind := FilterNode f actualBl name;
                      fPrevData := fProxiedPtr this; fNChildren := 0 |} in
  IncrChildrenCount df (fProxiedPtr this) ;;
  id <- Book df FilterPtr ;;
  ret {| fProxiedPtr := id; fImplWeakPtr := fImplWeakPtr this |}.

Definition Filter_name (f : Fn bool) (name : string) (this : TDataFrameInterface)
  : M TDataFrameInterface :=
  Filter f [] name this.

(** Modelled from the spec: [ROOT::Internal::InterpretCall] compiles the
    expression against the visible columns and calls the callable form of
    the method; a compiler failure is an [ExpressionError]. *)
Definition InterpretCall_Filter (this : TDataFrameInterface) (name expression : string)
    (branches tmpBranches : list string) : M TDataFrameInterface :=
  c <- (fun w => (Ok (compile_filter (gInterpreter w) expression (branches ++ tmpBranches)), w)) ;;
  match c with
  | Some (f, bl) => Filter f bl name this
  | None => throw ExpressionError
  end.

Definition Filter_expression (expression name : string) (this : TDataFrameInterface)
  : M TDataFrameInterface :=
  df <- GetDataFrameChecked this ;;
  tree <- GetTree df ;;
  let branches := GetListOfBranches tree in
  tmpBranches <- GetTmpBranches df (fProxiedPtr this) ;;
  InterpretCall_Filter this name expression branches tmpBranches.

Definition Define (name : string) (expression : Fn value) (bl : BranchNames_t)
    (this : TDataFrameInterface) : M TDataFrameInterface :=
  df <- GetDataFrameChecked this ;;
  tree <- GetTree df ;;
  CheckTmpBranch name tree ;;
  defBl <- GetDefaultBranches df ;;
  let nArgs := fgSize expression in
  actualBl <- PickBranchNames nArgs bl defBl ;;
  let BranchPtr := {| nKind := BranchNode name expression actualBl;
                      fPrevData := fProxiedPtr this; fNChildren := 0 |} in
  IncrChildrenCount df (fProxiedPtr this) ;;
  id <- BookBranch df name BranchPtr ;;
  ret {| fProxiedPtr := id; fImplWeakPtr := fImplWeakPtr this |}.

Definition InterpretCall_Define (this : TDataFrameInterface) (name expression : string)
    (branches tmpBranches : list string) : M TDataFrameInterface :=
  c <- (fun w => (Ok (compile_define (gInterpreter w) expression (branches ++ tmpBranches)), w)) ;;
  match c with
  | Some (f, bl) => Define name f bl this
  | None => throw ExpressionError
  end.

Definition Define_expression (name expression : string) (this : TDataFrameInterface)
  : M TDataFrameInterface :=
  df <- GetDataFrameChecked this ;;
  tree <- GetTree df ;;
  let branches := GetListOfBranches tree in
  tmpBranches <- GetTmpBranches df (fProxiedPtr this) ;;
  InterpretCall_Define this name expression branches tmpBranches.

Definition Range (start stop stride : N) (this : TDataFrameInterface)
  : M TDataFrameInterface :=
  if (stride =? 0)%N || (negb (stop =? 0)%N && (stop <? start)%N)
  then throw InvalidArgument
  else
    mt <- IsImplicitMTEnabled ;;
    if mt then throw Unsupported
    else
      df <- GetDataFrameChecked this ;;
      let RangePtr := {| nKind := RangeNode start stop stride;
                         fPrevData := fProxiedPtr this; fNChildren := 0 |} in
      IncrChildrenCount df (fProxiedPtr this) ;;
      id <- Book df RangePtr ;;
      ret {| fProxiedPtr := id; fImplWeakPtr := fImplWeakPtr this |}.

Definition Range_stop (stop : N) (this : TDataFrameInterface) : M TDataFrameInterface :=
  Range 0 stop 1 this.

Definition ForeachSlot (f : SlotCallable) (bl : BranchNames_t) (this : TDataFrameInterface)
  : M unit :=
  df <- GetDataFrameChecked this ;;
  defBl <- GetDefaultBranches df ;;
  let nArgs := SlotCallable_fgSize f in
  actualBl <- PickBranchNames (uint (Z.of_N nArgs - 1)) bl defBl ;;
  BookAction df {| aOp := ForeachSlotOperation f; aTypes := BranchTypes_t f;
                   aBl := actualBl; aPrev := fProxiedPtr this |} ;;
  IncrChildrenCount df (fProxiedPtr this) ;;
  Run df.

Definition Foreach (f : Callable) (bl : BranchNames_t) (this : TDataFrameInterface)
  : M unit :=
  ForeachSlot (AddSlotParameter f) bl this.

Definition GetDefaultBranchNames (nExpectedBranches : N) (actionNameForErr : string)
    (this : TDataFrameInterface) : M BranchNames_t :=
  df <- GetDataFrameChecked this ;;
  defaultBranches <- GetDefaultBranches df ;;
  let dBSize := N.of_nat (length defaultBranches) in
  if (dBSize <? nExpectedBranches)%N then throw MissingColumnSpec
  else ret (take (N.to_nat nExpectedBranches) defaultBranches).

(** The loop of [GetBranchNames] that counts the names that are not empty. *)
Definition count_provided (bl : BranchNames_t) : N :=
  fold_left (fun providedBranches s =>
               if String.eqb s "" then providedBranches
               else uint (Z.of_N providedBranches + 1)) bl 0%N.

(** Returns the default branches if needed, takes care of the error
    handling. [types] are the template arguments that are not [void]. *)
Definition GetBranchNames (types : list ctype) (bl : BranchNames_t)
    (actionNameForErr : string) (this : TDataFrameInterface) : M BranchNames_t :=
  let neededBranches := uint (Z.of_nat (length types)) in
  let providedBranches := count_provided bl in
  if (neededBranches =? providedBranches)%N then ret bl
  else GetDefaultBranchNames neededBranches actionNameForErr this.

Definition Reduce_init (f : value -> value -> value) (T : ctype) (branchName : string)
    (initValue : value) (this : TDataFrameInterface) : M TActionResultProxy :=
  df <- GetDataFrameChecked this ;;
  nSlots <- GetNSlots df ;;
  bl <- GetBranchNames [T] [branchName] "reduce branch values" this ;;
  redObjPtr <- make_shared initValue ;;
  BookAction df {| aOp := ReduceOperation f redObjPtr nSlots; aTypes := [T]; aBl := bl;
                   aPrev := fProxiedPtr this |} ;;
  IncrChildrenCount df (fProxiedPtr this) ;;
  MakeActionResultProxy redObjPtr df.

Definition Reduce (f : value -> value -> value) (T : ctype) `{DefaultConstructible T}
    (branchName : string) (this : TDataFrameInterface) : M TActionResultProxy :=
  Reduce_init f T branchName (T_default (T := T)) this.

Definition Count (this : TDataFrameInterface) : M TActionResultProxy :=
  df <- GetDataFrameChecked this ;;
  nSlots <- GetNSlots df ;;
  cSPtr <- make_shared (VUInt 0) ;;
  BookAction df {| aOp := CountOperation cSPtr nSlots; aTypes := []; aBl := [];
                   aPrev := fProxiedPtr this |} ;;
  IncrChildrenCount df (fProxiedPtr this) ;;
  MakeActionResultProxy cSPtr df.

Definition Take (T : ctype) (branchName : string) (this : TDataFrameInterface)
  : M TActionResultProxy :=
  df <- GetDataFrameChecked this ;;
  nSlots <- GetNSlots df ;;
  bl <- GetBranchNames [T] [branchName] "get the values of the branch" this ;;
  valuesPtr <- make_shared (VVec []) ;;
  BookAction df {| aOp := TakeOperation valuesPtr nSlots; aTypes := [T]; aBl := bl;
                   aPrev := fProxiedPtr this |} ;;
  IncrChildrenCount df (fProxiedPtr this) ;;
  MakeActionResultProxy valuesPtr df.

(** [BuildAndBook] builds the action with the right operation and books it.
    The result object [r] is local to the caller until the operation takes
    its copy of the pointer; the index of the shared object is returned. *)
Definition BuildAndBook (at_ : ActionType) (types : list ctype) (bl : BranchNames_t)
    (r : value) (nSlots : N) (this : TDataFrameInterface) : M nat :=
  match at_ with
  | AT_Histo1D =>
      df <- GetDataFrameChecked this ;;
      let hasAxisLimits := match r with VHisto h => HasAxisLimits h | _ => false end in
      h <- make_shared r ;;
      (if hasAxisLimits
       then BookAction df {| aOp := FillTOOperation h nSlots; aTypes := types; aBl := bl;
                             aPrev := fProxiedPtr this |}
       else BookAction df {| aOp := FillOperation h nSlots; aTypes := types; aBl := bl;
                             aPrev := fProxiedPtr this |}) ;;
      ret h
  | AT_Min =>
      df <- GetDataFrameChecked this ;;
      minV <- make_shared r ;;
      BookAction df {| aOp := MinOperation minV nSlots; aTypes := types; aBl := bl;
                       aPrev := fProxiedPtr this |} ;;
      ret minV
  | AT_Max =>
      df <- GetDataFrameChecked this ;;
      maxV <- make_shared r ;;
      BookAction df {| aOp := MaxOperation maxV nSlots; aTypes := types; aBl := bl;
                       aPrev := fProxiedPtr this |} ;;
      ret maxV
  | AT_Mean =>
      df <- GetDataFrameChecked this ;;
      meanV <- make_shared r ;;
      BookAction df {| aOp := MeanOperation meanV nSlots; aTypes := types; aBl := bl;
                       aPrev := fProxiedPtr this |} ;;
      ret meanV
  | _ =>
      df <- GetDataFrameChecked this ;;
      h <- make_shared r ;;
      BookAction df {| aOp := FillTOOperation h nSlots; aTypes := types; aBl := bl;
                       aPrev := fProxiedPtr this |} ;;
      ret h
  end.

(** [ROOT::Internal::CallBuildAndBook] *)
Definition CallBuildAndBook (node : TDataFrameInterface) (at_ : ActionType)
    (types : list ctype) (bl : BranchNames_t) (nSlots : N) (r : value) : M nat :=
  BuildAndBook at_ types bl r nSlots node.

(** Modelled from the spec: [ROOT::Internal::JitBuildAndBook] resolves the
    type of every column and calls [CallBuildAndBook] with them. *)
Definition JitBuildAndBook (bl : BranchNames_t) (this : TDataFrameInterface)
    (at_ : ActionType) (r : value) (tree : TTree) (nSlots : N)
    (tmpBranches : list (string * nat)) : M nat :=
  types <- mapM (fun b => ColumnName2ColumnTypeName b tree tmpBranches) bl ;;
  CallBuildAndBook this at_ types bl nSlots r.

Definition CreateAction (at_ : ActionType) (types : list ctype) (bl : BranchNames_t)
    (r : value) (this : TDataFrameInterface) : M TActionResultProxy :=
  if TNeedJitting types then
    df <- GetDataFrameChecked this ;;
    nSlots <- GetNSlots df ;;
    tmpBranches <- GetBookedBranches df ;;
    tree <- GetTree df ;;
    p <- JitBuildAndBook bl this at_ r tree nSlots tmpBranches ;;
    IncrChildrenCount df (fProxiedPtr this) ;;
    MakeActionResultProxy p df
  else
    df <- GetDataFrameChecked this ;;
    nSlots <- GetNSlots df ;;
    p <- BuildAndBook at_ types bl r nSlots this ;;
    IncrChildrenCount df (fProxiedPtr this) ;;
    MakeActionResultProxy p df.

Definition Histo1D (V : ctype) (model : Aggregator) (vName : string)
    (this : TDataFrameInterface) : M TActionResultProxy :=
  bl <- GetBranchNames [V] [vName] "fill the histogram" this ;;
  let h := model in
  let h := if SFeqb (fXmax h) (fXmin h) then SetCanExtendAllAxes h else h in
  CreateAction AT_Histo1D [V] bl (VHisto h) this.

Definition Histo1D_name (V : ctype) (vName : string) (this : TDataFrameInterface)
  : M TActionResultProxy :=
  Histo1D V default_TH1F vName this.

Definition Histo1D_weighted (V W : ctype) (model : Aggregator) (vName wName : string)
    (this : TDataFrameInterface) : M TActionResultProxy :=
  bl <- GetBranchNames [V; W] [vName; wName] "fill the histogram" this ;;
  let h := model in
  CreateAction AT_Histo1D [V; W] bl (VHisto h) this.

Definition Histo1D_weighted_names (V W : ctype) (vName wName : string)
    (this : TDataFrameInterface) : M TActionResultProxy :=
  Histo1D_weighted V W default_TH1F vName wName this.

Definition Histo1D_VW (V W : ctype) (model : Aggregator) (this : TDataFrameInterface)
  : M TActionResultProxy :=
  Histo1D_weighted V W model "" "" this.

Definition Histo2D (V1 V2 : ctype) (model : Aggregator) (v1Name v2Name : string)
    (this : TDataFrameInterface) : M TActionResultProxy :=
  let h := model in
  if negb (HasAxisLimits h) then throw Unsupported
  else
    bl <- GetBranchNames [V1; V2] [v1Name; v2Name] "fill the histogram" this ;;
    CreateAction AT_Histo2D [V1; V2] bl (VHisto h) this.

Definition Histo2D_weighted (V1 V2 W : ctype) (model : Aggregator)
    (v1Name v2Name wName : string) (this : TDataFrameInterface) : M TActionResultProxy :=
  let h := model in
  if negb (HasAxisLimits h) then throw Unsupported
  else
    bl <- GetBranchNames [V1; V2; W] [v1Name; v2Name; wName] "fill the histogram" this ;;
    CreateAction AT_Histo2D [V1; V2; W] bl (VHisto h) this.

Definition Histo2D_VW (V1 V2 W : ctype) (model : Aggregator) (this : TDataFrameInterface)
  : M TActionResultProxy :=
  Histo2D_weighted V1 V2 W model "" "" "" this.

Definition Histo3D (V1 V2 V3 : ctype) (model : Aggregator) (v1Name v2Name v3Name : string)
    (this : TDataFrameInterface) : M TActionResultProxy :=
  let h := model in
  if negb (HasAxisLimits h) then throw Unsupported
  else
    bl <- GetBranchNames [V1; V2; V3] [v1Name; v2Name; v3Name] "fill the histogram" this ;;
    CreateAction AT_Histo3D [V1; V2; V3] bl (VHisto h) this.

Definition Histo3D_weighted (V1 V2 V3 W : ctype) (model : Aggregator)
    (v1Name v2Name v3Name wName : string) (this : TDataFrameInterface)
  : M TActionResultProxy :=
  let h := model in
  if negb (HasAxisLimits h) then throw Unsupported
  else
    bl <- GetBranchNames [V1; V2; V3; W] [v1Name; v2Name; v3Name; wName]
            "fill the histogram" this ;;
    CreateAction AT_Histo3D [V1; V2; V3; W] bl (VHisto h) this.

Definition Histo3D_VW (V1 V2 V3 W : ctype) (model : Aggregator) (this : TDataFrameInterface)
  : M TActionResultProxy :=
  Histo3D_weighted V1 V2 V3 W model "" "" "" "" this.

Definition Profile1D (V1 V2 : ctype) (model : Aggregator) (v1Name v2Name : string)
    (this : TDataFrameInterface) : M TActionResultProxy :=
  let h := model in
  if negb (HasAxisLimits h) then throw Unsupported
  else
    bl <- GetBranchNames [V1; V2] [v1Name; v2Name] "fill the 1D Profile" this ;;
    CreateAction AT_Profile1D [V1; V2] bl (VHisto h) this.

Definition Profile1D_weighted (V1 V2 W : ctype) (model : Aggregator)
    (v1Name v2Name wName : string) (this : TDataFrameInterface) : M TActionResultProxy :=
  let h := model in
  if negb (HasAxisLimits h) then throw Unsupported
  else
    bl <- GetBranchNames [V1; V2; W] [v1Name; v2Name; wName] "fill the 1D profile" this ;;
    CreateAction AT_Profile1D [V1; V2; W] bl (VHisto h) this.

Definition Profile1D_VW (V1 V2 W : ctype) (model : Aggregator) (this : TDataFrameInterface)
  : M TActionResultProxy :=
  Profile1D_weighted V1 V2 W model "" "" "" this.

Definition Profile2D (V1 V2 V3 : ctype) (model : Aggregator) (v1Name v2Name v3Name : string)
    (this : TDataFrameInterface) : M TActionResultProxy :=
  let h := model in
  if negb (HasAxisLimits h) then throw Unsupported
  else
    bl <- GetBranchNames [V1; V2; V3] [v1Name; v2Name; v3Name] "fill the 2D profile" this ;;
    CreateAction AT_Profile2D [V1; V2; V3] bl (VHisto h) this.

Definition Profile2D_weighted (V1 V2 V3 W : ctype) (model : Aggregator)
    (v1Name v2Name v3Name wName : string) (this : TDataFrameInterface)
  : M TActionResultProxy :=
  let h := model in
  if negb (HasAxisLimits h) then throw Unsupported
  else
    bl <- GetBranchNames [V1; V2; V3; W] [v1Name; v2Name; v3Name; wName]
            "fill the histogram" this ;;
    CreateAction AT_Profile2D [V1; V2; V3; W] bl (VHisto h) this.

Definition Profile2D_VW (V1 V2 V3 W : ctype) (model : Aggregator)
    (this : TDataFrameInterface) : M TActionResultProxy :=
  Profile2D_weighted V1 V2 V3 W model "" "" "" "" this.

(** [Fill<FirstBranch, OtherBranches...>(model, bl)] *)
Definition Fill_typed (FirstBranch : ctype) (OtherBranches : list ctype)
    (model : Aggregator) (bl : BranchNames_t) (this : TDataFrameInterface)
  : M TActionResultProxy :=
  let h := model in
  if negb (HasAxisLimits h) then throw Unsupported
  else CreateAction AT_Fill (FirstBranch :: OtherBranches) bl (VHisto h) this.

Definition Fill (model : Aggregator) (bl : BranchNames_t) (this : TDataFrameInterface)
  : M TActionResultProxy :=
  let h := model in
  if negb (HasAxisLimits h) then throw Unsupported
  else CreateAction AT_Fill [TDataFrameGuessedType] bl (VHisto h) this.

Definition Min (T : ctype) (branchName : string) (this : TDataFrameInterface)
  : M TActionResultProxy :=
  bl <- GetBranchNames [T] [branchName] "calculate the minimum" this ;;
  let minV := VDouble numeric_limits_max in
  CreateAction AT_Min [T] bl minV this.

Definition Max (T : ctype) (branchName : string) (this : TDataFrameInterface)
  : M TActionResultProxy :=
  bl <- GetBranchNames [T] [branchName] "calculate the maximum" this ;;
  let maxV := VDouble numeric_limits_min in
  CreateAction AT_Max [T] bl maxV this.

Definition Mean (T : ctype) (branchName : string) (this : TDataFrameInterface)
  : M TActionResultProxy :=
  bl <- GetBranchNames [T] [branchName] "calculate the mean" this ;;
  let meanV := VDouble (double_of_Z 0) in
  CreateAction AT_Mean [T] bl meanV this.

Definition Report (this : TDataFrameInterface) : M unit :=
  df <- GetDataFrameChecked this ;;
  hasRun <- HasRunAtLeastOnce df ;;
  (if negb hasRun then Run df else ret tt) ;;
  NodeReport df (fProxiedPtr this).

(** Access to the variables [fillTree] captures. *)
Definition set_t (tr : TTree) : M unit :=
  fun w => (Ok tt, set_ambient {| firstEvt := firstEvt (ambient w); t := tr;
                                  user := user (ambient w) |} w).
Definition set_firstEvt (b : bool) : M unit :=
  fun w => (Ok tt, set_ambient {| firstEvt := b; t := t (ambient w);
                                  user := user (ambient w) |} w).

(** Implementation of snapshot. [Args] are the template arguments; the
    index sequence [S...] is [0 .. sizeof...(Args) - 1]. *)
Definition SnapshotImpl (Args : list ctype) (treename filename : string)
    (bnames : BranchNames_t) (this : TDataFrameInterface) : M TDataFrameInterface :=
  let templateParamsN := length Args in
  let bNamesN := length bnames in
  if negb (Nat.eqb templateParamsN bNamesN) then throw ArityMismatch
  else
    (fun w => (Ok tt, set_files (TFile_Open_RECREATE filename (files w)) w)) ;;
    set_t new_TTree ;;
    Foreach (fillTree Args bnames) (take templateParamsN bnames) this ;;
    (fun w => (Ok tt, set_files (TTree_Write filename treename (t (ambient w)) (files w)) w)) ;;
    set_firstEvt true ;;
    fun w =>
      let nSlots := if fgImplicitMT w then fgPoolSize w else 1%N in
      let snapshotTDF := {| fProxiedPtr := 0; fImplWeakPtr := length (engines w) |} in
      let chain := TChain treename filename in
      (Ok snapshotTDF,
       set_engines (engines w ++ [Some (SetTree chain (new_TDataFrameImpl (InMemory new_TTree)
                                                         bnames nSlots))]) w).

Definition Snapshot_typed (BranchTypes : list ctype) (treename filename : string)
    (bnames : BranchNames_t) (this : TDataFrameInterface) : M TDataFrameInterface :=
  SnapshotImpl BranchTypes treename filename bnames this.

(** The types of the branches are inferred, and the typed method is called
    through the interpreter. *)
Definition Snapshot (treename filename : string) (bnames : BranchNames_t)
    (this : TDataFrameInterface) : M TDataFrameInterface :=
  df <- GetDataFrameChecked this ;;
  tree <- GetTree df ;;
  booked <- GetBookedBranches df ;;
  types <- mapM (fun b => ColumnName2ColumnTypeName b tree booked) bnames ;;
  Snapshot_typed types treename filename bnames this.

End TDF.

(** ** Every call of the interface

    The calls a user can make on a handle, one constructor per overload, and
    what each returns. *)

Inductive Call :=
| Call_Filter (f : Fn bool) (bn : BranchNames_t) (name : string)
| Call_Filter_name (f : Fn bool) (name : string)
| Call_Filter_expression (expression name : string)
| Call_Define (name : string) (expression : Fn value) (bl : BranchNames_t)
| Call_Define_expression (name expression : string)
| Call_Snapshot_typed (BranchTypes : list ctype) (treename filename : string)
    (bnames : BranchNames_t)
| Call_Snapshot (treename filename : string) (bnames : BranchNames_t)
| Call_Range (start stop stride : N)
| Call_Range_stop (stop : N)
| Call_Foreach (f : Callable) (bl : BranchNames_t)
| Call_ForeachSlot (f : SlotCallable) (bl : BranchNames_t)
| Call_Reduce (f : value -> value -> value) (T : ctype) (d : DefaultConstructible T)
    (branchName : string)
| Call_Reduce_init (f : value -> value -> value) (T : ctype) (branchName : string)
    (initValue : value)
| Call_Count
| Call_Take (T : ctype) (branchName : string)
| Call_Histo1D (V : ctype) (model : Aggregator) (vName : string)
| Call_Histo1D_name (V : ctype) (vName : string)
| Call_Histo1D_weighted (V W : ctype) (model : Aggregator) (vName wName : string)
| Call_Histo1D_weighted_names (V W : ctype) (vName wName : string)
| Call_Histo1D_VW (V W : ctype) (model : Aggregator)
| Call_Histo2D (V1 V2 : ctype) (model : Aggregator) (v1Name v2Name : string)
| Call_Histo2D_weighted (V1 V2 W : ctype) (model : Aggregator) (v1Name v2Name wName : string)
| Call_Histo2D_VW (V1 V2 W : ctype) (model : Aggregator)
| Call_Histo3D (V1 V2 V3 : ctype) (model : Aggregator) (v1Name v2Name v3Name : string)
| Call_Histo3D_weighted (V1 V2 V3 W : ctype) (model : Aggregator)
    (v1Name v2Name v3Name wName : string)
| Call_Histo3D_VW (V1 V2 V3 W : ctype) (model : Aggregator)
| Call_Profile1D (V1 V2 : ctype) (model : Aggregator) (v1Name v2Name : string)
| Call_Profile1D_weighted (V1 V2 W : ctype) (model : Aggregator)
    (v1Name v2Name wName : string)
| Call_Profile1D_VW (V1 V2 W : ctype) (model : Aggregator)
| Call_Profile2D (V1 V2 V3 : ctype) (model : Aggregator) (v1Name v2Name v3Name : string)
| Call_Profile2D_weighted (V1 V2 V3 W : ctype) (model : Aggregator)
    (v1Name v2Name v3Name wName : string)
| Call_Profile2D_VW (V1 V2 V3 W : ctype) (model : Aggregator)
| Call_Fill_typed (FirstBranch : ctype) (OtherBranches : list ctype) (model : Aggregator)
    (bl : BranchNames_t)
| Call_Fill (model : Aggregator) (bl : BranchNames_t)
| Call_Min (T : ctype) (branchName : string)
| Call_Max (T : ctype) (branchName : string)
| Call_Mean (T : ctype) (branchName : string)
| Call_Report.

Inductive Returned :=
| Node_handle (h : TDataFrameInterface)
| Result_handle (p : TActionResultProxy)
| Nothing.

Definition returns_node (m : M TDataFrameInterface) : M Returned :=
  h <- m ;; ret (Node_handle h).
Definition returns_result (m : M TActionResultProxy) : M Returned :=
  p <- m ;; ret (Result_handle p).
Definition returns_void (m : M unit) : M Returned :=
  m ;; ret Nothing.

Definition invoke (c : Call) (this : TDataFrameInterface) : M Returned :=
  match c with
  | Call_Filter f bn name => returns_node (TDF.Filter f bn name this)
  | Call_Filter_name f name => returns_node (TDF.Filter_name f name this)
  | Call_Filter_expression e name => returns_node (TDF.Filter_expression e name this)
  | Call_Define name e bl => returns_node (TDF.Define name e bl this)
  | Call_Define_expression name e => returns_node (TDF.Define_expression name e this)
  | Call_Snapshot_typed ts tn fn bnames =>
      returns_node (TDF.Snapshot_typed ts tn fn bnames this)
  | Call_Snapshot tn fn bnames => returns_node (TDF.Snapshot tn fn bnames this)
  | Call_Range start stop stride => returns_node (TDF.Range start stop stride this)
  | Call_Range_stop stop => returns_node (TDF.Range_stop stop this)
  | Call_Foreach f bl => returns_void (TDF.Foreach f bl this)
  | Call_ForeachSlot f bl => returns_void (TDF.ForeachSlot f bl this)
  | Call_Reduce f T d bn => returns_result (TDF.Reduce f T (H := d) bn this)
  | Call_Reduce_init f T bn init => returns_result (TDF.Reduce_init f T bn init this)
  | Call_Count => returns_result (TDF.Count this)
  | Call_Take T bn => returns_result (TDF.Take T bn this)
  | Call_Histo1D V m v => returns_result (TDF.Histo1D V m v this)
  | Call_Histo1D_name V v => returns_result (TDF.Histo1D_name V v this)
  | Call_Histo1D_weighted V W m v wn => returns_result (TDF.Histo1D_weighted V W m v wn this)
  | Call_Histo1D_weighted_names V W v wn =>
      returns_result (TDF.Histo1D_weighted_names V W v wn this)
  | Call_Histo1D_VW V W m => returns_result (TDF.Histo1D_VW V W m this)
  | Call_Histo2D V1 V2 m a b => returns_result (TDF.Histo2D V1 V2 m a b this)
  | Call_Histo2D_weighted V1 V2 W m a b wn =>
      returns_result (TDF.Histo2D_weighted V1 V2 W m a b wn this)
  | Call_Histo2D_VW V1 V2 W m => returns_result (TDF.Histo2D_VW V1 V2 W m this)
  | Call_Histo3D V1 V2 V3 m a b c' => returns_result (TDF.Histo3D V1 V2 V3 m a b c' this)
  | Call_Histo3D_weighted V1 V2 V3 W m a b c' wn =>
      returns_result (TDF.Histo3D_weighted V1 V2 V3 W m a b c' wn this)
  | Call_Histo3D_VW V1 V2 V3 W m => returns_result (TDF.Histo3D_VW V1 V2 V3 W m this)
  | Call_Profile1D V1 V2 m a b => returns_result (TDF.Profile1D V1 V2 m a b this)
  | Call_Profile1D_weighted V1 V2 W m a b wn =>
      returns_result (TDF.Profile1D_weighted V1 V2 W m a b wn this)
  | Call_Profile1D_VW V1 V2 W m => returns_result (TDF.Profile1D_VW V1 V2 W m this)
  | Call_Profile2D V1 V2 V3 m a b c' => returns_result (TDF.Profile2D V1 V2 V3 m a b c' this)
  | Call_Profile2D_weighted V1 V2 V3 W m a b c' wn =>
      returns_result (TDF.Profile2D_weighted V1 V2 V3 W m a b c' wn this)
  | Call_Profile2D_VW V1 V2 V3 W m => returns_result (TDF.Profile2D_VW V1 V2 V3 W m this)
  | Call_Fill_typed T Ts m bl => returns_result (TDF.Fill_typed T Ts m bl this)
  | Call_Fill m bl => returns_result (TDF.Fill m bl this)
  | Call_Min T bn => returns_result (TDF.Min T bn this)
  | Call_Max T bn => returns_result (TDF.Max T bn this)
  | Call_Mean T bn => returns_result (TDF.Mean T bn this)
  | Call_Report => returns_void (TDF.Report this)
  end.

(** The children count of node [id] of engine [df]. *)
Definition children (w : World) (df id : nat) : option N :=
  match lock w df with
  | Some e => fNChildren <$> fNodes e !! id
  | None => None
  end.

(** The check a method makes on its arguments before it looks for the
    engine, and the error it raises when the check fails. *)
Definition argument_check (c : Call) (w : World) : option ErrorKind :=
  let limits (m : Aggregator) := if HasAxisLimits m then None else Some Unsupported in
  match c with
  | Call_Range start stop stride =>
      if (stride =? 0)%N || (negb (stop =? 0)%N && (stop <? start)%N)
      then Some InvalidArgument
      else if fgImplicitMT w then Some Unsupported else None
  | Call_Range_stop _ => if fgImplicitMT w then Some Unsupported else None
  | Call_Snapshot_typed ts _ _ bnames =>
      if Nat.eqb (length ts) (length bnames) then None else Some ArityMismatch
  | Call_Histo2D _ _ m _ _ | Call_Histo2D_weighted _ _ _ m _ _ _ | Call_Histo2D_VW _ _ _ m
  | Call_Histo3D _ _ _ m _ _ _ | Call_Histo3D_weighted _ _ _ _ m _ _ _ _
  | Call_Histo3D_VW _ _ _ _ m
  | Call_Profile1D _ _ m _ _ | Call_Profile1D_weighted _ _ _ m _ _ _
  | Call_Profile1D_VW _ _ _ m
  | Call_Profile2D _ _ _ m _ _ _ | Call_Profile2D_weighted _ _ _ _ m _ _ _ _
  | Call_Profile2D_VW _ _ _ _ m
  | Call_Fill_typed _ _ m _ | Call_Fill m _ => limits m
  | _ => None
  end.

(** The rows a range lets through when [rows] reach it in order, [seen]
    being the number of entries it has seen before. *)
Fixpoint range_gate (start stop stride seen : N) (rows : list nat) : list nat :=
  match rows with
  | [] => []
  | r :: rest =>
      (if RangeAdmit start stop stride seen then [r] else [])
      ++ range_gate start stop stride (seen + 1) rest
  end.

(** ** Sample worlds *)

Definition make_tree (cols : list (string * (nat -> value))) (n : nat) : TTree :=
  {| fBranches := map (fun c => (fst c, (0%N, fst c))) cols;
     fEntries := map (fun r => map (fun c => snd c r) cols) (seq 0 n) |}.

Definition no_compiler : ExpressionCompiler :=
  {| compile_filter := fun _ _ => None; compile_define := fun _ _ => None |}.

(** One engine over [tr], sequential mode unless [mt]. *)
Definition make_world (mt : bool) (tr : TTree) (defaults : BranchNames_t) : World :=
  {| fgImplicitMT := mt; fgPoolSize := if mt then 4 else 1;
     engines := [Some (new_TDataFrameImpl (InMemory tr) defaults (if mt then 4 else 1))];
     heap := []; files := [];
     ambient := {| firstEvt := true; t := new_TTree; user := [] |};
     gInterpreter := no_compiler; stdout := [] |}.

(** The same world after the engine has gone out of scope. *)
Definition released_world (mt : bool) : World :=
  {| fgImplicitMT := mt; fgPoolSize := if mt then 4 else 1;
     engines := [None];
     heap := []; files := [];
     ambient := {| firstEvt := true; t := new_TTree; user := [] |};
     gInterpreter := no_compiler; stdout := [] |}.

Definition root : TDataFrameInterface := {| fProxiedPtr := 0; fImplWeakPtr := 0 |}.

Definition int_column (r : nat) : value := VInt (Z.of_nat r).
(** The column [-1.0, -2.0, ...]. *)
Definition negative_column (r : nat) : value := VDouble (double_of_Z (- Z.of_nat r - 1)).

(** ** Relations between the world before and after a call *)

(** Every node that exists keeps its children count. *)
Definition same_children (w w' : World) : Prop :=
  forall df id n, children w df id = Some n -> children w' df id = Some n.

(** The node [this] refers to gains one child; every other node that exists
    keeps its count. *)
Definition one_more_child (this : TDataFrameInterface) (w w' : World) : Prop :=
  forall df id n,
    children w df id = Some n ->
    children w' df id
    = Some (if Nat.eqb df (fImplWeakPtr this) && Nat.eqb id (fProxiedPtr this)
            then n + 1 else n)%N.

(** [R] relates the world before a computation to the world in which it
    returns. *)
Definition on_return {A} (R : World -> World -> Prop) (m : M A) : Prop :=
  forall w a w', m w = (Ok a, w') -> R w w'.

(** The calls that add a node or an action to the graph: all but [Report]. *)
Definition extends_graph (c : Call) : bool :=
  match c with
  | Call_Report => false
  | _ => true
  end.

(** ** What a booked action looks like *)

(** The operation [BuildAndBook] chooses for an action type. *)
Definition operation_of (at_ : ActionType) (r : value) (ptr : nat) (nSlots : N) : Operation :=
  match at_ with
  | AT_Histo1D =>
      if match r with VHisto h => HasAxisLimits h | _ => false end
      then FillTOOperation ptr nSlots else FillOperation ptr nSlots
  | AT_Min => MinOperation ptr nSlots
  | AT_Max => MaxOperation ptr nSlots
  | AT_Mean => MeanOperation ptr nSlots
  | _ => FillTOOperation ptr nSlots
  end.

(** The engine after action [a] has been booked on the node [aPrev a], and
    after the handle of its result object [ptr] has been made. *)
Definition book_on (a : Action) (e : TDataFrameImpl) : TDataFrameImpl :=
  set_nodes (alter IncrChildrenCount_node (aPrev a) (fNodes e)) (fCounters e)
    (set_actions (fBookedActions e ++ [a]) e).
Definition with_action (a : Action) (ptr : nat) (e : TDataFrameImpl) : TDataFrameImpl :=
  set_readiness (fResProxyReadiness e ++ [ptr]) (book_on a e).

(** The names [GetBranchNames] comes to, given the default list: the list
    supplied if it has as many non-empty names as types, else the first
    names of the default list, if it has enough. *)
Definition names_used (types : list ctype) (bl defaults : BranchNames_t)
  : option BranchNames_t :=
  let neededBranches := uint (Z.of_nat (length types)) in
  if (neededBranches =? TDF.count_provided bl)%N then Some bl
  else if (N.of_nat (length defaults) <? neededBranches)%N then None
  else Some (take (N.to_nat neededBranches) defaults).

(** The calls that name their columns through [GetBranchNames], with the
    column types and the names they pass. *)
Definition column_request (c : Call) : option (list ctype * BranchNames_t) :=
  match c with
  | Call_Reduce _ T _ bn | Call_Reduce_init _ T bn _ | Call_Take T bn
  | Call_Min T bn | Call_Max T bn | Call_Mean T bn => Some ([T], [bn])
  | Call_Histo1D V _ v | Call_Histo1D_name V v => Some ([V], [v])
  | Call_Histo1D_weighted V W _ v wn | Call_Histo1D_weighted_names V W v wn =>
      Some ([V; W], [v; wn])
  | Call_Histo1D_VW V W _ => Some ([V; W], [""; ""])
  | Call_Histo2D V1 V2 _ a b | Call_Profile1D V1 V2 _ a b => Some ([V1; V2], [a; b])
  | Call_Histo2D_weighted V1 V2 W _ a b wn | Call_Profile1D_weighted V1 V2 W _ a b wn =>
      Some ([V1; V2; W], [a; b; wn])
  | Call_Histo2D_VW V1 V2 W _ | Call_Profile1D_VW V1 V2 W _ =>
      Some ([V1; V2; W], [""; ""; ""])
  | Call_Histo3D V1 V2 V3 _ a b c' | Call_Profile2D V1 V2 V3 _ a b c' =>
      Some ([V1; V2; V3], [a; b; c'])
  | Call_Histo3D_weighted V1 V2 V3 W _ a b c' wn
  | Call_Profile2D_weighted V1 V2 V3 W _ a b c' wn =>
      Some ([V1; V2; V3; W], [a; b; c'; wn])
  | Call_Histo3D_VW V1 V2 V3 W _ | Call_Profile2D_VW V1 V2 V3 W _ =>
      Some ([V1; V2; V3; W], [""; ""; ""; ""])
  | _ => None
  end.

(** The last action the engine has booked. *)
Definition last_booked (w : World) (df : nat) : option Action :=
  match lock w df with
  | Some e => last (fBookedActions e)
  | None => None
  end.

(** The types of the columns are given, or can be inferred: every column is
    known. *)
Definition resolves (e : TDataFrameImpl) (w : World) (types : list ctype)
    (names : BranchNames_t) : Prop :=
  TNeedJitting types
  && negb (forallb (known_column (resolve (fTree e) (files w)) (fBookedBranches e)) names)
  = false.

(** The calls that require a model with axis limits, with the model. *)
Definition requires_limits (c : Call) : option Aggregator :=
  match c with
  | Call_Histo2D _ _ m _ _ | Call_Histo2D_weighted _ _ _ m _ _ _ | Call_Histo2D_VW _ _ _ m
  | Call_Histo3D _ _ _ m _ _ _ | Call_Histo3D_weighted _ _ _ _ m _ _ _ _
  | Call_Histo3D_VW _ _ _ _ m
  | Call_Profile1D _ _ m _ _ | Call_Profile1D_weighted _ _ _ m _ _ _
  | Call_Profile1D_VW _ _ _ m
  | Call_Profile2D _ _ _ m _ _ _ | Call_Profile2D_weighted _ _ _ _ m _ _ _ _
  | Call_Profile2D_VW _ _ _ _ m
  | Call_Fill_typed _ _ m _ | Call_Fill m _ => Some m
  | _ => None
  end.

(** A world whose tree has the columns [v] and [w] and whose default list is
    [x], [y]. *)
Definition histogram_world : World :=
  make_world false
    (make_tree [("v", int_column); ("w", int_column); ("x", int_column); ("y", int_column)] 3)
    ["x"; "y"].

(** A slot callable that appends the values it is given to the user's
    memory, and a tree with the column [x] = 0, 1, 2. *)
Definition collect : SlotCallable :=
  UserSlotFn [t_uint; t_int] (fun _ vs mem => mem ++ vs).
Definition counting_world : World := make_world false (make_tree [("x", int_column)] 3) [].

(** ** The rows that reach a node *)

(** The verdict of one gate on a row, when the gate is a filter; a node that
    defines a column lets every row through. *)
Definition gate (nodes : list Node) (env : Env) (id : nat) : bool :=
  match nKind <$> nodes !! id with
  | Some (FilterNode f bl _) => fcall f (values env bl)
  | _ => true
  end.

(** The filter chain above a node: every filter on the path from the source
    to the node accepts the row. *)
Definition passes (e : TDataFrameImpl) (node : nat) (env : Env) : bool :=
  forallb (gate (fNodes e) env) (path (fNodes e) node).

Definition is_range (nodes : list Node) (id : nat) : bool :=
  match nKind <$> nodes !! id with
  | Some (RangeNode _ _ _) => true
  | _ => false
  end.

(** The path from the source to the node goes through filters and derived
    columns only. *)
Definition filters_only (e : TDataFrameImpl) (node : nat) : bool :=
  forallb (fun id => negb (is_range (fNodes e) id)) (path (fNodes e) node).

(** The rows of the source that the filter chain above [node] admits, in
    ascending order. *)
Definition passing_rows (e : TDataFrameImpl) (tree : TTree) (node : nat) : list nat :=
  List.filter (fun r => passes e node (row_env e tree r)) (seq 0 (GetEntries tree)).

(** The tuple of the columns [cols] at row [r]. *)
Definition tuple (e : TDataFrameImpl) (tree : TTree) (cols : BranchNames_t) (r : nat)
  : list value :=
  values (row_env e tree r) cols.


Definition is_foreach (a : Action) : bool :=
  match aOp a with
  | ForeachSlotOperation _ => true
  | _ => false
  end.

(** The source is not read from the file [filename]. *)
Definition read_elsewhere (src : TreeSource) (filename : string) : bool :=
  match src with
  | InMemory _ => true
  | TChain _ f => negb (String.eqb f filename)
  end.

(** A verdict cache that agrees with the filters. *)
Definition cache_ok (nodes : list Node) (env : Env) (cache : list (nat * bool)) : Prop :=
  forall id b, cache_find id cache = Some b ->
               is_range nodes id = false -> b = gate nodes env id.

(** The tree [fillTree] has written after the rows [adm] were fed to it. *)
Definition written (e : TDataFrameImpl) (tree : TTree) (bnames : BranchNames_t)
    (adm : list nat) : TTree :=
  match adm with
  | [] => new_TTree
  | _ => {| fBranches := combine bnames (map (pair 0%N) bnames);
            fEntries := map (tuple e tree bnames) adm |}
  end.

(** The world of scenario S6: ten rows, [x] = r and [y] = 2r, and the filter
    [x < 5]. *)
Definition double_column (r : nat) : value := VInt (2 * Z.of_nat r).
Definition snapshot_world : World :=
  make_world false (make_tree [("x", int_column); ("y", double_column)] 10) [].
Definition below_5 : Fn bool :=
  {| Args_t := [t_int];
     fcall := fun vs => match vs with [VInt z] => (z <? 5)%Z | _ => false end |}.

(** The memory of [fillTree] after the rows [adm] were fed to it: the flag is
    down and the branches are bound as soon as one row has come. *)
Definition filled (e : TDataFrameImpl) (tree : TTree) (bnames : BranchNames_t)
    (u : UserMem) (adm : list nat) : Ambient :=
  {| firstEvt := match adm with [] => true | _ => false end;
     t := written e tree bnames adm;
     user := u |}.

(** The action [SnapshotImpl] books through [Foreach]. *)
Definition snapshot_action (Args : list ctype) (bnames : BranchNames_t) (node : nat)
  : Action :=
  {| aOp := ForeachSlotOperation (AddSlotParameter (fillTree Args bnames));
     aTypes := Args; aBl := bnames; aPrev := node |}.

(** The world of S6 after [Filter(x < 5)], and the handle of the filter. *)
Definition filtered_world : World := snd (TDF.Filter below_5 ["x"] "" root snapshot_world).
Definition filtered : TDataFrameInterface := {| fProxiedPtr := 1; fImplWeakPtr := 0 |}.

(** Two rows, [x] = -1.0 and -2.0, read with no filter. *)
Definition negative_world : World := make_world false (make_tree [("x", negative_column)] 2) [].

(** Every node but the source has its parent before it. *)
Definition parents_first (nodes : list Node) : Prop :=
  forall id nd, nodes !! id = Some nd -> id <> 0 -> fPrevData nd < id.

(** ** What a run leaves in the result objects *)

(** The result object an operation fills. *)
Definition result_object (op : Operation) : option nat :=
  match op with
  | ForeachSlotOperation _ => None
  | ReduceOperation _ r _ | CountOperation r _ | TakeOperation r _
  | FillTOOperation r _ | FillOperation r _ | MinOperation r _ | MaxOperation r _
  | MeanOperation r _ => Some r
  end.

Definition result_objects (acts : list Action) : list nat :=
  flat_map (fun a => match result_object (aOp a) with Some r => [r] | None => [] end) acts.

Fixpoint distinct (l : list nat) : bool :=
  match l with
  | [] => true
  | x :: rest => negb (existsb (Nat.eqb x) rest) && distinct rest
  end.

(** Every action has a result object of its own, and the heap holds it. *)
Definition results_apart (acts : list Action) (h : list Cell) : bool :=
  distinct (result_objects acts) && forallb (fun r => Nat.ltb r (length h)) (result_objects acts).

(** The partial result an operation starts from, [old] being what its
    result object holds; and what [Finalize] stores of a partial result. *)
Definition started (op : Operation) (old : value) : value :=
  match op with
  | ForeachSlotOperation _ => VVoid
  | CountOperation _ _ => VUInt 0
  | MeanOperation _ _ => VVec [VDouble double_zero; VUInt 0]
  | _ => old
  end.
Definition finished (op : Operation) (p old : value) : value :=
  match op with
  | ForeachSlotOperation _ => old
  | MeanOperation _ _ =>
      match p with
      | VVec [VDouble s; VUInt n] => VDouble (SFdiv prec emax s (double_of_Z (Z.of_N n)))
      | _ => old
      end
  | _ => p
  end.

(** What the specification says a result object holds after a run
    (properties 3 to 5 of its section 8), [seed] being what the object held
    before and [vss] the values of the columns of the action at the rows
    that reach it, in order: the number of rows for [Count]; the values
    behind those of the seed for [Take]; the fold of the function from the
    seed for [Reduce]; the least and the greatest of the seed and the values
    for [Min] and [Max]; the sum over the count for [Mean]; the model filled
    with the rows for the histograms. *)
Definition result_over (op : Operation) (seed : value) (vss : list (list value)) : value :=
  let vs := map (hd VVoid) vss in
  match op with
  | ForeachSlotOperation _ => seed
  | CountOperation _ _ => VUInt (N.of_nat (length vss))
  | TakeOperation _ _ => match seed with VVec l => VVec (l ++ vs) | _ => seed end
  | ReduceOperation f _ _ => fold_left f vs seed
  | MinOperation _ _ =>
      fold_left (fun m v => VDouble (std_min (to_double v) (to_double m))) vs seed
  | MaxOperation _ _ =>
      fold_left (fun m v => VDouble (std_max (to_double v) (to_double m))) vs seed
  | MeanOperation _ _ =>
      VDouble (SFdiv prec emax
                 (fold_left (fun s v => SFadd prec emax s (to_double v)) vs double_zero)
                 (double_of_Z (Z.of_nat (length vss))))
  | FillTOOperation _ _ | FillOperation _ _ =>
      match seed with
      | VHisto h => VHisto (fold_left AggFill (map (map to_double) vss) h)
      | _ => seed
      end
  end.


(** The memory of the callables after the slot callable [f] has been called
    on the columns [bl] of each of the rows [rows], in order, by slot 0. *)
Definition called_on (e : TDataFrameImpl) (tree : TTree) (f : SlotCallable)
    (bl : BranchNames_t) (rows : list nat) (amb : Ambient) : Ambient :=
  fold_left (fun m r => invoke_slot f 0 (map (pair 0%N) bl)
                          (slot_storage 0 (row_env e tree r)) m) rows amb.

(** The first [stop] of the rows, or all of them when [stop] is 0. *)
Definition first_rows (stop : N) (rows : list nat) : list nat :=
  if (stop =? 0)%N then rows else take (N.to_nat stop) rows.

(** ** The version macros of [base/inc/RVersion.h]

    [ROOT_VERSION(a,b,c)] is [(((a) << 16) + ((b) << 8) + (c))]. The macro is
    meant for [#if ROOT_VERSION_CODE >= ROOT_VERSION(2,23,4)]. The macro is
    [int] arithmetic; the definition below is the same arithmetic on
    integers without bound, and is the macro as long as nothing overflows:
    for a major number below 2^15 and minor and patch numbers below 2^8,
    which is the range every statement about it is made for. *)

Definition ROOT_RELEASE : string := "5.04/00".
Definition ROOT_RELEASE_DATE : string := "Sep 20 2005".
Definition ROOT_RELEASE_TIME : string := "08:43:35".
Definition ROOT_VERSION_CODE : Z := 328704.
Definition ROOT_VERSION (a b c : Z) : Z := Z.shiftl a 16 + Z.shiftl b 8 + c.

(** Versions in the order of their release: major, then minor, then patch. *)
Definition version_before (v v' : Z * Z * Z) : Prop :=
  let '(a, b, c) := v in
  let '(a', b', c') := v' in
  (a < a' \/ (a = a' /\ (b < b' \/ (b = b' /\ c < c'))))%Z.

(** ** What a call may change

    Relations between the world before a call and the world after it,
    whether the call returns or throws. *)

Definition always {A} (R : World -> World -> Prop) (m : M A) : Prop :=
  forall w, R w (snd (m w)).

(** The relations that can be followed along a method: those that hold of a
    world and itself and that compose. *)
Class Frame (R : World -> World -> Prop) := {
  frame_refl : forall w, R w w;
  frame_trans : forall w1 w2 w3, R w1 w2 -> R w2 w3 -> R w1 w3
}.

(** The engine [e'] is [e] with more in it: the same source, default list
    and slot count; every node of [e] still there, of the same kind and with
    the same parent, with as many children or more; no derived column
    forgotten. *)
Definition engine_extends (e e' : TDataFrameImpl) : Prop :=
  fTree e' = fTree e /\ fDefaultBranches e' = fDefaultBranches e /\ fNSlots e' = fNSlots e
  /\ fBookedBranches e `prefix_of` fBookedBranches e'
  /\ forall id nd, fNodes e !! id = Some nd ->
       exists nd', fNodes e' !! id = Some nd' /\ nKind nd' = nKind nd
                   /\ fPrevData nd' = fPrevData nd /\ (fNChildren nd <= fNChildren nd')%N.

(** Every engine that is alive stays alive and is extended. *)
Definition graph_grows (w w' : World) : Prop :=
  fgImplicitMT w' = fgImplicitMT w /\ fgPoolSize w' = fgPoolSize w
  /\ forall df e, lock w df = Some e ->
       exists e', lock w' df = Some e' /\ engine_extends e e'.

(** The engine [e'] has run no more than [e]: what was pending is still
    pending, in the same order, before whatever has been booked since. *)
Definition still_pending (e e' : TDataFrameImpl) : Prop :=
  fHasRunAtLeastOnce e' = fHasRunAtLeastOnce e
  /\ fBookedActions e `prefix_of` fBookedActions e'
  /\ fResProxyReadiness e `prefix_of` fResProxyReadiness e'
  /\ fCounters e `prefix_of` fCounters e'.

(** Nothing has run between [w] and [w']: the files, the memory of the
    callables and the output are the same, the result objects of [w] are as
    they were, the result objects made since are not ready, and every engine
    still has its actions pending. *)
Definition nothing_ran (w w' : World) : Prop :=
  files w' = files w /\ ambient w' = ambient w /\ stdout w' = stdout w
  /\ heap w `prefix_of` heap w'
  /\ (forall r, length (heap w) <= r -> cell_ready (heap w') r = false)
  /\ forall df e, lock w df = Some e ->
       exists e', lock w' df = Some e' /\ still_pending e e'.

(** The calls that run the event loop: the instant actions, [Snapshot]
    (through [Foreach]) and [Report]. *)
Definition runs_loop (c : Call) : bool :=
  match c with
  | Call_Foreach _ _ | Call_ForeachSlot _ _ | Call_Snapshot_typed _ _ _ _
  | Call_Snapshot _ _ _ | Call_Report => true
  | _ => false
  end.

Definition is_Snapshot (c : Call) : bool :=
  match c with
  | Call_Snapshot_typed _ _ _ _ | Call_Snapshot _ _ _ => true
  | _ => false
  end.

(** A computation that leaves the world as it is when it throws. *)
Definition atomic {A} (m : M A) : Prop :=
  forall w k w', m w = (Throw k, w') -> w' = w.

Definition alive (w : World) (df : nat) : Prop := exists e, lock w df = Some e.

(** A computation that, on a world in which engine [df] is alive, throws
    only with the world as it was. *)
Definition atomic_alive {A} (df : nat) (m : M A) : Prop :=
  forall w, alive w df -> forall k w', m w = (Throw k, w') -> w' = w.

(** A computation that returns whenever engine [df] is alive, and leaves
    it alive. *)
Definition safe {A} (df : nat) (m : M A) : Prop :=
  forall w, alive w df -> exists a w', m w = (Ok a, w') /\ alive w' df.

(** A computation that leaves the world as it is, whatever it returns. *)
Definition changes_nothing {A} (m : M A) : Prop := forall w, snd (m w) = w.

(** What booking a lazy action comes to: one new result object, not ready,
    behind the result objects there were; one action [a] on the node
    [this], last in the list of the engine, which is told of the handle; one
    more child for the node. Nothing else changes. *)
Definition books_result (this : TDataFrameInterface) (p : TActionResultProxy)
    (a : Action) (w w' : World) : Prop :=
  exists e v,
    lock w (fImplWeakPtr this) = Some e
    /\ p = {| fObjPtr := length (heap w); fImplWeakPtrOfResult := fImplWeakPtr this |}
    /\ aPrev a = fProxiedPtr this
    /\ w' = put_engine (fImplWeakPtr this) (with_action a (length (heap w)) e)
              (set_heap (heap w ++ [{| cValue := v; cReady := false |}]) w).

(** The one-dimensional histograms, with their model. *)
Definition Histo1D_model (c : Call) : option Aggregator :=
  match c with
  | Call_Histo1D _ m _ | Call_Histo1D_weighted _ _ m _ _ | Call_Histo1D_VW _ _ m => Some m
  | Call_Histo1D_name _ _ | Call_Histo1D_weighted_names _ _ _ _ => Some default_TH1F
  | _ => None
  end.

(** The derived column a node registers with the engine, if it defines one. *)
Definition registers (nd : Node) (id : nat) : list (string * nat) :=
  match nKind nd with
  | BranchNode name _ _ => [(name, id)]
  | _ => []
  end.

(** What a transformation comes to: one new node [nd], last in the graph,
    whose parent is the node [this] and which has no child; one more child
    for [this]; the derived column of the node, if any, registered under its
    name; a handle [h] on the new node, for the same engine. Nothing else
    changes. *)
Definition appends_node (this h : TDataFrameInterface) (nd : Node) (w w' : World) : Prop :=
  exists e,
    lock w (fImplWeakPtr this) = Some e
    /\ h = {| fProxiedPtr := length (fNodes e); fImplWeakPtr := fImplWeakPtr this |}
    /\ fPrevData nd = fProxiedPtr this /\ fNChildren nd = 0%N
    /\ w' = put_engine (fImplWeakPtr this)
              (set_branches (fBookedBranches e ++ registers nd (length (fNodes e)))
                 (set_nodes
                    (alter IncrChildrenCount_node (fProxiedPtr this) (fNodes e) ++ [nd])
                    (fCounters e ++ [zero_counter]) e)) w.

(** The columns a string expression may refer to at node [node]: the
    branches of the tree and the derived columns defined above the node, as
    [GetTmpBranches] lists them. *)
Definition visible_columns (w : World) (e : TDataFrameImpl) (node : nat) : list string :=
  GetListOfBranches (resolve (fTree e) (files w))
  ++ flat_map (fun id => match nKind <$> fNodes e !! id with
                         | Some (BranchNode name _ _) => [name]
                         | _ => []
                         end) (path (fNodes e) node).

(** The node a transformation called on [this] makes, [e] being the engine
    in the world [w] of the call: a filter or a derived column with the
    callable and the name given (or the callable the expression compiles to)
    on the columns [PickBranchNames] picks for it among those given and the
    default columns of the engine; a range with the bounds given. *)
Definition node_of (c : Call) (this : TDataFrameInterface) (w : World) (e : TDataFrameImpl)
    (k : NodeKind) : Prop :=
  match c, k with
  | Call_Filter f bn name, FilterNode f' bl name' =>
      f' = f /\ name' = name
      /\ PickBranchNames (fgSize f) bn (fDefaultBranches e) w = (Ok bl, w)
  | Call_Filter_name f name, FilterNode f' bl name' =>
      f' = f /\ name' = name
      /\ PickBranchNames (fgSize f) [] (fDefaultBranches e) w = (Ok bl, w)
  | Call_Filter_expression expression name, FilterNode f bl name' =>
      name' = name
      /\ exists bn,
           compile_filter (gInterpreter w) expression
             (visible_columns w e (fProxiedPtr this)) = Some (f, bn)
           /\ PickBranchNames (fgSize f) bn (fDefaultBranches e) w = (Ok bl, w)
  | Call_Define name expression bn, BranchNode name' expression' bl =>
      name' = name /\ expression' = expression
      /\ PickBranchNames (fgSize expression) bn (fDefaultBranches e) w = (Ok bl, w)
  | Call_Define_expression name expression, BranchNode name' f bl =>
      name' = name
      /\ exists bn,
           compile_define (gInterpreter w) expression
             (visible_columns w e (fProxiedPtr this)) = Some (f, bn)
           /\ PickBranchNames (fgSize f) bn (fDefaultBranches e) w = (Ok bl, w)
  | Call_Range start stop stride, RangeNode start' stop' stride' =>
      start' = start /\ stop' = stop /\ stride' = stride
  | Call_Range_stop stop, RangeNode start' stop' stride' =>
      start' = 0%N /\ stop' = stop /\ stride' = 1%N
  | _, _ => False
  end.

(** ** Graphs that are well formed

    The graph of an engine is a tree rooted at the source: it has a node,
    every node but the source has its parent before it, every node has its
    counters, every pending action hangs from a node of the graph, and every
    derived column the engine knows by name is defined by a node of the
    graph. *)
Definition well_formed_engine (e : TDataFrameImpl) : Prop :=
  parents_first (fNodes e)
  /\ 0 < length (fNodes e)
  /\ length (fCounters e) = length (fNodes e)
  /\ (forall a, In a (fBookedActions e) -> aPrev a < length (fNodes e))
  /\ (forall name id, In (name, id) (fBookedBranches e) ->
        exists nd expression bl,
          fNodes e !! id = Some nd /\ nKind nd = BranchNode name expression bl).

Definition well_formed (w : World) : Prop :=
  forall df e, lock w df = Some e -> well_formed_engine e.

(** A handle on a node of a live engine. *)
Definition valid (w : World) (h : TDataFrameInterface) : Prop :=
  exists e, lock w (fImplWeakPtr h) = Some e /\ fProxiedPtr h < length (fNodes e).

Definition keeps_well_formed (this : TDataFrameInterface) (w w' : World) : Prop :=
  well_formed w /\ valid w this -> well_formed w' /\ valid w' this.

(** The verdict of a node of the given kind on a row: the predicate of a
    filter on the values of its columns; any other node lets the row
    through the filter chain. *)
Definition verdict (k : NodeKind) (env : Env) : bool :=
  match k with
  | FilterNode f bl _ => fcall f (values env bl)
  | _ => true
  end.

(** Every engine but the one of [this] is exactly as it was. *)
Definition others_untouched (this : TDataFrameInterface) (w w' : World) : Prop :=
  forall df e, df <> fImplWeakPtr this -> lock w df = Some e -> lock w' df = Some e.

(** ** What hangs from a node

    The nodes of [nodes] numbered from [j] on whose parent is [id]; the
    source, node 0, is its own parent and does not hang from itself. *)
Fixpoint hanging_nodes (nodes : list Node) (j id : nat) : nat :=
  match nodes with
  | [] => 0
  | nd :: rest =>
      (if negb (Nat.eqb j 0) && Nat.eqb (fPrevData nd) id then 1 else 0)
      + hanging_nodes rest (S j) id
  end.

(** The nodes and the pending actions that hang from node [id]. *)
Definition hanging (e : TDataFrameImpl) (id : nat) : N :=
  N.of_nat (hanging_nodes (fNodes e) 0 id
            + length (List.filter (fun a => Nat.eqb (aPrev a) id) (fBookedActions e))).

(** The children count of a node is never below what hangs from it, and is
    exactly that as long as the engine has not run. *)
Definition counts_right (e : TDataFrameImpl) : Prop :=
  forall id nd, fNodes e !! id = Some nd ->
    (hanging e id <= fNChildren nd)%N
    /\ (fHasRunAtLeastOnce e = false -> fNChildren nd = hanging e id).

Definition counted (w : World) : Prop :=
  forall df e, lock w df = Some e -> counts_right e.

Definition keeps_counted (this : TDataFrameInterface) (w w' : World) : Prop :=
  well_formed w /\ valid w this /\ counted w ->
  well_formed w' /\ valid w' this /\ counted w'.

(** A filter that rejects every row, and the world of S6 after it. *)
Definition reject_all : Fn bool := {| Args_t := [t_int]; fcall := fun _ => false |}.
Definition emptied_world : World := snd (TDF.Filter reject_all ["x"] "" root snapshot_world).


(** * Properties *)

(** ** Running the monad on a live engine *)

Lemma lock_Some w df e : lock w df = Some e -> engines w !! df = Some (Some e).
Proof.
  unfold lock. destruct (engines w !! df) as [[e'|]|]; congruence.
Qed.

Lemma lock_put_engine_eq w df e e' :
  lock w df = Some e -> lock (put_engine df e' w) df = Some e'.
Proof.
  intros H. apply lock_Some in H. unfold lock, put_engine. cbn.
  rewrite list_lookup_insert_eq; [reflexivity|]. eapply lookup_lt_Some; eauto.
Qed.

Lemma lock_put_engine_ne w df df' e' :
  df <> df' -> lock (put_engine df e' w) df' = lock w df'.
Proof.
  intros H. unfold lock, put_engine. cbn. now rewrite list_lookup_insert_ne.
Qed.

Lemma put_engine_twice w df e1 e2 :
  put_engine df e2 (put_engine df e1 w) = put_engine df e2 w.
Proof.
  unfold put_engine, set_engines. cbn. now rewrite list_insert_insert_eq.
Qed.

Lemma bind_assoc {A B C} (m : M A) (k1 : A -> M B) (k2 : B -> M C) w :
  bind (bind m k1) k2 w = bind m (fun a => bind (k1 a) k2) w.
Proof.
  unfold bind. destruct (m w) as [[a|e] w']; [|reflexivity].
  destruct (k1 a w') as [[b|e] w'']; reflexivity.
Qed.

Lemma bind_GetDataFrameChecked {B} this (k : nat -> M B) w e :
  lock w (fImplWeakPtr this) = Some e ->
  bind (TDF.GetDataFrameChecked this) k w = k (fImplWeakPtr this) w.
Proof. intros H. unfold bind, TDF.GetDataFrameChecked. now rewrite H. Qed.

Lemma bind_impl {A B} df (f : TDataFrameImpl -> A) (k : A -> M B) w e :
  lock w df = Some e -> bind (impl df f) k w = k (f e) w.
Proof. intros H. unfold bind, impl. now rewrite H. Qed.

Lemma bind_update {B} df f (k : unit -> M B) w e :
  lock w df = Some e -> bind (update df f) k w = k tt (put_engine df (f e) w).
Proof. intros H. unfold bind, update. now rewrite H. Qed.

Lemma bind_GetTree {B} df (k : TTree -> M B) w e :
  lock w df = Some e -> bind (GetTree df) k w = k (resolve (fTree e) (files w)) w.
Proof. intros H. unfold bind, GetTree. now rewrite H. Qed.

Lemma bind_released {B} this (k : nat -> M B) w :
  lock w (fImplWeakPtr this) = None ->
  bind (TDF.GetDataFrameChecked this) k w = (Throw EngineGone, w).
Proof. intros H. unfold bind, TDF.GetDataFrameChecked. now rewrite H. Qed.

Lemma bind_make_shared {B} v (k : nat -> M B) w :
  bind (make_shared v) k w
  = k (length (heap w)) (set_heap (heap w ++ [{| cValue := v; cReady := false |}]) w).
Proof. reflexivity. Qed.

Lemma bind_ret {A B} (a : A) (k : A -> M B) w : bind (ret a) k w = k a w.
Proof. reflexivity. Qed.

Lemma bind_throw {A B} e (k : A -> M B) w : bind (throw e) k w = (Throw e, w).
Proof. reflexivity. Qed.

Lemma bind_Ok {A B} (m : M A) (k : A -> M B) w a w' :
  m w = (Ok a, w') -> bind m k w = k a w'.
Proof. intros H. unfold bind. now rewrite H. Qed.

Lemma bind_Throw {A B} (m : M A) (k : A -> M B) w e w' :
  m w = (Throw e, w') -> bind m k w = (Throw e, w').
Proof. intros H. unfold bind. now rewrite H. Qed.

Lemma lock_set_heap w df h e : lock w df = Some e -> lock (set_heap h w) df = Some e.
Proof. exact id. Qed.
Lemma lock_set_ambient w df a e : lock w df = Some e -> lock (set_ambient a w) df = Some e.
Proof. exact id. Qed.
Lemma lock_set_files w df fs e : lock w df = Some e -> lock (set_files fs w) df = Some e.
Proof. exact id. Qed.
Create HintDb tdf.
#[local] Hint Resolve lock_put_engine_eq lock_set_heap lock_set_ambient lock_set_files : tdf.

(** One step of a method on a live engine. *)
Ltac tdf_step :=
  first
    [ rewrite bind_assoc
    | erewrite bind_GetDataFrameChecked by eauto with tdf
    | erewrite bind_impl by eauto with tdf
    | erewrite bind_GetTree by eauto with tdf
    | erewrite bind_update by eauto with tdf
    | rewrite bind_make_shared
    | rewrite bind_ret
    | rewrite bind_throw
    | rewrite put_engine_twice ].

(** ** Range *)

Lemma Range_outcome start stop stride this w :
  TDF.Range start stop stride this w =
  if (stride =? 0)%N || (negb (stop =? 0)%N && (stop <? start)%N)
  then (Throw InvalidArgument, w)
  else if fgImplicitMT w then (Throw Unsupported, w)
  else match lock w (fImplWeakPtr this) with
       | None => (Throw EngineGone, w)
       | Some e =>
           (Ok {| fProxiedPtr := length (fNodes e); fImplWeakPtr := fImplWeakPtr this |},
            put_engine (fImplWeakPtr this)
              (set_nodes
                 (alter IncrChildrenCount_node (fProxiedPtr this) (fNodes e)
                  ++ [{| nKind := RangeNode start stop stride;
                         fPrevData := fProxiedPtr this; fNChildren := 0 |}])
                 (fCounters e ++ [zero_counter]) e) w)
       end.
Proof.
  unfold TDF.Range.
  destruct ((stride =? 0)%N || (negb (stop =? 0)%N && (stop <? start)%N)); [reflexivity|].
  unfold IsImplicitMTEnabled, bind at 1.
  destruct (fgImplicitMT w); [reflexivity|].
  destruct (lock w (fImplWeakPtr this)) as [e|] eqn:Hlock.
  - unfold IncrChildrenCount, Book. repeat tdf_step.
    cbn. rewrite length_alter. reflexivity.
  - now rewrite bind_released.
Qed.

(** C3, as stated, fails: with implicit multi-threading enabled and a zero
    stride the call raises [InvalidArgument], not [Unsupported]; and with
    valid arguments in sequential mode a handle whose engine is gone raises
    [EngineGone] and appends nothing. *)
Lemma Range_claim_counterexample :
  (fgImplicitMT (make_world true (make_tree [] 0) []) = true
   /\ TDF.Range 0 0 0 root (make_world true (make_tree [] 0) [])
      = (Throw InvalidArgument, make_world true (make_tree [] 0) []))
  /\ (fgImplicitMT (released_world false) = false
      /\ TDF.Range 0 0 1 root (released_world false)
         = (Throw EngineGone, released_world false)).
Proof. repeat split. Qed.

(** C3, amended: [Range(start, stop, stride)] makes its checks in order. It
    raises [InvalidArgument] if and only if [stride == 0] or
    [stop != 0 && stop < start]; otherwise it raises [Unsupported] if and
    only if implicit multi-threading is enabled; otherwise it raises
    [EngineGone] if and only if the engine has been released; a failing
    call leaves the world as it was; in the remaining case it returns a
    handle to a new Range node, the graph gains exactly that node and the
    node called on gains one child. *)
Theorem Range_checks_in_order (start stop stride : N) this w :
  let invalid := (stride = 0 \/ (stop <> 0 /\ stop < start))%N in
  let outcome := TDF.Range start stop stride this w in
  (fst outcome = Throw InvalidArgument <-> invalid)
  /\ (fst outcome = Throw Unsupported <-> ~ invalid /\ fgImplicitMT w = true)
  /\ (fst outcome = Throw EngineGone <->
      ~ invalid /\ fgImplicitMT w = false /\ lock w (fImplWeakPtr this) = None)
  /\ (forall k, fst outcome = Throw k -> snd outcome = w)
  /\ (forall e, ~ invalid -> fgImplicitMT w = false ->
      lock w (fImplWeakPtr this) = Some e ->
      outcome =
      (Ok {| fProxiedPtr := length (fNodes e); fImplWeakPtr := fImplWeakPtr this |},
       put_engine (fImplWeakPtr this)
         (set_nodes
            (alter IncrChildrenCount_node (fProxiedPtr this) (fNodes e)
             ++ [{| nKind := RangeNode start stop stride;
                    fPrevData := fProxiedPtr this; fNChildren := 0 |}])
            (fCounters e ++ [zero_counter]) e) w)).
Proof.
  intros invalid outcome. subst outcome. rewrite Range_outcome.
  assert (Hinv : ((stride =? 0)%N || (negb (stop =? 0)%N && (stop <? start)%N)) = true
                 <-> invalid).
  { unfold invalid. rewrite orb_true_iff, andb_true_iff, negb_true_iff.
    rewrite N.eqb_eq, N.eqb_neq, N.ltb_lt. reflexivity. }
  destruct ((stride =? 0)%N || (negb (stop =? 0)%N && (stop <? start)%N)) eqn:Hc.
  - assert (invalid) by now apply Hinv. cbn.
    intuition (congruence || discriminate).
  - assert (~ invalid) by (intros Hi; apply Hinv in Hi; congruence).
    destruct (fgImplicitMT w) eqn:Hmt; cbn.
    + intuition (congruence || discriminate).
    + destruct (lock w (fImplWeakPtr this)) as [e|] eqn:Hlock; cbn;
        intuition (congruence || discriminate).
Qed.

(** ** The gate of a range *)

Lemma RangeAdmit_0_stop_1 stop seen :
  RangeAdmit 0 stop 1 seen = ((stop =? 0)%N || (seen <? stop)%N).
Proof.
  unfold RangeAdmit. rewrite N.mod_1_r.
  replace (0 <=? seen)%N with true by (symmetry; apply N.leb_le; lia).
  cbn. now rewrite andb_true_r.
Qed.

Lemma range_gate_unbounded seen rows : range_gate 0 0 1 seen rows = rows.
Proof.
  revert seen. induction rows as [|r rows IH]; intros seen; [reflexivity|].
  cbn [range_gate]. rewrite RangeAdmit_0_stop_1, IH. reflexivity.
Qed.

Lemma range_gate_first stop seen rows :
  stop <> 0%N ->
  range_gate 0 stop 1 seen rows = take (N.to_nat (stop - seen)) rows.
Proof.
  intros Hs. revert seen. induction rows as [|r rows IH]; intros seen.
  - now rewrite take_nil.
  - cbn [range_gate]. rewrite RangeAdmit_0_stop_1, IH.
    destruct (N.eqb_spec stop 0) as [|_]; [contradiction|]. cbn [orb].
    destruct (N.ltb_spec seen stop) as [Hlt|Hge].
    + replace (N.to_nat (stop - seen)) with (S (N.to_nat (stop - (seen + 1)))) by lia.
      reflexivity.
    + replace (N.to_nat (stop - seen)) with 0 by lia.
      replace (N.to_nat (stop - (seen + 1))) with 0 by lia.
      reflexivity.
Qed.

(** At a range node that has no verdict yet for the row, the gate evaluation
    of the event loop is [RangeAdmit] on the entries seen, which it then
    advances. *)
Lemma CheckFilters_range nodes id nd start stop stride env cache cnt :
  nodes !! id = Some nd -> nKind nd = RangeNode start stop stride ->
  cache_find id cache = None ->
  CheckFilters nodes [id] env cache cnt =
  (RangeAdmit start stop stride (seen_of cnt id),
   (id, RangeAdmit start stop stride (seen_of cnt id)) :: cache,
   alter count_seen id cnt).
Proof.
  intros Hn Hk Hc. cbn. rewrite Hn. cbn. rewrite Hk, Hc.
  destruct (RangeAdmit start stop stride (seen_of cnt id)); reflexivity.
Qed.

(** ** Column names *)

Lemma GetDefaultBranchNames_alive n msg this w e :
  lock w (fImplWeakPtr this) = Some e ->
  TDF.GetDefaultBranchNames n msg this w =
  (if (N.of_nat (length (fDefaultBranches e)) <? n)%N then Throw MissingColumnSpec
   else Ok (take (N.to_nat n) (fDefaultBranches e)), w).
Proof.
  intros H. unfold TDF.GetDefaultBranchNames, GetDefaultBranches. repeat tdf_step.
  destruct (N.of_nat (length (fDefaultBranches e)) <? n)%N; reflexivity.
Qed.

Lemma GetDefaultBranchNames_released n msg this w :
  lock w (fImplWeakPtr this) = None ->
  TDF.GetDefaultBranchNames n msg this w = (Throw EngineGone, w).
Proof. intros H. unfold TDF.GetDefaultBranchNames. now rewrite bind_released. Qed.

Lemma GetBranchNames_pure types bl msg this w :
  snd (TDF.GetBranchNames types bl msg this w) = w.
Proof.
  unfold TDF.GetBranchNames.
  destruct (uint (Z.of_nat (length types)) =? TDF.count_provided bl)%N; [reflexivity|].
  destruct (lock w (fImplWeakPtr this)) as [e|] eqn:H.
  - erewrite GetDefaultBranchNames_alive by eauto.
    destruct (N.of_nat (length (fDefaultBranches e)) <? _)%N; reflexivity.
  - now rewrite GetDefaultBranchNames_released.
Qed.

Lemma bind_GetBranchNames {B} types bl msg this (k : BranchNames_t -> M B) w :
  bind (TDF.GetBranchNames types bl msg this) k w =
  match fst (TDF.GetBranchNames types bl msg this w) with
  | Ok names => k names w
  | Throw e => (Throw e, w)
  end.
Proof.
  unfold bind. pose proof (GetBranchNames_pure types bl msg this w) as H.
  destruct (TDF.GetBranchNames types bl msg this w) as [[names|e] w']; cbn in *; now subst.
Qed.

Lemma cell_value_new h v :
  cell_value (h ++ [{| cValue := v; cReady := false |}]) (length h) = v.
Proof.
  unfold cell_value. now rewrite list_lookup_middle.
Qed.

Lemma cell_ready_new h v :
  cell_ready (h ++ [{| cValue := v; cReady := false |}]) (length h) = false.
Proof.
  unfold cell_ready. now rewrite list_lookup_middle.
Qed.

(** ** Reduce *)

(** The result object of [Reduce] with an initial value starts as that
    value, not yet ready. *)
Lemma Reduce_init_seed f T branchName initValue this w :
  match TDF.Reduce_init f T branchName initValue this w with
  | (Ok p, w') =>
      cell_value (heap w') (fObjPtr p) = initValue
      /\ cell_ready (heap w') (fObjPtr p) = false
  | (Throw _, _) => True
  end.
Proof.
  unfold TDF.Reduce_init.
  destruct (lock w (fImplWeakPtr this)) as [e|] eqn:Hlock.
  - unfold GetNSlots. do 2 tdf_step. rewrite bind_GetBranchNames.
    destruct (fst (TDF.GetBranchNames _ _ _ _ _)) as [names|k]; [|exact I].
    unfold BookAction, IncrChildrenCount, MakeActionResultProxy. repeat tdf_step.
    cbn. now rewrite cell_value_new, cell_ready_new.
  - now rewrite bind_released.
Qed.

(** C7: [Reduce(f, branchName)] is [Reduce(f, branchName, T())] for a
    default-constructible [T] (the class argument is the static assertion):
    the two calls have the same outcome in every world, so do the two calls
    followed by reading the result, and the reduction starts from [T()]. *)
Theorem Reduce_default_seed f (T : ctype) (d : DefaultConstructible T) branchName this w :
  TDF.Reduce f T branchName this w
  = TDF.Reduce_init f T branchName (T_default (T := T)) this w
  /\ (p <- TDF.Reduce f T branchName this ;; Get p) w
     = (p <- TDF.Reduce_init f T branchName (T_default (T := T)) this ;; Get p) w
  /\ match TDF.Reduce f T branchName this w with
     | (Ok p, w') => cell_value (heap w') (fObjPtr p) = T_default (T := T)
     | (Throw _, _) => True
     end.
Proof.
  split; [reflexivity|]. split; [reflexivity|].
  unfold TDF.Reduce.
  pose proof (Reduce_init_seed f T branchName (T_default (T := T)) this w) as H.
  destruct (TDF.Reduce_init f T branchName T_default this w) as [[p|k] w']; [|exact I].
  apply H.
Qed.

(** ** A released engine *)

Lemma GetBranchNames_released types bl msg this w :
  lock w (fImplWeakPtr this) = None ->
  fst (TDF.GetBranchNames types bl msg this w) = Ok bl
  \/ fst (TDF.GetBranchNames types bl msg this w) = Throw EngineGone.
Proof.
  intros H. unfold TDF.GetBranchNames.
  destruct (uint (Z.of_nat (length types)) =? TDF.count_provided bl)%N; [now left|].
  right. now rewrite GetDefaultBranchNames_released.
Qed.

Lemma CreateAction_released at_ types bl r this w :
  lock w (fImplWeakPtr this) = None ->
  TDF.CreateAction at_ types bl r this w = (Throw EngineGone, w).
Proof.
  intros H. unfold TDF.CreateAction.
  destruct (TNeedJitting types); now rewrite bind_released.
Qed.

Lemma named_action_released at_ types bl msg r this w :
  lock w (fImplWeakPtr this) = None ->
  bind (TDF.GetBranchNames types bl msg this)
       (fun names => TDF.CreateAction at_ types names r this) w
  = (Throw EngineGone, w).
Proof.
  intros H. rewrite bind_GetBranchNames.
  destruct (GetBranchNames_released types bl msg this w H) as [-> | ->];
    [now apply CreateAction_released | reflexivity].
Qed.

Lemma returns_result_Throw m w e w' :
  m w = (Throw e, w') -> returns_result m w = (Throw e, w').
Proof. intros H. unfold returns_result. now apply bind_Throw. Qed.

Lemma returns_node_Throw m w e w' :
  m w = (Throw e, w') -> returns_node m w = (Throw e, w').
Proof. intros H. unfold returns_node. now apply bind_Throw. Qed.

Lemma returns_void_Throw m w e w' :
  m w = (Throw e, w') -> returns_void m w = (Throw e, w').
Proof. intros H. unfold returns_void. now apply bind_Throw. Qed.

Lemma ForeachSlot_released f bl this w :
  lock w (fImplWeakPtr this) = None ->
  TDF.ForeachSlot f bl this w = (Throw EngineGone, w).
Proof. intros H. unfold TDF.ForeachSlot. now rewrite bind_released. Qed.

(** What a call on a released engine comes to: the error of its argument
    check if it has one that fails, [EngineGone] otherwise. *)
Lemma invoke_released c this w :
  lock w (fImplWeakPtr this) = None ->
  exists w',
    invoke c this w = (Throw (default EngineGone (argument_check c w)), w')
    /\ engines w' = engines w /\ heap w' = heap w /\ stdout w' = stdout w
    /\ user (ambient w') = user (ambient w).
Proof.
  intros H.
  destruct c; cbn [invoke argument_check];
    unfold TDF.Filter_name, TDF.Histo1D_name, TDF.Histo1D_weighted_names, TDF.Histo1D_VW,
      TDF.Histo2D_VW, TDF.Histo3D_VW, TDF.Profile1D_VW, TDF.Profile2D_VW, TDF.Reduce,
      TDF.Range_stop, TDF.Snapshot_typed, TDF.Foreach;
    try (eexists; split;
         [ first [ apply returns_result_Throw | apply returns_node_Throw
                 | apply returns_void_Throw ];
           first
             [ now apply named_action_released
             | now apply ForeachSlot_released
             | unfold TDF.Filter, TDF.Filter_expression, TDF.Define, TDF.Define_expression,
                 TDF.Snapshot, TDF.Reduce_init, TDF.Count, TDF.Take, TDF.Report;
               now rewrite bind_released ]
         | now repeat split ]).
  all: try (unfold TDF.Histo2D, TDF.Histo2D_weighted, TDF.Histo3D, TDF.Histo3D_weighted,
              TDF.Profile1D, TDF.Profile1D_weighted, TDF.Profile2D, TDF.Profile2D_weighted,
              TDF.Fill_typed, TDF.Fill;
            destruct (HasAxisLimits model); cbn [negb default];
            eexists; (split; [| now repeat split]);
            apply returns_result_Throw;
            first [ reflexivity | now apply named_action_released
                  | now apply CreateAction_released ]).
  - (* Snapshot with explicit types *)
    unfold TDF.SnapshotImpl.
    destruct (Nat.eqb (length BranchTypes) (length bnames)); cbn [negb default].
    + eexists. split.
      * apply returns_node_Throw. unfold TDF.Foreach, TDF.set_t.
        unfold bind at 1. unfold bind at 1. unfold bind at 1.
        rewrite ForeachSlot_released by exact H. reflexivity.
      * now repeat split.
    + eexists. split; [now apply returns_node_Throw | now repeat split].
  - (* Range *)
    exists w. split; [| now repeat split]. apply returns_node_Throw.
    rewrite Range_outcome, H.
    destruct ((stride =? 0)%N || (negb (stop =? 0)%N && (stop <? start)%N)); [reflexivity|].
    destruct (fgImplicitMT w); reflexivity.
  - (* Range(stop) *)
    exists w. split; [| now repeat split]. apply returns_node_Throw.
    rewrite Range_outcome, H.
    replace (stop <? 0)%N with false by (symmetry; apply N.ltb_ge; lia).
    rewrite andb_false_r. cbn.
    destruct (fgImplicitMT w); reflexivity.
Qed.

Lemma Get_released p w :
  lock w (fImplWeakPtrOfResult p) = None -> Get p w = (Throw EngineGone, w).
Proof. intros H. unfold Get. now rewrite H. Qed.

(** C8, as stated, fails: on a handle whose engine has been released,
    [Range(0, 0, 0)] raises [InvalidArgument], not [EngineGone]. *)
Lemma released_engine_counterexample :
  lock (released_world false) (fImplWeakPtr root) = None
  /\ invoke (Call_Range 0 0 0) root (released_world false)
     = (Throw InvalidArgument, released_world false).
Proof. split; reflexivity. Qed.

(** C8, amended: every call of the interface on a handle whose engine has
    been released fails, and the engines, their graphs and the result
    objects are left as they were (nothing is booked, nothing runs). The
    failure is [EngineGone], unless the method checks its arguments before
    it looks for the engine and that check fails: [Range] then raises
    [InvalidArgument] or [Unsupported], the histograms and profiles of two
    and more dimensions and [Fill] raise [Unsupported], the typed [Snapshot]
    raises [ArityMismatch]. Reading a lazy result whose engine has been
    released raises [EngineGone]. *)
Theorem released_engine_fails (c : Call) this w :
  lock w (fImplWeakPtr this) = None ->
  (exists w',
     invoke c this w = (Throw (default EngineGone (argument_check c w)), w')
     /\ engines w' = engines w /\ heap w' = heap w /\ stdout w' = stdout w
     /\ user (ambient w') = user (ambient w))
  /\ (forall p, fImplWeakPtrOfResult p = fImplWeakPtr this ->
                Get p w = (Throw EngineGone, w)).
Proof.
  intros H. split.
  - now apply invoke_released.
  - intros p Hp. apply Get_released. now rewrite Hp.
Qed.

Lemma released_engine_fails_witness :
  lock (released_world false) (fImplWeakPtr root) = None
  /\ (exists w',
        invoke Call_Count root (released_world false)
        = (Throw (default EngineGone (argument_check Call_Count (released_world false))), w')
        /\ engines w' = engines (released_world false)
        /\ heap w' = heap (released_world false)
        /\ stdout w' = stdout (released_world false)
        /\ user (ambient w') = user (ambient (released_world false)))
  /\ (forall p, fImplWeakPtrOfResult p = fImplWeakPtr root ->
                Get p (released_world false) = (Throw EngineGone, released_world false)).
Proof.
  split; [reflexivity|].
  apply (released_engine_fails Call_Count root (released_world false)). reflexivity.
Defined.

(** ** Children counts *)

Lemma same_children_refl w : same_children w w.
Proof. intros df id n H. exact H. Qed.

Lemma same_children_trans w1 w2 w3 :
  same_children w1 w2 -> same_children w2 w3 -> same_children w1 w3.
Proof. intros H1 H2 df id n H. apply H2, H1, H. Qed.

Lemma one_more_after_same this w1 w2 w3 :
  same_children w1 w2 -> one_more_child this w2 w3 -> one_more_child this w1 w3.
Proof. intros H1 H2 df id n H. apply H2, H1, H. Qed.

Lemma same_after_one_more this w1 w2 w3 :
  one_more_child this w1 w2 -> same_children w2 w3 -> one_more_child this w1 w3.
Proof. intros H1 H2 df id n H. apply H2, H1, H. Qed.

Lemma children_put_engine w df e e' df' id :
  lock w df = Some e ->
  children (put_engine df e' w) df' id
  = if Nat.eqb df' df then fNChildren <$> fNodes e' !! id else children w df' id.
Proof.
  intros H. unfold children. destruct (Nat.eqb_spec df' df) as [->|Hne].
  - now erewrite lock_put_engine_eq by eauto.
  - now rewrite lock_put_engine_ne by congruence.
Qed.

Lemma children_Some w df id n :
  children w df id = Some n ->
  exists e nd, lock w df = Some e /\ fNodes e !! id = Some nd /\ fNChildren nd = n.
Proof.
  unfold children. destruct (lock w df) as [e|]; [|discriminate].
  destruct (fNodes e !! id) as [nd|] eqn:Hn; cbn; [|discriminate].
  intros [= <-]. eauto.
Qed.

Lemma on_return_bind {A B} R (m : M A) (k : A -> M B) :
  (forall w1 w2 w3, same_children w1 w2 -> R w2 w3 -> R w1 w3) ->
  on_return same_children m -> (forall a, on_return R (k a)) ->
  on_return R (bind m k).
Proof.
  intros HR Hm Hk w b w' H. unfold bind in H.
  destruct (m w) as [[a|e] w1] eqn:Hmw; [|discriminate].
  eapply HR; [eapply Hm; eauto | eapply Hk; eauto].
Qed.

Lemma keep_then_keep {A B} (m : M A) (k : A -> M B) :
  on_return same_children m -> (forall a, on_return same_children (k a)) ->
  on_return same_children (bind m k).
Proof. apply on_return_bind. apply same_children_trans. Qed.

Lemma keep_then_grow {A B} this (m : M A) (k : A -> M B) :
  on_return same_children m -> (forall a, on_return (one_more_child this) (k a)) ->
  on_return (one_more_child this) (bind m k).
Proof. apply on_return_bind. apply one_more_after_same. Qed.

Lemma grow_then_keep {A B} this (m : M A) (k : A -> M B) :
  on_return (one_more_child this) m -> (forall a, on_return same_children (k a)) ->
  on_return (one_more_child this) (bind m k).
Proof.
  intros Hm Hk w b w' H. unfold bind in H.
  destruct (m w) as [[a|e] w1] eqn:Hmw; [|discriminate].
  eapply same_after_one_more; [eapply Hm; eauto | eapply Hk; eauto].
Qed.

Lemma checked_then {B} R this (k : nat -> M B) :
  on_return R (k (fImplWeakPtr this)) ->
  on_return R (bind (TDF.GetDataFrameChecked this) k).
Proof.
  intros Hk w b w' H. unfold bind, TDF.GetDataFrameChecked in H.
  destruct (lock w (fImplWeakPtr this)); [|discriminate]. eapply Hk; eauto.
Qed.

(** A computation that leaves the world as it is. *)
Lemma keep_pure {A} (m : M A) : (forall w, snd (m w) = w) -> on_return same_children m.
Proof.
  intros Hm w a w' H. specialize (Hm w). rewrite H in Hm. cbn in Hm. subst.
  apply same_children_refl.
Qed.

Lemma keep_ret {A} (a : A) : on_return same_children (ret a).
Proof. now apply keep_pure. Qed.
Lemma keep_throw {A} R e : on_return R (@throw A e).
Proof. intros w a w' H. discriminate H. Qed.
Lemma keep_impl {A} df (f : TDataFrameImpl -> A) : on_return same_children (impl df f).
Proof. apply keep_pure. intros w. unfold impl. now destruct (lock w df). Qed.
Lemma keep_GetTree df : on_return same_children (GetTree df).
Proof. apply keep_pure. intros w. unfold GetTree. now destruct (lock w df). Qed.
Lemma keep_checked this : on_return same_children (TDF.GetDataFrameChecked this).
Proof.
  apply keep_pure. intros w. unfold TDF.GetDataFrameChecked.
  now destruct (lock w (fImplWeakPtr this)).
Qed.
Lemma keep_PickBranchNames n bl defBl : on_return same_children (PickBranchNames n bl defBl).
Proof.
  apply keep_pure. intros w. unfold PickBranchNames.
  destruct (_ =? _)%N; [reflexivity|]. now destruct (_ && _).
Qed.
Lemma keep_CheckTmpBranch name tree : on_return same_children (CheckTmpBranch name tree).
Proof. apply keep_pure. intros w. unfold CheckTmpBranch. now destruct (existsb _ _). Qed.
Lemma ColumnName2ColumnTypeName_pure b tree booked w :
  snd (ColumnName2ColumnTypeName b tree booked w) = w.
Proof.
  unfold ColumnName2ColumnTypeName. destruct (existsb _ _); [reflexivity|].
  now destruct (existsb _ _).
Qed.
Lemma mapM_pure {A B} (f : A -> M B) l :
  (forall x w, snd (f x w) = w) -> forall w, snd (mapM f l w) = w.
Proof.
  intros Hf. induction l as [|x l IH]; intros w; [reflexivity|].
  cbn [mapM]. unfold bind at 1. specialize (Hf x w).
  destruct (f x w) as [[y|e] w1]; cbn in Hf; subst; [|reflexivity].
  unfold bind at 1. specialize (IH w).
  destruct (mapM f l w) as [[ys|e] w2]; cbn in IH; subst; reflexivity.
Qed.
Lemma keep_types bl tree booked :
  on_return same_children (mapM (fun b => ColumnName2ColumnTypeName b tree booked) bl).
Proof.
  apply keep_pure. apply mapM_pure. intros. apply ColumnName2ColumnTypeName_pure.
Qed.
Lemma keep_GetBranchNames types bl msg this :
  on_return same_children (TDF.GetBranchNames types bl msg this).
Proof. apply keep_pure. intros w. apply GetBranchNames_pure. Qed.
Lemma keep_IsImplicitMTEnabled : on_return same_children IsImplicitMTEnabled.
Proof. now apply keep_pure. Qed.

(** A change of the world outside the engines. *)
Lemma keep_outside {A} (m : M A) :
  (forall w a w', m w = (Ok a, w') -> engines w' = engines w) ->
  on_return same_children m.
Proof.
  intros Hm w a w' H df id n. apply Hm in H. unfold children, lock. now rewrite H.
Qed.

Lemma keep_make_shared v : on_return same_children (make_shared v).
Proof. apply keep_outside. intros w a w' [= <- <-]. reflexivity. Qed.

(** A member call that keeps the count of every node there is. *)
Lemma keep_update df f :
  (forall e id nd, fNodes e !! id = Some nd ->
     exists nd', fNodes (f e) !! id = Some nd' /\ fNChildren nd' = fNChildren nd) ->
  on_return same_children (update df f).
Proof.
  intros Hf w a w' H df' id n Hc. unfold update in H.
  destruct (lock w df) as [e|] eqn:Hlock; [|discriminate].
  injection H as _ <-. erewrite children_put_engine by eauto.
  destruct (Nat.eqb_spec df' df) as [->|Hne]; [|exact Hc].
  apply children_Some in Hc as (e0 & nd & He0 & Hnd & <-).
  rewrite Hlock in He0. injection He0 as <-.
  destruct (Hf e id nd Hnd) as (nd' & Hl & Hn). rewrite Hl. cbn. now rewrite Hn.
Qed.

Lemma keep_Book df nd : on_return same_children (Book df nd).
Proof.
  unfold Book. apply keep_then_keep; [apply keep_impl|]. intros id.
  apply keep_then_keep; [|intros; apply keep_ret].
  apply keep_update. intros e i x Hx. exists x. split; [|reflexivity].
  cbn. rewrite lookup_app_l; [exact Hx|]. eapply lookup_lt_Some; eauto.
Qed.

Lemma keep_same_nodes df f :
  (forall e, fNodes (f e) = fNodes e) -> on_return same_children (update df f).
Proof.
  intros Hf. apply keep_update. intros e id nd H. exists nd. now rewrite Hf.
Qed.

Lemma keep_BookBranch df name nd : on_return same_children (BookBranch df name nd).
Proof.
  unfold BookBranch. apply keep_then_keep; [apply keep_Book|]. intros id.
  apply keep_then_keep; [|intros; apply keep_ret]. now apply keep_same_nodes.
Qed.

Lemma keep_BookAction df a : on_return same_children (BookAction df a).
Proof. now apply keep_same_nodes. Qed.

Lemma keep_MakeActionResultProxy r df : on_return same_children (MakeActionResultProxy r df).
Proof.
  unfold MakeActionResultProxy. apply keep_then_keep; [|intros; apply keep_ret].
  now apply keep_same_nodes.
Qed.

Lemma keep_Run df : on_return same_children (Run df).
Proof.
  intros w a w' H df' id n Hc. unfold Run in H.
  destruct (lock w df) as [e|] eqn:Hlock; [|discriminate].
  destruct (bind_columns e (resolve (fTree e) (files w))); [discriminate|].
  destruct (event_loop e (files w) (heap w) (ambient w)) as [[acts cnt] amb].
  injection H as _ <-.
  change (children (put_engine df (ran e cnt) w) df' id = Some n).
  erewrite children_put_engine by eauto.
  destruct (Nat.eqb_spec df' df) as [->|Hne]; [|exact Hc].
  apply children_Some in Hc as (e0 & nd & He0 & Hnd & <-).
  rewrite Hlock in He0. injection He0 as <-. cbn. now rewrite Hnd.
Qed.

Lemma keep_NodeReport df node : on_return same_children (NodeReport df node).
Proof.
  unfold NodeReport. apply keep_then_keep; [apply keep_impl|]. intros ls.
  apply keep_outside. intros w a w' H. inversion H. reflexivity.
Qed.

Lemma grow_IncrChildrenCount this :
  on_return (one_more_child this) (IncrChildrenCount (fImplWeakPtr this) (fProxiedPtr this)).
Proof.
  intros w a w' H df id n Hc. unfold IncrChildrenCount, update in H.
  destruct (lock w (fImplWeakPtr this)) as [e|] eqn:Hlock; [|discriminate].
  injection H as _ <-. erewrite children_put_engine by eauto.
  destruct (Nat.eqb_spec df (fImplWeakPtr this)) as [->|Hne]; [|exact Hc].
  apply children_Some in Hc as (e0 & nd & He0 & Hnd & <-).
  rewrite Hlock in He0. injection He0 as <-. cbn.
  destruct (Nat.eqb_spec id (fProxiedPtr this)) as [->|Hne].
  - rewrite list_lookup_alter_eq, Hnd. reflexivity.
  - rewrite list_lookup_alter_ne by congruence. now rewrite Hnd.
Qed.

Create HintDb children.
#[local] Hint Resolve keep_ret keep_throw keep_impl keep_GetTree keep_checked
  keep_PickBranchNames keep_CheckTmpBranch keep_types keep_GetBranchNames
  keep_IsImplicitMTEnabled keep_make_shared keep_Book keep_BookBranch keep_BookAction
  keep_MakeActionResultProxy keep_Run keep_NodeReport grow_IncrChildrenCount : children.

Ltac unfold_members :=
  unfold GetDefaultBranches, GetNSlots, HasRunAtLeastOnce, GetBookedBranches,
    GetTmpBranches in *.

(** A chain of steps that each keep the children counts. *)
Ltac keep :=
  lazymatch goal with
  | |- on_return same_children (bind _ _) =>
      apply keep_then_keep; [keep | intros; keep]
  | |- on_return same_children (if ?b then _ else _) => destruct b; keep
  | |- on_return same_children (match ?c with Some _ => _ | None => _ end) =>
      destruct c as [[? ?]|]; cbn beta iota; keep
  | |- _ => solve [auto with children]
  end.

(** A chain with one step that adds a child to [this], whatever comes
    before and after keeping the counts. *)
Ltac grow :=
  lazymatch goal with
  | |- on_return (one_more_child ?this) (bind (TDF.GetDataFrameChecked ?this) _) =>
      apply checked_then; grow
  | |- on_return (one_more_child _) (bind _ _) =>
      first [ apply keep_then_grow; [solve [keep] | intros; grow]
            | apply grow_then_keep; [solve [grow] | intros; solve [keep]] ]
  | |- on_return (one_more_child _) (if ?b then _ else _) => destruct b; grow
  | |- on_return (one_more_child _) (match ?c with Some _ => _ | None => _ end) =>
      destruct c as [[? ?]|]; cbn beta iota; grow
  | |- _ => solve [auto with children]
  end.

Lemma grow_Filter f bn name this :
  on_return (one_more_child this) (TDF.Filter f bn name this).
Proof. unfold TDF.Filter. unfold_members. grow. Qed.

Lemma grow_Define name e bl this :
  on_return (one_more_child this) (TDF.Define name e bl this).
Proof. unfold TDF.Define. unfold_members. grow. Qed.

#[local] Hint Resolve grow_Filter grow_Define : children.

Lemma grow_Filter_expression e name this :
  on_return (one_more_child this) (TDF.Filter_expression e name this).
Proof.
  unfold TDF.Filter_expression, TDF.InterpretCall_Filter. unfold_members.
  apply checked_then. do 2 (apply keep_then_grow; [solve [keep]|intros]).
  apply keep_then_grow; [now apply keep_pure|]. intros [[g bl]|]; cbn beta iota; grow.
Qed.

Lemma grow_Define_expression name e this :
  on_return (one_more_child this) (TDF.Define_expression name e this).
Proof.
  unfold TDF.Define_expression, TDF.InterpretCall_Define. unfold_members.
  apply checked_then. do 2 (apply keep_then_grow; [solve [keep]|intros]).
  apply keep_then_grow; [now apply keep_pure|]. intros [[g bl]|]; cbn beta iota; grow.
Qed.

Lemma grow_Range start stop stride this :
  on_return (one_more_child this) (TDF.Range start stop stride this).
Proof. unfold TDF.Range. grow. Qed.

Lemma grow_ForeachSlot f bl this :
  on_return (one_more_child this) (TDF.ForeachSlot f bl this).
Proof. unfold TDF.ForeachSlot. unfold_members. grow. Qed.

Lemma grow_Reduce_init f T bn init this :
  on_return (one_more_child this) (TDF.Reduce_init f T bn init this).
Proof. unfold TDF.Reduce_init. unfold_members. grow. Qed.

Lemma grow_Count this : on_return (one_more_child this) (TDF.Count this).
Proof. unfold TDF.Count. unfold_members. grow. Qed.

Lemma grow_Take T bn this : on_return (one_more_child this) (TDF.Take T bn this).
Proof. unfold TDF.Take. unfold_members. grow. Qed.

Lemma keep_BuildAndBook at_ types bl r nSlots this :
  on_return same_children (TDF.BuildAndBook at_ types bl r nSlots this).
Proof. unfold TDF.BuildAndBook. destruct at_; keep. Qed.

#[local] Hint Resolve keep_BuildAndBook : children.

Lemma grow_CreateAction at_ types bl r this :
  on_return (one_more_child this) (TDF.CreateAction at_ types bl r this).
Proof.
  unfold TDF.CreateAction, TDF.JitBuildAndBook, TDF.CallBuildAndBook. unfold_members.
  grow.
Qed.

#[local] Hint Resolve grow_Range grow_ForeachSlot grow_Reduce_init grow_Count grow_Take
  grow_CreateAction grow_Filter_expression grow_Define_expression : children.

Lemma grow_SnapshotImpl ts tn fn bnames this :
  on_return (one_more_child this) (TDF.SnapshotImpl ts tn fn bnames this).
Proof.
  unfold TDF.SnapshotImpl, TDF.Foreach, TDF.set_t, TDF.set_firstEvt.
  destruct (negb _); [grow|].
  apply keep_then_grow; [apply keep_outside; intros w a w' H; now inversion H|]. intros _.
  apply keep_then_grow; [apply keep_outside; intros w a w' H; now inversion H|]. intros _.
  apply grow_then_keep; [grow|]. intros _.
  apply keep_then_keep; [apply keep_outside; intros w a w' H; now inversion H|]. intros _.
  apply keep_then_keep; [apply keep_outside; intros w a w' H; now inversion H|]. intros _.
  intros w a w' H df id n Hc. inversion H; subst.
  apply children_Some in Hc as (e0 & nd & He0 & Hnd & <-).
  unfold children, lock. cbn. apply lock_Some in He0.
  rewrite lookup_app_l by (eapply lookup_lt_Some; eauto).
  rewrite He0, Hnd. reflexivity.
Qed.

#[local] Hint Resolve grow_SnapshotImpl : children.

Lemma grow_Snapshot tn fn bnames this :
  on_return (one_more_child this) (TDF.Snapshot tn fn bnames this).
Proof. unfold TDF.Snapshot, TDF.Snapshot_typed. unfold_members. grow. Qed.

(** C10: every call that extends the graph and returns (Filter, Define,
    Range, Foreach and ForeachSlot, Reduce, Count, Take, the histograms and
    profiles, Fill, Min, Max, Mean, and Snapshot through Foreach) adds one to
    the children count of the node it was called on and leaves the children
    count of every other node, of this engine and of any other, as it was. *)
Theorem children_count_incremented (c : Call) this w r w' :
  extends_graph c = true ->
  invoke c this w = (Ok r, w') ->
  forall df id n,
    children w df id = Some n ->
    children w' df id
    = Some (if Nat.eqb df (fImplWeakPtr this) && Nat.eqb id (fProxiedPtr this)
            then n + 1 else n)%N.
Proof.
  intros Hc H. revert w r w' H. fold (one_more_child this).
  change (on_return (one_more_child this) (invoke c this)).
  destruct c; try discriminate Hc; cbn [invoke];
    unfold returns_node, returns_result, returns_void,
      TDF.Filter_name, TDF.Histo1D_name, TDF.Histo1D_weighted_names, TDF.Histo1D_VW,
      TDF.Histo2D_VW, TDF.Histo3D_VW, TDF.Profile1D_VW, TDF.Profile2D_VW, TDF.Reduce,
      TDF.Range_stop, TDF.Snapshot_typed, TDF.Foreach,
      TDF.Histo1D, TDF.Histo1D_weighted, TDF.Histo2D, TDF.Histo2D_weighted,
      TDF.Histo3D, TDF.Histo3D_weighted, TDF.Profile1D, TDF.Profile1D_weighted,
      TDF.Profile2D, TDF.Profile2D_weighted, TDF.Fill_typed, TDF.Fill,
      TDF.Min, TDF.Max, TDF.Mean;
    (apply grow_then_keep; [| intros; apply keep_ret]);
    first [ solve [auto with children] | apply grow_Snapshot | grow ].
Qed.

Lemma children_count_incremented_witness :
  extends_graph Call_Count = true
  /\ invoke Call_Count root (make_world false (make_tree [] 0) [])
     = (Ok (Result_handle {| fObjPtr := 0; fImplWeakPtrOfResult := 0 |}),
        snd (invoke Call_Count root (make_world false (make_tree [] 0) [])))
  /\ children (make_world false (make_tree [] 0) []) 0 0 = Some 0%N
  /\ children (snd (invoke Call_Count root (make_world false (make_tree [] 0) []))) 0 0
     = Some 1%N.
Proof.
  split; [reflexivity|]. split; [reflexivity|]. split; [reflexivity|].
  exact (children_count_incremented Call_Count root
           (make_world false (make_tree [] 0) [])
           (Result_handle {| fObjPtr := 0; fImplWeakPtrOfResult := 0 |})
           (snd (invoke Call_Count root (make_world false (make_tree [] 0) [])))
           eq_refl eq_refl 0 0 0%N eq_refl).
Defined.

(** ** Booking an action *)

Lemma GetBranchNames_alive types bl msg this w e :
  lock w (fImplWeakPtr this) = Some e ->
  TDF.GetBranchNames types bl msg this w =
  (match names_used types bl (fDefaultBranches e) with
   | Some names => Ok names
   | None => Throw MissingColumnSpec
   end, w).
Proof.
  intros H. unfold TDF.GetBranchNames, names_used.
  destruct (uint (Z.of_nat (length types)) =? TDF.count_provided bl)%N; [reflexivity|].
  erewrite GetDefaultBranchNames_alive by eauto.
  now destruct (N.of_nat (length (fDefaultBranches e)) <? _)%N.
Qed.

Lemma types_outcome bl tree booked w :
  mapM (fun b => ColumnName2ColumnTypeName b tree booked) bl w
  = (if forallb (known_column tree booked) bl then Ok (map (column_type tree) bl)
     else Throw UnknownColumn, w).
Proof.
  induction bl as [|b bl IH]; [reflexivity|].
  cbn [mapM map forallb]. unfold bind.
  unfold ColumnName2ColumnTypeName at 1, column_type at 1, known_column at 1.
  destruct (existsb (String.eqb b) (GetListOfBranches tree)); cbn [orb andb ret].
  - rewrite IH. now destruct (forallb _ bl).
  - destruct (existsb (String.eqb b) (map fst booked)); cbn [andb ret]; [|reflexivity].
    rewrite IH. now destruct (forallb _ bl).
Qed.

Lemma BuildAndBook_alive at_ types bl r nSlots this w e :
  lock w (fImplWeakPtr this) = Some e ->
  TDF.BuildAndBook at_ types bl r nSlots this w =
  (Ok (length (heap w)),
   put_engine (fImplWeakPtr this)
     (set_actions (fBookedActions e
                   ++ [{| aOp := operation_of at_ r (length (heap w)) nSlots;
                          aTypes := types; aBl := bl; aPrev := fProxiedPtr this |}]) e)
     (set_heap (heap w ++ [{| cValue := r; cReady := false |}]) w)).
Proof.
  intros H. unfold TDF.BuildAndBook, BookAction.
  destruct at_; cbn [operation_of]; repeat tdf_step; try reflexivity.
  destruct (match r with VHisto h => HasAxisLimits h | _ => false end);
    repeat tdf_step; reflexivity.
Qed.

(** [CreateAction] on a live engine: the types are resolved if they have to
    be, the result object is shared, the action is booked on the node, which
    gains a child, and the handle of the result is returned. *)
Lemma CreateAction_alive at_ types bl r this w e :
  lock w (fImplWeakPtr this) = Some e ->
  TDF.CreateAction at_ types bl r this w =
  if TNeedJitting types
     && negb (forallb (known_column (resolve (fTree e) (files w)) (fBookedBranches e)) bl)
  then (Throw UnknownColumn, w)
  else
    (Ok {| fObjPtr := length (heap w); fImplWeakPtrOfResult := fImplWeakPtr this |},
     put_engine (fImplWeakPtr this)
       (with_action
          {| aOp := operation_of at_ r (length (heap w)) (fNSlots e);
             aTypes := if TNeedJitting types
                       then map (column_type (resolve (fTree e) (files w))) bl
                       else types;
             aBl := bl; aPrev := fProxiedPtr this |}
          (length (heap w)) e)
       (set_heap (heap w ++ [{| cValue := r; cReady := false |}]) w)).
Proof.
  intros H. unfold TDF.CreateAction.
  destruct (TNeedJitting types); cbn [andb].
  - unfold TDF.JitBuildAndBook, TDF.CallBuildAndBook. unfold_members.
    do 4 tdf_step. rewrite bind_assoc. unfold bind at 1. rewrite types_outcome.
    destruct (forallb _ bl); cbn [negb]; [|reflexivity].
    unfold bind at 1. erewrite BuildAndBook_alive by eauto.
    unfold IncrChildrenCount, MakeActionResultProxy. repeat tdf_step. reflexivity.
  - unfold_members. do 2 tdf_step. unfold bind at 1.
    erewrite BuildAndBook_alive by eauto.
    unfold IncrChildrenCount, MakeActionResultProxy. repeat tdf_step. reflexivity.
Qed.

Lemma named_action_alive at_ types bl msg r this w e :
  lock w (fImplWeakPtr this) = Some e ->
  bind (TDF.GetBranchNames types bl msg this)
       (fun names => TDF.CreateAction at_ types names r this) w
  = match names_used types bl (fDefaultBranches e) with
    | Some names => TDF.CreateAction at_ types names r this w
    | None => (Throw MissingColumnSpec, w)
    end.
Proof.
  intros H. unfold bind. erewrite GetBranchNames_alive by eauto.
  now destruct (names_used types bl (fDefaultBranches e)).
Qed.

Lemma last_booked_with_action w0 df e a ptr :
  lock w0 df = Some e ->
  last_booked (put_engine df (with_action a ptr e) w0) df = Some a.
Proof.
  intros H. unfold last_booked. erewrite lock_put_engine_eq by eauto.
  cbn. apply last_snoc.
Qed.

Lemma CreateAction_books at_ types bl r this w e p w' :
  lock w (fImplWeakPtr this) = Some e ->
  TDF.CreateAction at_ types bl r this w = (Ok p, w') ->
  cell_value (heap w') (fObjPtr p) = r
  /\ exists a, last_booked w' (fImplWeakPtr this) = Some a /\ aBl a = bl
               /\ aPrev a = fProxiedPtr this
               /\ aOp a = operation_of at_ r (fObjPtr p) (fNSlots e).
Proof.
  intros H Hc. erewrite CreateAction_alive in Hc by eauto.
  destruct (TNeedJitting types && _); [discriminate|].
  injection Hc as <- <-. split.
  - cbn. apply cell_value_new.
  - eexists. split; [eapply last_booked_with_action; eauto with tdf|].
    repeat split.
Qed.

(** ** Histograms and axis limits *)

(** C5, as stated, fails for the overloads of [Histo1D] that take a weight
    column: with the degenerate default model the call succeeds and the
    axes of the result are not marked. *)
Lemma Histo1D_claim_counterexample :
  SFeqb (fXmax default_TH1F) (fXmin default_TH1F) = true
  /\ fst (TDF.Histo1D_weighted t_int t_int default_TH1F "v" "w" root histogram_world)
     = Ok {| fObjPtr := 0; fImplWeakPtrOfResult := 0 |}
  /\ cell_value
       (heap (snd (TDF.Histo1D_weighted t_int t_int default_TH1F "v" "w" root
                     histogram_world))) 0
     = VHisto default_TH1F
  /\ fCanExtendAllAxes default_TH1F = false.
Proof. repeat split. Qed.

Lemma limits_required c m this w :
  requires_limits c = Some m -> HasAxisLimits m = false ->
  invoke c this w = (Throw Unsupported, w).
Proof.
  intros Hc Hm.
  destruct c; try discriminate Hc; injection Hc as ->; cbn [invoke];
    apply returns_result_Throw;
    unfold TDF.Histo2D_VW, TDF.Histo3D_VW, TDF.Profile1D_VW, TDF.Profile2D_VW,
      TDF.Histo2D, TDF.Histo2D_weighted, TDF.Histo3D, TDF.Histo3D_weighted,
      TDF.Profile1D, TDF.Profile1D_weighted, TDF.Profile2D, TDF.Profile2D_weighted,
      TDF.Fill_typed, TDF.Fill;
    now rewrite Hm.
Qed.

(** C5, amended: [Histo1D] called with a value column alone and a model
    whose x-axis limits are equal succeeds, when the engine is alive and the
    column resolves, and the axes of the result are marked auto-extendable;
    the overloads of [Histo1D] that take a weight column book the model as
    it is given, without marking its axes; [Histo2D], [Histo3D],
    [Profile1D], [Profile2D] and [Fill] raise [Unsupported] whenever the
    model has no axis limits, in whatever world and before anything is
    booked. *)
Theorem histogram_axis_limits V model vName this w e bl :
  lock w (fImplWeakPtr this) = Some e ->
  SFeqb (fXmax model) (fXmin model) = true ->
  names_used [V] [vName] (fDefaultBranches e) = Some bl ->
  resolves e w [V] bl ->
  (exists p w',
     TDF.Histo1D V model vName this w = (Ok p, w')
     /\ cell_value (heap w') (fObjPtr p) = VHisto (SetCanExtendAllAxes model)
     /\ fCanExtendAllAxes (SetCanExtendAllAxes model) = true)
  /\ (forall W wName p w',
        TDF.Histo1D_weighted V W model vName wName this w = (Ok p, w') ->
        cell_value (heap w') (fObjPtr p) = VHisto model)
  /\ (forall c m this' w0,
        requires_limits c = Some m -> HasAxisLimits m = false ->
        invoke c this' w0 = (Throw Unsupported, w0)).
Proof.
  intros Hlock Hdeg Hnames Hknown. unfold resolves in Hknown. split; [|split].
  - unfold TDF.Histo1D. erewrite named_action_alive by eauto.
    rewrite Hnames, Hdeg. erewrite CreateAction_alive by eauto. rewrite Hknown.
    do 2 eexists. split; [reflexivity|]. split; [|reflexivity].
    cbn. apply cell_value_new.
  - intros W wName p w' H. unfold TDF.Histo1D_weighted in H.
    erewrite named_action_alive in H by eauto.
    destruct (names_used [V; W] [vName; wName] (fDefaultBranches e)) as [names|];
      [|discriminate].
    eapply CreateAction_books in H as [Hv _]; eauto.
  - intros c m this' w0. apply limits_required.
Qed.

Lemma histogram_axis_limits_witness :
  lock histogram_world (fImplWeakPtr root)
  = Some (new_TDataFrameImpl
            (InMemory (make_tree [("v", int_column); ("w", int_column);
                                  ("x", int_column); ("y", int_column)] 3))
            ["x"; "y"] 1)
  /\ SFeqb (fXmax default_TH1F) (fXmin default_TH1F) = true
  /\ (exists p w',
        TDF.Histo1D TDataFrameGuessedType default_TH1F "v" root histogram_world = (Ok p, w')
        /\ cell_value (heap w') (fObjPtr p) = VHisto (SetCanExtendAllAxes default_TH1F)
        /\ fCanExtendAllAxes (SetCanExtendAllAxes default_TH1F) = true).
Proof.
  split; [reflexivity|]. split; [reflexivity|].
  exact (proj1 (histogram_axis_limits TDataFrameGuessedType default_TH1F "v" root
                  histogram_world _ ["v"] eq_refl eq_refl eq_refl eq_refl)).
Defined.

(** ** Default columns *)

Lemma returns_result_Ok m w r w' :
  returns_result m w = (Ok r, w') -> exists p, m w = (Ok p, w') /\ r = Result_handle p.
Proof.
  unfold returns_result, bind. destruct (m w) as [[p|k] w1]; [|discriminate].
  intros [= <- <-]. eauto.
Qed.

Lemma named_action_columns at_ types bl msg r this w e :
  lock w (fImplWeakPtr this) = Some e ->
  match names_used types bl (fDefaultBranches e) with
  | None =>
      returns_result
        (bind (TDF.GetBranchNames types bl msg this)
              (fun names => TDF.CreateAction at_ types names r this)) w
      = (Throw MissingColumnSpec, w)
  | Some names =>
      (forall r0 w',
         returns_result
           (bind (TDF.GetBranchNames types bl msg this)
                 (fun names => TDF.CreateAction at_ types names r this)) w
         = (Ok r0, w') ->
         exists a, last_booked w' (fImplWeakPtr this) = Some a /\ aBl a = names)
      /\ (resolves e w types names ->
          exists r0 w',
            returns_result
              (bind (TDF.GetBranchNames types bl msg this)
                    (fun names => TDF.CreateAction at_ types names r this)) w
            = (Ok r0, w'))
  end.
Proof.
  intros H. pose proof (named_action_alive at_ types bl msg r this w e H) as Hn.
  destruct (names_used types bl (fDefaultBranches e)) as [names|].
  - split.
    + intros r0 w' Hr. apply returns_result_Ok in Hr as (p & Hp & _).
      rewrite Hn in Hp. eapply CreateAction_books in Hp as (_ & a & Ha & Hbl & _); eauto.
    + intros Hk. unfold resolves in Hk. unfold returns_result. unfold bind at 1.
      rewrite Hn. erewrite CreateAction_alive by eauto. rewrite Hk. cbn. eauto.
  - now apply returns_result_Throw.
Qed.

Lemma Reduce_init_alive f T bn init this w e :
  lock w (fImplWeakPtr this) = Some e ->
  TDF.Reduce_init f T bn init this w =
  match names_used [T] [bn] (fDefaultBranches e) with
  | None => (Throw MissingColumnSpec, w)
  | Some names =>
      (Ok {| fObjPtr := length (heap w); fImplWeakPtrOfResult := fImplWeakPtr this |},
       put_engine (fImplWeakPtr this)
         (with_action
            {| aOp := ReduceOperation f (length (heap w)) (fNSlots e);
               aTypes := [T]; aBl := names; aPrev := fProxiedPtr this |}
            (length (heap w)) e)
         (set_heap (heap w ++ [{| cValue := init; cReady := false |}]) w))
  end.
Proof.
  intros H. unfold TDF.Reduce_init. unfold_members. do 2 tdf_step.
  unfold bind at 1. erewrite GetBranchNames_alive by eauto.
  destruct (names_used [T] [bn] (fDefaultBranches e)) as [names|]; [|reflexivity].
  unfold BookAction, IncrChildrenCount, MakeActionResultProxy. repeat tdf_step.
  reflexivity.
Qed.

Lemma Take_alive T bn this w e :
  lock w (fImplWeakPtr this) = Some e ->
  TDF.Take T bn this w =
  match names_used [T] [bn] (fDefaultBranches e) with
  | None => (Throw MissingColumnSpec, w)
  | Some names =>
      (Ok {| fObjPtr := length (heap w); fImplWeakPtrOfResult := fImplWeakPtr this |},
       put_engine (fImplWeakPtr this)
         (with_action
            {| aOp := TakeOperation (length (heap w)) (fNSlots e);
               aTypes := [T]; aBl := names; aPrev := fProxiedPtr this |}
            (length (heap w)) e)
         (set_heap (heap w ++ [{| cValue := VVec []; cReady := false |}]) w))
  end.
Proof.
  intros H. unfold TDF.Take. unfold_members. do 2 tdf_step.
  unfold bind at 1. erewrite GetBranchNames_alive by eauto.
  destruct (names_used [T] [bn] (fDefaultBranches e)) as [names|]; [|reflexivity].
  unfold BookAction, IncrChildrenCount, MakeActionResultProxy. repeat tdf_step.
  reflexivity.
Qed.

(** C4, as stated, fails: with the default list [x], [y], the weighted
    [Histo1D] given the names [v] and nothing is booked over [x], [y]; the
    name the user did supply is dropped. *)
Lemma default_columns_counterexample :
  fst (TDF.Histo1D_weighted t_int t_int default_TH1F "v" "" root histogram_world)
  = Ok {| fObjPtr := 0; fImplWeakPtrOfResult := 0 |}
  /\ aBl <$> last_booked
               (snd (TDF.Histo1D_weighted t_int t_int default_TH1F "v" "" root
                       histogram_world)) 0
     = Some ["x"; "y"].
Proof. split; reflexivity. Qed.

(** C4, amended: for every method that names its columns through
    [GetBranchNames] (Reduce, Take, the histograms and profiles, Min, Max,
    Mean) and needs k names: when the list supplied has k non-empty names
    the action is booked over it; when it has fewer, the whole list is
    replaced by the first k names of the default list, the names the user
    did supply being dropped; and when the default list has fewer than k
    names, the call raises [MissingColumnSpec] and the world is as before:
    nothing is booked. With names to use the call returns as soon as the
    types of the columns are given or can be inferred. *)
Theorem default_columns (c : Call) types bl this w e :
  column_request c = Some (types, bl) ->
  lock w (fImplWeakPtr this) = Some e ->
  argument_check c w = None ->
  names_used types bl (fDefaultBranches e)
  = (if (N.of_nat (length types) =? TDF.count_provided bl)%N then Some bl
     else if (length (fDefaultBranches e) <? length types)%nat then None
     else Some (take (length types) (fDefaultBranches e)))
  /\ match names_used types bl (fDefaultBranches e) with
     | None => invoke c this w = (Throw MissingColumnSpec, w)
     | Some names =>
         (forall r w',
            invoke c this w = (Ok r, w') ->
            exists a, last_booked w' (fImplWeakPtr this) = Some a /\ aBl a = names)
         /\ (resolves e w types names -> exists r w', invoke c this w = (Ok r, w'))
     end.
Proof.
  intros Hc Hlock Harg. split.
  - assert (Hlen : (length types <= 4)%nat).
    { destruct c; try discriminate Hc; injection Hc as <- _; cbn; lia. }
    unfold names_used.
    assert (Hu : uint (Z.of_nat (length types)) = N.of_nat (length types)).
    { unfold uint. rewrite Z.mod_small by lia. lia. }
    rewrite Hu, Nat2N.id.
    destruct (N.of_nat (length types) =? TDF.count_provided bl)%N; [reflexivity|].
    destruct (N.ltb_spec (N.of_nat (length (fDefaultBranches e))) (N.of_nat (length types)));
      destruct (Nat.ltb_spec (length (fDefaultBranches e)) (length types));
      try reflexivity; lia.
  - destruct c; try discriminate Hc; injection Hc as <- <-; cbn [invoke];
      cbn [argument_check] in Harg;
      unfold TDF.Histo1D_name, TDF.Histo1D_weighted_names, TDF.Histo1D_VW,
        TDF.Histo2D_VW, TDF.Histo3D_VW, TDF.Profile1D_VW, TDF.Profile2D_VW, TDF.Reduce,
        TDF.Histo1D, TDF.Histo1D_weighted, TDF.Histo2D, TDF.Histo2D_weighted,
        TDF.Histo3D, TDF.Histo3D_weighted, TDF.Profile1D, TDF.Profile1D_weighted,
        TDF.Profile2D, TDF.Profile2D_weighted, TDF.Min, TDF.Max, TDF.Mean;
      try (destruct (HasAxisLimits model); [cbn [negb] | discriminate Harg]);
      cbv zeta;
      try (now eapply named_action_columns).
    + (* Reduce *)
      pose proof (Reduce_init_alive f T branchName T_default this w e Hlock) as Hr.
      destruct (names_used [T] [branchName] (fDefaultBranches e)) as [names|].
      * split.
        -- intros r w' H. apply returns_result_Ok in H as (p & Hp & _).
           rewrite Hr in Hp. injection Hp as <- <-.
           eexists. split; [eapply last_booked_with_action; eauto with tdf | reflexivity].
        -- intros _. unfold returns_result. unfold bind at 1. rewrite Hr. cbn. eauto.
      * now apply returns_result_Throw.
    + (* Reduce with an initial value *)
      pose proof (Reduce_init_alive f T branchName initValue this w e Hlock) as Hr.
      destruct (names_used [T] [branchName] (fDefaultBranches e)) as [names|].
      * split.
        -- intros r w' H. apply returns_result_Ok in H as (p & Hp & _).
           rewrite Hr in Hp. injection Hp as <- <-.
           eexists. split; [eapply last_booked_with_action; eauto with tdf | reflexivity].
        -- intros _. unfold returns_result. unfold bind at 1. rewrite Hr. cbn. eauto.
      * now apply returns_result_Throw.
    + (* Take *)
      pose proof (Take_alive T branchName this w e Hlock) as Hr.
      destruct (names_used [T] [branchName] (fDefaultBranches e)) as [names|].
      * split.
        -- intros r w' H. apply returns_result_Ok in H as (p & Hp & _).
           rewrite Hr in Hp. injection Hp as <- <-.
           eexists. split; [eapply last_booked_with_action; eauto with tdf | reflexivity].
        -- intros _. unfold returns_result. unfold bind at 1. rewrite Hr. cbn. eauto.
      * now apply returns_result_Throw.
Qed.

Lemma default_columns_witness :
  column_request (Call_Histo1D_weighted t_int t_int default_TH1F "v" "")
  = Some ([t_int; t_int], ["v"; ""])
  /\ argument_check (Call_Histo1D_weighted t_int t_int default_TH1F "v" "") histogram_world
     = None
  /\ names_used [t_int; t_int] ["v"; ""] ["x"; "y"] = Some ["x"; "y"]
  /\ exists r w',
       invoke (Call_Histo1D_weighted t_int t_int default_TH1F "v" "") root histogram_world
       = (Ok r, w')
       /\ exists a, last_booked w' (fImplWeakPtr root) = Some a /\ aBl a = ["x"; "y"].
Proof.
  split; [reflexivity|]. split; [reflexivity|].
  destruct (default_columns (Call_Histo1D_weighted t_int t_int default_TH1F "v" "")
              [t_int; t_int] ["v"; ""] root histogram_world _
              eq_refl eq_refl eq_refl) as [Hn [Hbooked Hreturns]].
  split; [exact Hn|].
  destruct (Hreturns eq_refl) as (r & w' & Hcall).
  exists r, w'. split; [exact Hcall|]. exact (Hbooked r w' Hcall).
Defined.

(** ** The event loop *)

Lemma run_actions_actions nodes env acts cache cnt amb :
  map fst (fst (fst (run_actions nodes env acts cache cnt amb))) = map fst acts.
Proof.
  revert cache cnt amb. induction acts as [|[a p] acts IH]; intros cache cnt amb;
    [reflexivity|].
  cbn [run_actions].
  destruct (CheckFilters nodes (path nodes (aPrev a)) env cache cnt) as [[b c1] n1].
  destruct (if b then Exec (aOp a) 0 (aBl a) env p amb else (p, amb)) as [p1 amb1].
  specialize (IH c1 n1 amb1).
  destruct (run_actions nodes env acts c1 n1 amb1) as [[rest' n2] amb2].
  cbn in *. now rewrite IH.
Qed.

Lemma event_loop_actions e fs h amb :
  map fst (fst (fst (event_loop e fs h amb))) = fBookedActions e.
Proof.
  unfold event_loop.
  set (st0 := (map (fun a => (a, init_partial h (aOp a))) (fBookedActions e),
               map reset_seen (fCounters e), amb)).
  assert (H0 : map fst (fst (fst st0)) = fBookedActions e).
  { subst st0. cbn. rewrite map_map. cbn. apply map_id. }
  revert H0. generalize st0. clear st0.
  induction (seq 0 (GetEntries (resolve (fTree e) fs))) as [|r rows IH]; intros st H0;
    [exact H0|].
  cbn [fold_left]. apply IH. destruct st as [[acts cnt] amb0]. cbn [process_row].
  rewrite run_actions_actions. exact H0.
Qed.

Lemma CheckFilters_counters nodes p env cache cnt :
  length (snd (CheckFilters nodes p env cache cnt)) = length cnt.
Proof.
  revert cache cnt. induction p as [|id p IH]; intros cache cnt; [reflexivity|].
  cbn [CheckFilters]. destruct (nKind <$> nodes !! id) as [[| f bl name | | start stop stride]|];
    try apply IH.
  - destruct (cache_find id cache) as [[|]|]; [apply IH | reflexivity |].
    destruct (fcall f (values env bl)); [rewrite IH|cbn]; apply length_alter.
  - destruct (cache_find id cache) as [[|]|]; [apply IH | reflexivity |].
    destruct (RangeAdmit start stop stride (seen_of cnt id)); [rewrite IH|cbn];
      apply length_alter.
Qed.

Lemma run_actions_counters nodes env acts cache cnt amb :
  length (snd (fst (run_actions nodes env acts cache cnt amb))) = length cnt.
Proof.
  revert cache cnt amb. induction acts as [|[a p] acts IH]; intros cache cnt amb;
    [reflexivity|].
  cbn [run_actions].
  pose proof (CheckFilters_counters nodes (path nodes (aPrev a)) env cache cnt) as Hc.
  destruct (CheckFilters nodes (path nodes (aPrev a)) env cache cnt) as [[b c1] n1].
  destruct (if b then Exec (aOp a) 0 (aBl a) env p amb else (p, amb)) as [p1 amb1].
  specialize (IH c1 n1 amb1).
  destruct (run_actions nodes env acts c1 n1 amb1) as [[rest' n2] amb2].
  cbn in *. congruence.
Qed.

Lemma event_loop_counters e fs h amb :
  length (snd (fst (event_loop e fs h amb))) = length (fCounters e).
Proof.
  unfold event_loop.
  set (st0 := (map (fun a => (a, init_partial h (aOp a))) (fBookedActions e),
               map reset_seen (fCounters e), amb)).
  assert (H0 : length (snd (fst st0)) = length (fCounters e)) by apply length_map.
  revert H0. generalize st0. clear st0.
  induction (seq 0 (GetEntries (resolve (fTree e) fs))) as [|r rows IH]; intros st H0;
    [exact H0|].
  cbn [fold_left]. apply IH. destruct st as [[acts cnt] amb0]. unfold process_row.
  rewrite run_actions_counters. exact H0.
Qed.

Lemma length_Finalize h ap : length (Finalize h ap) = length h.
Proof.
  unfold Finalize, set_value.
  destruct (aOp (fst ap)); try reflexivity; try apply length_alter.
  destruct (snd ap) as [| | | | |[|[] [|[] [|]]]|]; try reflexivity; apply length_alter.
Qed.







Lemma Run_alive df w e :
  lock w df = Some e ->
  bind_columns e (resolve (fTree e) (files w)) = None ->
  Run df w =
  (Ok tt,
   set_ambient (snd (event_loop e (files w) (heap w) (ambient w)))
     (set_heap (fold_left mark_ready (fResProxyReadiness e)
                  (fold_left Finalize
                     (fst (fst (event_loop e (files w) (heap w) (ambient w)))) (heap w)))
        (put_engine df (ran e (snd (fst (event_loop e (files w) (heap w) (ambient w))))) w))).
Proof.
  intros H Hb. unfold Run. rewrite H, Hb.
  now destruct (event_loop e (files w) (heap w) (ambient w)) as [[acts cnt] amb].
Qed.

(** A run whose readers do not bind is aborted, the world as it was. *)
Lemma Run_aborted df w e k :
  lock w df = Some e ->
  bind_columns e (resolve (fTree e) (files w)) = Some k ->
  Run df w = (Throw k, w).
Proof. intros H Hb. unfold Run. now rewrite H, Hb. Qed.

Lemma ForeachSlot_alive f bl this w e actualBl :
  lock w (fImplWeakPtr this) = Some e ->
  PickBranchNames (uint (Z.of_N (SlotCallable_fgSize f) - 1)) bl (fDefaultBranches e) w
  = (Ok actualBl, w) ->
  TDF.ForeachSlot f bl this w =
  Run (fImplWeakPtr this)
    (put_engine (fImplWeakPtr this)
       (book_on {| aOp := ForeachSlotOperation f; aTypes := BranchTypes_t f;
                   aBl := actualBl; aPrev := fProxiedPtr this |} e) w).
Proof.
  intros H Hp. unfold TDF.ForeachSlot. unfold_members. do 2 tdf_step.
  erewrite bind_Ok by exact Hp.
  unfold BookAction, IncrChildrenCount. repeat tdf_step. reflexivity.
Qed.

Lemma cache_ok_nil nodes env : cache_ok nodes env [].
Proof. intros id b H. discriminate H. Qed.

Lemma cache_ok_cons nodes env cache id b :
  cache_ok nodes env cache ->
  (is_range nodes id = false -> b = gate nodes env id) ->
  cache_ok nodes env ((id, b) :: cache).
Proof.
  intros Hc Hb id' b' H Hr. cbn in H.
  destruct (Nat.eqb_spec id id') as [->|Hne].
  - injection H as <-. now apply Hb.
  - now apply Hc.
Qed.

(** Whatever path is evaluated, the cache stays in agreement with the
    filters. *)
Lemma CheckFilters_cache_ok nodes env p cache cnt :
  cache_ok nodes env cache ->
  cache_ok nodes env (snd (fst (CheckFilters nodes p env cache cnt))).
Proof.
  revert cache cnt. induction p as [|id p IH]; intros cache cnt Hc; [exact Hc|].
  cbn [CheckFilters].
  destruct (nKind <$> nodes !! id) as [[|f bl name|name ex bl|start stop stride]|] eqn:Hk;
    try now apply IH.
  - destruct (cache_find id cache) as [[|]|] eqn:Hf; [now apply IH | exact Hc |].
    assert (Hc' : cache_ok nodes env ((id, fcall f (values env bl)) :: cache)).
    { apply cache_ok_cons; [exact Hc|]. intros _. unfold gate. now rewrite Hk. }
    destruct (fcall f (values env bl)); [now apply IH | exact Hc'].
  - destruct (cache_find id cache) as [[|]|] eqn:Hf; [now apply IH | exact Hc |].
    assert (Hc' : cache_ok nodes env
                    ((id, RangeAdmit start stop stride (seen_of cnt id)) :: cache)).
    { apply cache_ok_cons; [exact Hc|]. unfold is_range. rewrite Hk. discriminate. }
    destruct (RangeAdmit start stop stride (seen_of cnt id)); [now apply IH | exact Hc'].
Qed.

(** On a path of filters and derived columns the verdict is the conjunction
    of the filters. *)
Lemma CheckFilters_filters nodes env p cache cnt :
  cache_ok nodes env cache ->
  forallb (fun id => negb (is_range nodes id)) p = true ->
  fst (fst (CheckFilters nodes p env cache cnt)) = forallb (gate nodes env) p.
Proof.
  revert cache cnt. induction p as [|id p IH]; intros cache cnt Hc Hp; [reflexivity|].
  cbn [forallb] in Hp |- *. apply andb_true_iff in Hp as [Hid Hp].
  apply negb_true_iff in Hid. cbn [CheckFilters]. unfold gate at 1.
  pose proof Hid as Hid'. unfold is_range in Hid'.
  destruct (nKind <$> nodes !! id) as [[|f bl name|name ex bl|start stop stride]|] eqn:Hk;
    try discriminate Hid'; try (cbn [andb]; now apply IH).
  destruct (cache_find id cache) as [b|] eqn:Hf.
  - pose proof (Hc id b Hf Hid) as Hb. unfold gate in Hb. rewrite Hk in Hb. subst b.
    destruct (fcall f (values env bl)); [cbn [andb]; now apply IH | reflexivity].
  - destruct (fcall f (values env bl)) eqn:Hv; [|reflexivity].
    cbn [andb]. apply IH; [|exact Hp].
    apply cache_ok_cons; [exact Hc|]. intros _. unfold gate. now rewrite Hk.
Qed.

(** Booking an action changes children counts only: kinds, parents, paths,
    gates and row values are those of the engine before. *)
Lemma lookup_counted (nodes : list Node) (i : nat) (id : nat) :
  alter IncrChildrenCount_node i nodes !! id
  = (if decide (i = id) then IncrChildrenCount_node else fun n => n) <$> nodes !! id.
Proof.
  destruct (decide (i = id)) as [->|Hne].
  - apply list_lookup_alter_eq.
  - rewrite list_lookup_alter_ne by exact Hne. now destruct (nodes !! id).
Qed.

Lemma nKind_counted (nodes : list Node) (i : nat) (id : nat) :
  nKind <$> alter IncrChildrenCount_node i nodes !! id = nKind <$> nodes !! id.
Proof.
  rewrite lookup_counted. destruct (nodes !! id) as [nd|]; [|reflexivity].
  now destruct (decide (i = id)).
Qed.

Lemma path_up_counted (nodes : list Node) (i : nat) fuel id :
  path_up (alter IncrChildrenCount_node i nodes) fuel id = path_up nodes fuel id.
Proof.
  revert id. induction fuel as [|k IH]; intros id; [reflexivity|].
  cbn [path_up]. destruct id as [|id']; [reflexivity|].
  rewrite lookup_counted. destruct (nodes !! S id') as [nd|]; [|reflexivity].
  cbn. rewrite IH. now destruct (decide (i = S id')).
Qed.

Lemma path_counted (nodes : list Node) (i : nat) id :
  path (alter IncrChildrenCount_node i nodes) id = path nodes id.
Proof. unfold path. now rewrite length_alter, path_up_counted. Qed.

Lemma gate_counted (nodes : list Node) (i : nat) env id :
  gate (alter IncrChildrenCount_node i nodes) env id = gate nodes env id.
Proof. unfold gate. now rewrite nKind_counted. Qed.

Lemma is_range_counted (nodes : list Node) (i : nat) id :
  is_range (alter IncrChildrenCount_node i nodes) id = is_range nodes id.
Proof. unfold is_range. now rewrite nKind_counted. Qed.

Lemma forallb_same {A} (f g : A -> bool) l :
  (forall x, f x = g x) -> forallb f l = forallb g l.
Proof. intros H. induction l as [|x l IH]; [reflexivity|]. cbn. now rewrite H, IH. Qed.

Lemma forallb_same_in {A} (f g : A -> bool) l :
  (forall x, In x l -> f x = g x) -> forallb f l = forallb g l.
Proof.
  induction l as [|x l IH]; intros H; [reflexivity|].
  cbn. rewrite H by now left. rewrite IH; [reflexivity|]. intros y Hy. apply H. now right.
Qed.

Lemma fNodes_book_on a e :
  fNodes (book_on a e) = alter IncrChildrenCount_node (aPrev a) (fNodes e).
Proof. reflexivity. Qed.

Lemma row_env_book_on a e tree r : row_env (book_on a e) tree r = row_env e tree r.
Proof.
  unfold row_env. rewrite fNodes_book_on.
  change (fBookedBranches (book_on a e)) with (fBookedBranches e).
  generalize (GetEntry tree r). induction (fBookedBranches e) as [|b bs IH]; intros env;
    [reflexivity|].
  cbn [fold_left]. rewrite IH. f_equal. unfold derive. now rewrite nKind_counted.
Qed.

Lemma passes_book_on a e node env : passes (book_on a e) node env = passes e node env.
Proof.
  unfold passes. rewrite fNodes_book_on, path_counted. apply forallb_same. intros id.
  apply gate_counted.
Qed.

Lemma filters_only_book_on a e node : filters_only (book_on a e) node = filters_only e node.
Proof.
  unfold filters_only. rewrite fNodes_book_on, path_counted. apply forallb_same.
  intros id. now rewrite is_range_counted.
Qed.

(** An action that is not a Foreach leaves the callables' memory alone. *)
Lemma Exec_ambient a slot env p amb :
  is_foreach a = false -> snd (Exec (aOp a) slot (aBl a) env p amb) = amb.
Proof. unfold is_foreach. destruct (aOp a); intros H; try discriminate H; reflexivity. Qed.

(** One row, the snapshot action last: the memory changes only if the
    filter chain admits the row, and then by one call of the action. *)
Lemma run_actions_last nodes env acts a p cache cnt amb :
  forallb (fun ap => negb (is_foreach (fst ap))) acts = true ->
  cache_ok nodes env cache ->
  forallb (fun id => negb (is_range nodes id)) (path nodes (aPrev a)) = true ->
  snd (run_actions nodes env (acts ++ [(a, p)]) cache cnt amb)
  = if forallb (gate nodes env) (path nodes (aPrev a))
    then snd (Exec (aOp a) 0 (aBl a) env p amb) else amb.
Proof.
  intros Hacts Hc Hp. revert cache cnt Hc.
  induction acts as [|[a0 p0] acts IH]; intros cache cnt Hc.
  - cbn [app run_actions].
    pose proof (CheckFilters_filters nodes env (path nodes (aPrev a)) cache cnt Hc Hp) as Hb.
    destruct (CheckFilters nodes (path nodes (aPrev a)) env cache cnt) as [[b c1] n1].
    cbn in Hb. subst b.
    destruct (forallb (gate nodes env) (path nodes (aPrev a))).
    + now destruct (Exec (aOp a) 0 (aBl a) env p amb).
    + reflexivity.
  - cbn [forallb] in Hacts. apply andb_true_iff in Hacts as [Ha0 Hacts].
    apply negb_true_iff in Ha0. cbn [fst] in Ha0.
    cbn [app run_actions].
    pose proof (CheckFilters_cache_ok nodes env (path nodes (aPrev a0)) cache cnt Hc) as Hc1.
    destruct (CheckFilters nodes (path nodes (aPrev a0)) env cache cnt) as [[b c1] n1].
    cbn in Hc1.
    assert (Hamb : snd (if b then Exec (aOp a0) 0 (aBl a0) env p0 amb else (p0, amb)) = amb).
    { destruct b; [now apply Exec_ambient | reflexivity]. }
    destruct (if b then Exec (aOp a0) 0 (aBl a0) env p0 amb else (p0, amb)) as [p1 amb1].
    cbn in Hamb. subst amb1.
    specialize (IH Hacts c1 n1 Hc1).
    destruct (run_actions nodes env (acts ++ [(a, p)]) c1 n1 amb) as [[rest' n2] amb2].
    exact IH.
Qed.

(** ** What the loop leaves in a result object *)



Lemma init_partial_started h op r :
  result_object op = Some r -> init_partial h op = started op (cell_value h r).
Proof. destruct op; intros [= <-]; reflexivity. Qed.

(** The partial result the rows leave, then what [Finalize] stores of it,
    is what the specification says. *)
Lemma finished_fold op r seed vss :
  result_object op = Some r ->
  finished op (fold_left (fun q vs => accumulate op vs q) vss (started op seed)) seed
  = result_over op seed vss.
Proof.
  intros Hr. destruct op; try discriminate Hr; cbn [started finished result_over accumulate].
  - (* Reduce *)
    revert seed. induction vss as [|vs vss IH]; intros seed; [reflexivity|]. cbn. apply IH.
  - (* Count *)
    assert (H : forall n, fold_left (fun q (_ : list value) =>
                            match q with VUInt m => VUInt (m + 1) | _ => q end) vss (VUInt n)
                          = VUInt (n + N.of_nat (length vss))).
    { induction vss as [|vs vss IH]; intros n; cbn [fold_left length].
      - f_equal. lia.
      - rewrite IH. f_equal. lia. }
    now rewrite H.
  - (* Take *)
    destruct seed as [| | | | |l|];
      try (induction vss as [|vs vss IH]; [reflexivity | exact IH]).
    revert l. induction vss as [|vs vss IH]; intros l; cbn [fold_left map].
    + now rewrite app_nil_r.
    + rewrite IH. now rewrite <- app_assoc.
  - (* FillTO *)
    destruct seed as [| | | | | |agg];
      try (induction vss as [|vs vss IH]; [reflexivity | exact IH]).
    revert agg. induction vss as [|vs vss IH]; intros agg; [reflexivity|]. cbn. apply IH.
  - (* Fill *)
    destruct seed as [| | | | | |agg];
      try (induction vss as [|vs vss IH]; [reflexivity | exact IH]).
    revert agg. induction vss as [|vs vss IH]; intros agg; [reflexivity|]. cbn. apply IH.
  - (* Min *)
    revert seed. induction vss as [|vs vss IH]; intros seed; [reflexivity|]. cbn. apply IH.
  - (* Max *)
    revert seed. induction vss as [|vs vss IH]; intros seed; [reflexivity|]. cbn. apply IH.
  - (* Mean *)
    assert (H : forall s n,
               fold_left (fun q vs =>
                            match q with
                            | VVec [VDouble s0; VUInt m] =>
                                VVec [VDouble (SFadd prec emax s0 (to_double (hd VVoid vs)));
                                      VUInt (m + 1)]
                            | _ => q
                            end) vss (VVec [VDouble s; VUInt n])
               = VVec [VDouble (fold_left (fun s0 v => SFadd prec emax s0 (to_double v))
                                  (map (hd VVoid) vss) s);
                       VUInt (n + N.of_nat (length vss))]).
    { induction vss as [|vs vss IH]; intros s n; cbn [fold_left length map].
      - replace (n + N.of_nat 0)%N with n by lia. reflexivity.
      - rewrite IH.
        replace (n + N.of_nat (S (length vss)))%N with (n + 1 + N.of_nat (length vss))%N
          by lia.
        reflexivity. }
    rewrite H. replace (Z.of_N (0 + N.of_nat (length vss))) with (Z.of_nat (length vss)) by lia.
    reflexivity.
Qed.

(** What [Finalize] does to the result objects. *)
Lemma cell_value_set_value h r v r' :
  cell_value (set_value r v h) r'
  = if decide (r = r') then (if decide (r < length h) then v else VVoid) else cell_value h r'.
Proof.
  unfold cell_value, set_value. destruct (decide (r = r')) as [<-|Hne].
  - rewrite list_lookup_alter_eq. destruct (decide (r < length h)) as [Hlt|Hge].
    + destruct (lookup_lt_is_Some_2 h r Hlt) as [c ->]. reflexivity.
    + rewrite lookup_ge_None_2 by lia. reflexivity.
  - now rewrite list_lookup_alter_ne.
Qed.

Lemma Finalize_other h ap r :
  result_object (aOp (fst ap)) <> Some r -> cell_value (Finalize h ap) r = cell_value h r.
Proof.
  intros Hne. unfold Finalize.
  destruct (aOp (fst ap)) eqn:Hop; cbn [result_object] in Hne; try reflexivity;
    try (rewrite cell_value_set_value; destruct (decide _) as [->|]; [congruence|reflexivity]).
  destruct (snd ap) as [| | | | |[|[] [|[] [|]]]|]; try reflexivity.
  rewrite cell_value_set_value. destruct (decide _) as [->|]; [congruence|reflexivity].
Qed.

Lemma Finalize_own h a p r :
  result_object (aOp a) = Some r -> r < length h ->
  cell_value (Finalize h (a, p)) r = finished (aOp a) p (cell_value h r).
Proof.
  intros Hr Hlt. unfold Finalize. cbn [fst snd].
  destruct (aOp a); try discriminate Hr; injection Hr as ->; cbn [finished];
    try (rewrite cell_value_set_value; rewrite decide_True by reflexivity;
         now rewrite decide_True by exact Hlt).
  destruct p as [| | | | |[|[] [|[] [|]]]|]; try reflexivity.
  rewrite cell_value_set_value. rewrite decide_True by reflexivity.
  now rewrite decide_True by exact Hlt.
Qed.

Lemma fold_Finalize_other acts h r :
  existsb (Nat.eqb r) (result_objects (map fst acts)) = false ->
  cell_value (fold_left Finalize acts h) r = cell_value h r.
Proof.
  revert h. induction acts as [|[a p] acts IH]; intros h Hr; [reflexivity|].
  cbn [fold_left]. unfold result_objects in Hr. cbn [map flat_map fst] in Hr.
  destruct (result_object (aOp a)) as [r0|] eqn:Ha; cbn [existsb app] in Hr.
  - apply orb_false_iff in Hr as [Hne Hr]. apply Nat.eqb_neq in Hne.
    rewrite IH by exact Hr. apply Finalize_other. cbn [fst]. rewrite Ha. congruence.
  - rewrite IH by exact Hr. apply Finalize_other. cbn [fst]. rewrite Ha. discriminate.
Qed.

Lemma distinct_not_in l r : distinct (r :: l) = true -> existsb (Nat.eqb r) l = false.
Proof. cbn. intros H. apply andb_true_iff in H as [H _]. now apply negb_true_iff in H. Qed.

Lemma existsb_eqb_sym (l : list nat) r r' :
  existsb (Nat.eqb r) l = false -> In r' l -> r' <> r.
Proof.
  intros H Hin ->. assert (existsb (Nat.eqb r) l = true); [|congruence].
  apply existsb_exists. exists r. split; [exact Hin | apply Nat.eqb_refl].
Qed.

(** After the partial results are stored, the result object of an action
    holds what [Finalize] makes of its partial result, provided no other
    action shares the object. *)
Lemma fold_Finalize_value acts h i a p r :
  acts !! i = Some (a, p) ->
  result_object (aOp a) = Some r -> r < length h ->
  distinct (result_objects (map fst acts)) = true ->
  cell_value (fold_left Finalize acts h) r = finished (aOp a) p (cell_value h r).
Proof.
  intros Hi Hr. revert h i Hi.
  induction acts as [|[a0 p0] acts IH]; intros h i Hi Hlt Hd; [discriminate Hi|].
  cbn [fold_left]. unfold result_objects in Hd. cbn [map flat_map fst] in Hd.
  fold (result_objects (map fst acts)) in Hd.
  destruct i as [|i].
  - injection Hi as -> ->. rewrite Hr in Hd. cbn [app] in Hd.
    rewrite fold_Finalize_other.
    + now apply Finalize_own.
    + now apply distinct_not_in.
  - assert (Hin : In r (result_objects (map fst acts))).
    { apply in_flat_map. exists a. split; [|rewrite Hr; now left].
      apply in_map_iff. exists (a, p). split; [reflexivity|].
      apply list_elem_of_In. eapply list_elem_of_lookup_2; eauto. }
    assert (Hd' : distinct (result_objects (map fst acts)) = true
                  /\ result_object (aOp a0) <> Some r).
    { destruct (result_object (aOp a0)) as [r0|]; [|split; [exact Hd | discriminate]].
      cbn [app distinct] in Hd. apply andb_true_iff in Hd as [Hne Hd]. split; [exact Hd|].
      apply negb_true_iff in Hne. intros [= ->].
      now apply (existsb_eqb_sym _ _ _ Hne Hin). }
    destruct Hd' as [Hd' Hne].
    rewrite (IH _ i Hi) by (rewrite ?length_Finalize; assumption).
    now rewrite Finalize_other.
Qed.

Lemma cell_value_mark_ready h r r' : cell_value (mark_ready h r') r = cell_value h r.
Proof.
  unfold cell_value, mark_ready. destruct (decide (r' = r)) as [->|Hne].
  - rewrite list_lookup_alter_eq. now destruct (h !! r).
  - now rewrite list_lookup_alter_ne.
Qed.

Lemma cell_value_fold_ready rs h r :
  cell_value (fold_left mark_ready rs h) r = cell_value h r.
Proof.
  revert h. induction rs as [|r' rs IH]; intros h; [reflexivity|].
  cbn. now rewrite IH, cell_value_mark_ready.
Qed.

Lemma fold_left_map_values {A B C} (g : A -> B) (f : C -> B -> C) l c :
  fold_left (fun q r => f q (g r)) l c = fold_left f (map g l) c.
Proof. revert c. induction l as [|x l IH]; intros c; [reflexivity|]. cbn. apply IH. Qed.


Lemma results_apart_spec acts h :
  results_apart acts h = true ->
  distinct (result_objects acts) = true
  /\ forall a r, In a acts -> result_object (aOp a) = Some r -> r < length h.
Proof.
  unfold results_apart. intros H. apply andb_true_iff in H as [Hd Hl].
  split; [exact Hd|]. intros a r Ha Hr.
  rewrite forallb_forall in Hl. apply Nat.ltb_lt. apply Hl.
  apply in_flat_map. exists a. split; [exact Ha|]. rewrite Hr. now left.
Qed.


Lemma split_last_action (acts : list (Action * value)) old a :
  map fst acts = old ++ [a] ->
  exists acts' p, acts = acts' ++ [(a, p)] /\ map fst acts' = old.
Proof.
  intros H. apply map_eq_app in H as (l1 & l2 & -> & H1 & H2).
  destruct l2 as [|[a' p] [|]]; try discriminate H2. injection H2 as ->.
  eauto.
Qed.

(** The loop, a [Foreach] action booked last on a node below filters only
    and no other [Foreach] pending: the callable is called on the rows the
    filter chain admits, in order. *)
Lemma loop_calls e tree f a old rows :
  aOp a = ForeachSlotOperation f ->
  forallb (fun a0 => negb (is_foreach a0)) old = true ->
  filters_only e (aPrev a) = true ->
  forall acts cnt amb,
    map fst acts = old ++ [a] ->
    snd (fold_left (process_row e tree) rows (acts, cnt, amb))
    = called_on e tree f (aBl a)
        (List.filter (fun r => passes e (aPrev a) (row_env e tree r)) rows) amb.
Proof.
  intros Hop Hold Hpath.
  induction rows as [|r rows IH]; intros acts cnt amb Hacts; [reflexivity|].
  cbn [fold_left List.filter process_row].
  destruct (split_last_action acts old a Hacts) as (acts' & p & -> & Hacts').
  pose proof (run_actions_actions (fNodes e) (row_env e tree r)
                (acts' ++ [(a, p)]) [] cnt amb) as Hsame.
  pose proof (run_actions_last (fNodes e) (row_env e tree r) acts' a p [] cnt amb) as Hlast.
  destruct (run_actions (fNodes e) (row_env e tree r) (acts' ++ [(a, p)]) [] cnt amb)
    as [[acts1 cnt1] amb1].
  cbn [fst snd] in Hsame, Hlast.
  rewrite IH by (rewrite Hsame, map_app; cbn; now rewrite Hacts').
  rewrite Hlast; cycle 1.
  { rewrite <- Hold, <- Hacts'. clear. induction acts' as [|ap l IH]; [reflexivity|].
    cbn. now rewrite IH. }
  { apply cache_ok_nil. }
  { exact Hpath. }
  fold (passes e (aPrev a) (row_env e tree r)).
  destruct (passes e (aPrev a) (row_env e tree r)); [|reflexivity].
  unfold Exec. rewrite Hop. reflexivity.
Qed.

Lemma passing_rows_book_on a e tree node :
  passing_rows (book_on a e) tree node = passing_rows e tree node.
Proof.
  unfold passing_rows. apply filter_ext. intros r.
  now rewrite passes_book_on, row_env_book_on.
Qed.


Lemma called_on_book_on a e tree f bl rows amb :
  called_on (book_on a e) tree f bl rows amb = called_on e tree f bl rows amb.
Proof.
  unfold called_on. revert amb. induction rows as [|r rows IH]; intros amb; [reflexivity|].
  cbn [fold_left]. now rewrite IH, row_env_book_on.
Qed.

Lemma result_objects_app l1 l2 :
  result_objects (l1 ++ l2) = result_objects l1 ++ result_objects l2.
Proof. apply flat_map_app. Qed.


(** ** Foreach *)




(** ** Snapshot *)

Lemma fold_Branch l t0 :
  fold_left (fun tr ba => TTree_Branch tr (fst ba) (snd ba)) l t0
  = {| fBranches := fBranches t0 ++ l; fEntries := fEntries t0 |}.
Proof.
  revert t0. induction l as [|[n a] l IH]; intros t0.
  - cbn. rewrite app_nil_r. now destruct t0.
  - cbn [fold_left]. rewrite IH. cbn. now rewrite <- app_assoc.
Qed.

Lemma read_bound env names :
  map (fun b : string * addr => read (slot_storage 0 env) (snd b))
      (combine names (map (pair 0%N) names))
  = values env names.
Proof.
  induction names as [|c names IH]; [reflexivity|].
  cbn [map combine values]. f_equal. exact IH.
Qed.

(** One call of [fillTree] on row [r]. *)
Lemma fillTree_step e tree bnames u adm r :
  fillTree_body bnames (map (pair 0%N) bnames) (slot_storage 0 (row_env e tree r))
    (filled e tree bnames u adm)
  = filled e tree bnames u (adm ++ [r]).
Proof.
  unfold fillTree_body, filled. destruct adm as [|x adm].
  - cbn [firstEvt t user written app]. rewrite fold_Branch. unfold TTree_Fill. cbn.
    now rewrite read_bound.
  - cbn [firstEvt t user written app]. unfold TTree_Fill. cbn [fBranches fEntries].
    rewrite read_bound. do 2 f_equal.
    change (x :: adm ++ [r]) with ((x :: adm) ++ [r]). now rewrite map_app.
Qed.

Lemma TFile_Get_RECREATE f n filename fs :
  String.eqb f filename = false ->
  TFile_Get f n (TFile_Open_RECREATE filename fs) = TFile_Get f n fs.
Proof.
  intros Hne. induction fs as [|[[f0 n0] t0] fs IH]; [reflexivity|].
  cbn [TFile_Open_RECREATE List.filter fst]. destruct (String.eqb_spec f0 filename) as [->|H0].
  - cbn [negb TFile_Get]. rewrite String.eqb_sym, Hne. cbn [andb]. exact IH.
  - cbn [negb TFile_Get]. unfold TFile_Open_RECREATE in IH. now rewrite IH.
Qed.

Lemma resolve_RECREATE src filename fs :
  read_elsewhere src filename = true ->
  resolve src (TFile_Open_RECREATE filename fs) = resolve src fs.
Proof.
  destruct src as [tr|n f]; [reflexivity|]. cbn. intros H. apply negb_true_iff in H.
  now rewrite TFile_Get_RECREATE.
Qed.

Lemma TFile_Get_written filename treename tr fs :
  TFile_Get filename treename (TTree_Write filename treename tr fs) = Some tr.
Proof. cbn. now rewrite !String.eqb_refl. Qed.

(** [fillTree] called on the rows [rows], one after the other. *)
Lemma called_on_fillTree e tree Args bnames u rows adm :
  called_on e tree (AddSlotParameter (fillTree Args bnames)) bnames rows
    (filled e tree bnames u adm)
  = filled e tree bnames u (adm ++ rows).
Proof.
  unfold called_on. revert adm. induction rows as [|r rows IH]; intros adm.
  - now rewrite app_nil_r.
  - cbn [fold_left invoke_slot]. rewrite fillTree_step, IH. now rewrite <- app_assoc.
Qed.

(** The event loop with the snapshot action booked: the tree [fillTree] has
    written holds the admitted rows. *)
Lemma Snapshot_loop e fs h u Args bnames node :
  forallb (fun a => negb (is_foreach a)) (fBookedActions e) = true ->
  filters_only e node = true ->
  snd (event_loop (book_on (snapshot_action Args bnames node) e) fs h
         {| firstEvt := true; t := new_TTree; user := u |})
  = filled e (resolve (fTree e) fs) bnames u
      (passing_rows e (resolve (fTree e) fs) node).
Proof.
  intros Hold Hpath. unfold event_loop. set (a := snapshot_action Args bnames node).
  erewrite (loop_calls (book_on a e) _ (AddSlotParameter (fillTree Args bnames)) a
              (fBookedActions e)); cycle 1.
  { reflexivity. }
  { exact Hold. }
  { now rewrite filters_only_book_on. }
  { rewrite map_map. cbn. apply map_id. }
  rewrite called_on_book_on.
  change (fTree (book_on a e)) with (fTree e).
  change {| firstEvt := true; t := new_TTree; user := u |}
    with (filled e (resolve (fTree e) fs) bnames u []).
  cbn [aBl aPrev a snapshot_action]. rewrite called_on_fillTree. cbn [app]. f_equal.
  apply (passing_rows_book_on a e (resolve (fTree e) fs) node).
Qed.

Lemma first_error_app l1 l2 :
  first_error (l1 ++ l2)
  = match first_error l1 with Some k => Some k | None => first_error l2 end.
Proof.
  induction l1 as [|[k|] l1 IH]; [reflexivity | reflexivity | exact IH].
Qed.

(** Booking an action adds its readers to those of the engine. *)
Lemma bind_columns_book_on a e tree :
  bind_columns (book_on a e) tree
  = match bind_columns e tree with
    | Some k => Some k
    | None => action_readers tree (fBookedBranches e) a
    end.
Proof.
  unfold bind_columns. cbn [fNodes fBookedBranches fBookedActions book_on set_nodes set_actions].
  rewrite map_app, app_assoc, first_error_app.
  replace (map (node_readers tree (fBookedBranches e))
             (alter IncrChildrenCount_node (aPrev a) (fNodes e)))
    with (map (node_readers tree (fBookedBranches e)) (fNodes e)).
  - destruct (first_error _); [reflexivity|]. cbn. now destruct (action_readers _ _ a).
  - apply list_eq. intros i. rewrite !list_lookup_fmap, lookup_counted.
    destruct (fNodes e !! i) as [nd|]; [|reflexivity]. cbn.
    destruct (decide (aPrev a = i)); reflexivity.
Qed.



Lemma uint_small n :
  (Z.of_nat n < 2 ^ 32)%Z -> uint (Z.of_N (N.of_nat n + 1) - 1) = N.of_nat n.
Proof.
  intros H. unfold uint.
  replace (Z.of_N (N.of_nat n + 1) - 1)%Z with (Z.of_nat n) by lia.
  rewrite Z.mod_small by lia. lia.
Qed.

Lemma Snapshot_names Args bnames defBl w :
  length Args = length bnames -> (Z.of_nat (length bnames) < 2 ^ 32)%Z ->
  PickBranchNames
    (uint (Z.of_N (SlotCallable_fgSize (AddSlotParameter (fillTree Args bnames))) - 1))
    (take (length Args) bnames) defBl w
  = (Ok bnames, w).
Proof.
  intros Hlen Hn. cbn [SlotCallable_fgSize]. unfold Callable_fgSize. cbn [Callable_Args_t].
  rewrite Hlen, uint_small by exact Hn.
  rewrite take_ge by lia. unfold PickBranchNames. now rewrite N.eqb_refl.
Qed.

Lemma SnapshotImpl_alive Args treename filename bnames this w e :
  lock w (fImplWeakPtr this) = Some e ->
  length Args = length bnames ->
  (Z.of_nat (length bnames) < 2 ^ 32)%Z ->
  firstEvt (ambient w) = true ->
  forallb (fun a => negb (is_foreach a)) (fBookedActions e) = true ->
  filters_only e (fProxiedPtr this) = true ->
  read_elsewhere (fTree e) filename = true ->
  bind_columns (book_on (snapshot_action Args bnames (fProxiedPtr this)) e)
    (resolve (fTree e) (files w)) = None ->
  exists w',
    TDF.SnapshotImpl Args treename filename bnames this w
    = (Ok {| fProxiedPtr := 0; fImplWeakPtr := length (engines w) |}, w')
    /\ TFile_Get filename treename (files w')
       = Some (written e (resolve (fTree e) (files w)) bnames
                 (passing_rows e (resolve (fTree e) (files w)) (fProxiedPtr this)))
    /\ lock w' (length (engines w))
       = Some (SetTree (TChain treename filename)
                 (new_TDataFrameImpl (InMemory new_TTree) bnames
                    (if fgImplicitMT w then fgPoolSize w else 1%N)))
    /\ firstEvt (ambient w') = true
    /\ user (ambient w') = user (ambient w).
Proof.
  intros Hlock Hlen Hsmall Hfirst Hold Hpath Hsrc Hbind.
  unfold TDF.SnapshotImpl. rewrite Hlen, Nat.eqb_refl. cbn [negb].
  unfold TDF.set_t, TDF.set_firstEvt, TDF.Foreach.
  unfold bind at 1. cbv beta iota.
  unfold bind at 1. cbv beta iota.
  unfold bind at 1.
  erewrite ForeachSlot_alive; cycle 1.
  { cbn. exact Hlock. }
  { rewrite <- Hlen. apply Snapshot_names; [exact Hlen | exact Hsmall]. }
  cbn [BranchTypes_t Callable_Args_t].
  fold (snapshot_action Args bnames (fProxiedPtr this)).
  erewrite Run_alive; cycle 1.
  { eapply lock_put_engine_eq; exact Hlock. }
  { cbn [files put_engine set_engines set_ambient set_files].
    change (fTree (book_on (snapshot_action Args bnames (fProxiedPtr this)) e))
      with (fTree e).
    rewrite resolve_RECREATE by exact Hsrc. exact Hbind. }
  cbn [files heap ambient put_engine set_engines set_ambient set_files set_heap
       firstEvt user t engines fgImplicitMT fgPoolSize].
  rewrite Hfirst, Snapshot_loop by assumption.
  rewrite resolve_RECREATE by exact Hsrc.
  unfold bind. cbv beta iota.
  cbn [files heap ambient put_engine set_engines set_ambient set_files set_heap
       firstEvt user t engines fgImplicitMT fgPoolSize filled].
  rewrite !length_insert.
  eexists. split; [reflexivity|].
  split; [cbn [files set_engines set_ambient set_files]; apply TFile_Get_written|].
  split; [|split; reflexivity].
  unfold lock. cbn [engines set_engines].
  rewrite list_lookup_middle by now rewrite !length_insert.
  reflexivity.
Qed.









(** ** Min, Max, Mean *)

(** C1 fails on the code for [Max]: the result object is seeded with
    [std::numeric_limits<double>::min()], the smallest positive double, so
    over the rows -1.0 and -2.0 [Max] returns 2^-1022 and not -1.0, while
    [Min] (seeded with the largest double) returns -2.0 and [Mean] -1.5.
    Seeded with [lowest()] the same fold returns -1.0. *)
Theorem Max_of_negative_values :
  fst ((p <- TDF.Max t_double "x" root ;; Get p) negative_world)
  = Ok (VDouble numeric_limits_min)
  /\ SFltb (double_of_Z (-1)) numeric_limits_min = true
  /\ fst ((p <- TDF.Min t_double "x" root ;; Get p) negative_world)
     = Ok (VDouble (double_of_Z (-2)))
  /\ fst ((p <- TDF.Mean t_double "x" root ;; Get p) negative_world)
     = Ok (VDouble (S754_finite true 6755399441055744 (-52)))
  /\ std_max (double_of_Z (-2)) (std_max (double_of_Z (-1)) numeric_limits_lowest)
     = double_of_Z (-1).
Proof. repeat split; vm_compute; reflexivity. Qed.

(** ** The filter chain of a handle *)

Lemma path_up_app (l1 l2 : list Node) fuel id :
  parents_first l1 -> id < length l1 ->
  path_up (l1 ++ l2) fuel id = path_up l1 fuel id.
Proof.
  intros Hwf. revert id. induction fuel as [|k IH]; intros id Hid; [reflexivity|].
  cbn [path_up]. destruct id as [|id']; [reflexivity|].
  rewrite lookup_app_l by exact Hid.
  destruct (l1 !! S id') as [nd|] eqn:Hnd; [|reflexivity].
  f_equal. apply IH. specialize (Hwf _ _ Hnd). lia.
Qed.

Lemma path_up_below (nodes : list Node) fuel id x :
  In x (path_up nodes fuel id) -> x < length nodes.
Proof.
  revert id. induction fuel as [|k IH]; intros id H; [destruct H|].
  cbn [path_up] in H. destruct id as [|id']; [destruct H|].
  destruct (nodes !! S id') as [nd|] eqn:Hnd; [|destruct H].
  destruct H as [<-|H]; [eapply lookup_lt_Some; eauto | eapply IH; eauto].
Qed.

Lemma parents_first_counted (nodes : list Node) i :
  parents_first nodes -> parents_first (alter IncrChildrenCount_node i nodes).
Proof.
  intros Hwf id nd H Hid. rewrite lookup_counted in H.
  destruct (nodes !! id) as [nd0|] eqn:Hnd; [|discriminate].
  injection H as <-. specialize (Hwf _ _ Hnd Hid). now destruct (decide (i = id)).
Qed.

(** The path to a node just appended is the path to its parent, then the
    node. *)
Lemma path_appended (nodes : list Node) i nd :
  parents_first nodes -> fPrevData nd < length nodes ->
  path (alter IncrChildrenCount_node i nodes ++ [nd]) (length nodes)
  = path nodes (fPrevData nd) ++ [length nodes].
Proof.
  intros Hwf Hp. unfold path. rewrite length_app, length_alter. cbn [length].
  replace (length nodes + 1) with (S (length nodes)) by lia.
  cbn [path_up]. destruct (length nodes) as [|n] eqn:Hn; [lia|].
  rewrite <- Hn in *.
  rewrite <- (length_alter IncrChildrenCount_node nodes i) at 1.
  rewrite list_lookup_middle by reflexivity.
  cbn [rev]. f_equal. f_equal.
  rewrite path_up_app
    by (try apply parents_first_counted; try rewrite length_alter; assumption).
  apply path_up_counted.
Qed.

Lemma gate_appended (nodes : list Node) i nd env id :
  id < length nodes ->
  gate (alter IncrChildrenCount_node i nodes ++ [nd]) env id = gate nodes env id.
Proof.
  intros H. unfold gate. rewrite lookup_app_l by now rewrite length_alter.
  now rewrite nKind_counted.
Qed.

Lemma path_up_enough (nodes : list Node) fuel1 fuel2 id :
  parents_first nodes -> id <= fuel1 -> id <= fuel2 ->
  path_up nodes fuel1 id = path_up nodes fuel2 id.
Proof.
  intros Hwf. revert fuel2 id. induction fuel1 as [|k IH]; intros fuel2 id H1 H2.
  - assert (id = 0) as -> by lia. now destruct fuel2.
  - destruct id as [|i]; [now destruct fuel2|].
    destruct fuel2 as [|k2]; [lia|]. cbn [path_up].
    destruct (nodes !! S i) as [nd|] eqn:Hnd; [|reflexivity].
    f_equal. pose proof (Hwf _ _ Hnd ltac:(lia)). apply IH; lia.
Qed.

Lemma path_kept (nodes : list Node) i nd id :
  parents_first nodes -> id < length nodes ->
  path (alter IncrChildrenCount_node i nodes ++ [nd]) id = path nodes id.
Proof.
  intros Hwf Hid. unfold path. f_equal.
  rewrite path_up_app
    by (first [now apply parents_first_counted | now rewrite length_alter]).
  rewrite path_up_counted, length_app, length_alter.
  apply path_up_enough; [exact Hwf | cbn; lia | lia].
Qed.

Lemma path_below (nodes : list Node) id x : In x (path nodes id) -> x < length nodes.
Proof. unfold path. intros H. apply in_rev in H. eapply path_up_below; eauto. Qed.

Lemma PickBranchNames_pure n bl defBl w : snd (PickBranchNames n bl defBl w) = w.
Proof.
  unfold PickBranchNames. destruct (_ =? _)%N; [reflexivity|]. now destruct (_ && _).
Qed.

Lemma Filter_alive f bn name this w e :
  lock w (fImplWeakPtr this) = Some e ->
  TDF.Filter f bn name this w =
  match fst (PickBranchNames (fgSize f) bn (fDefaultBranches e) w) with
  | Ok bl =>
      (Ok {| fProxiedPtr := length (fNodes e); fImplWeakPtr := fImplWeakPtr this |},
       put_engine (fImplWeakPtr this)
         (set_nodes
            (alter IncrChildrenCount_node (fProxiedPtr this) (fNodes e)
             ++ [{| nKind := FilterNode f bl name;
                    fPrevData := fProxiedPtr this; fNChildren := 0 |}])
            (fCounters e ++ [zero_counter]) e) w)
  | Throw k => (Throw k, w)
  end.
Proof.
  intros H. unfold TDF.Filter. unfold_members. do 2 tdf_step. unfold bind at 1.
  pose proof (PickBranchNames_pure (fgSize f) bn (fDefaultBranches e) w) as Hp.
  destruct (PickBranchNames (fgSize f) bn (fDefaultBranches e) w) as [[bl|k] w1];
    cbn in Hp; subst w1; [|reflexivity].
  unfold IncrChildrenCount, Book. repeat tdf_step. cbn. now rewrite length_alter.
Qed.

(** [Filter] adds its predicate to the filter chain: a row is admitted at
    the new node if and only if it is admitted at the node called on and the
    predicate accepts the values of its columns. *)
Lemma Filter_passes f bn name this w e :
  lock w (fImplWeakPtr this) = Some e ->
  parents_first (fNodes e) -> fProxiedPtr this < length (fNodes e) ->
  forall h w',
    TDF.Filter f bn name this w = (Ok h, w') ->
    exists e' bl,
      lock w' (fImplWeakPtr h) = Some e'
      /\ PickBranchNames (fgSize f) bn (fDefaultBranches e) w = (Ok bl, w)
      /\ forall env,
           passes e' (fProxiedPtr h) env
           = passes e (fProxiedPtr this) env && fcall f (values env bl).
Proof.
  intros Hlock Hwf Hthis h w' H. rewrite (Filter_alive _ _ _ _ _ e Hlock) in H.
  pose proof (PickBranchNames_pure (fgSize f) bn (fDefaultBranches e) w) as Hp.
  destruct (PickBranchNames (fgSize f) bn (fDefaultBranches e) w) as [[bl|k] w1];
    cbn in Hp, H; subst w1; [|discriminate].
  injection H as <- <-. eexists _, bl. split; [|split; [reflexivity|]].
  - cbn [fImplWeakPtr]. eapply lock_put_engine_eq; eauto.
  - intros env. unfold passes. cbn [fNodes set_nodes fProxiedPtr].
    rewrite (path_appended (fNodes e) (fProxiedPtr this)
               {| nKind := FilterNode f bl name; fPrevData := fProxiedPtr this;
                  fNChildren := 0 |}) by assumption.
    cbn [fPrevData]. rewrite forallb_app. cbn [forallb]. rewrite andb_true_r. f_equal.
    + apply forallb_same_in. intros id Hid. apply gate_appended.
      unfold path in Hid. apply in_rev in Hid. eapply path_up_below; eauto.
    + unfold gate.
      rewrite <- (length_alter IncrChildrenCount_node (fNodes e) (fProxiedPtr this)) at 1.
      now rewrite list_lookup_middle.
Qed.

(** ** A range in the event loop *)

Lemma seen_of_alter_ne f id (cnt : list Counter) rid :
  id <> rid -> seen_of (alter f id cnt) rid = seen_of cnt rid.
Proof. intros H. unfold seen_of. now rewrite list_lookup_alter_ne. Qed.

Lemma seen_of_count_seen (cnt : list Counter) rid :
  rid < length cnt -> seen_of (alter count_seen rid cnt) rid = (seen_of cnt rid + 1)%N.
Proof.
  intros H. unfold seen_of. rewrite list_lookup_alter_eq.
  destruct (lookup_lt_is_Some_2 cnt rid H) as [c ->]. reflexivity.
Qed.

(** The gates of a path are evaluated source side first, and the evaluation
    stops at the first that rejects the row. *)
Lemma CheckFilters_app nodes env p1 p2 cache cnt :
  CheckFilters nodes (p1 ++ p2) env cache cnt
  = let '(b, c1, n1) := CheckFilters nodes p1 env cache cnt in
    if b then CheckFilters nodes p2 env c1 n1 else (false, c1, n1).
Proof.
  revert cache cnt. induction p1 as [|id p1 IH]; intros cache cnt; [reflexivity|].
  cbn [app CheckFilters].
  destruct (nKind <$> nodes !! id) as [[|f bl name|name ex bl|start stop stride]|];
    try apply IH.
  - destruct (cache_find id cache) as [[|]|]; [apply IH | reflexivity |].
    destruct (fcall f (values env bl)); [apply IH | reflexivity].
  - destruct (cache_find id cache) as [[|]|]; [apply IH | reflexivity |].
    destruct (RangeAdmit start stop stride (seen_of cnt id)); [apply IH | reflexivity].
Qed.

(** The evaluation of a path leaves alone the verdict and the counter of a
    node that is not on it. *)
Lemma CheckFilters_untouched nodes env p rid cache cnt :
  ~ In rid p ->
  cache_find rid (snd (fst (CheckFilters nodes p env cache cnt))) = cache_find rid cache
  /\ seen_of (snd (CheckFilters nodes p env cache cnt)) rid = seen_of cnt rid.
Proof.
  revert cache cnt. induction p as [|id p IH]; intros cache cnt Hin; [now split|].
  assert (Hne : id <> rid) by (intros ->; apply Hin; now left).
  assert (Hin' : ~ In rid p) by (intros H; apply Hin; now right).
  assert (Hfind : forall b, cache_find rid ((id, b) :: cache) = cache_find rid cache).
  { intros b. cbn. destruct (Nat.eqb_spec id rid); [contradiction | reflexivity]. }
  cbn [CheckFilters].
  destruct (nKind <$> nodes !! id) as [[|f bl name|name ex bl|start stop stride]|];
    try (now apply IH).
  - destruct (cache_find id cache) as [[|]|]; [now apply IH | now split |].
    destruct (fcall f (values env bl)).
    + destruct (IH ((id, true) :: cache) (alter (count_filter true) id cnt) Hin') as [H1 H2].
      rewrite H1, H2, Hfind, seen_of_alter_ne by exact Hne. now split.
    + cbn [fst snd]. rewrite Hfind, seen_of_alter_ne by exact Hne. now split.
  - destruct (cache_find id cache) as [[|]|]; [now apply IH | now split |].
    destruct (RangeAdmit start stop stride (seen_of cnt id)).
    + destruct (IH ((id, true) :: cache) (alter count_seen id cnt) Hin') as [H1 H2].
      rewrite H1, H2, Hfind, seen_of_alter_ne by exact Hne. now split.
    + cbn [fst snd]. rewrite Hfind, seen_of_alter_ne by exact Hne. now split.
Qed.

Lemma run_actions_untouched nodes env rid acts cache cnt amb :
  (forall j a p, acts !! j = Some (a, p) -> ~ In rid (path nodes (aPrev a))) ->
  seen_of (snd (fst (run_actions nodes env acts cache cnt amb))) rid = seen_of cnt rid.
Proof.
  revert cache cnt amb. induction acts as [|[a0 p0] acts IH]; intros cache cnt amb H;
    [reflexivity|].
  cbn [run_actions].
  destruct (CheckFilters_untouched nodes env (path nodes (aPrev a0)) rid cache cnt
              (H 0 a0 p0 eq_refl)) as [_ Hs].
  destruct (CheckFilters nodes (path nodes (aPrev a0)) env cache cnt) as [[b c1] n1].
  cbn [snd] in Hs.
  destruct (if b then Exec (aOp a0) 0 (aBl a0) env p0 amb else (p0, amb)) as [p1 amb1].
  specialize (IH c1 n1 amb1 (fun j a p Hj => H (S j) a p Hj)).
  destruct (run_actions nodes env acts c1 n1 amb1) as [[rest' n2] amb2].
  cbn [fst snd] in *. congruence.
Qed.

(** One row, an action just below a range that no other action is below,
    with filters and derived columns only above the range: the range sees
    the row if the filters admit it, and the partial result is advanced if
    the range admits it too. *)
Lemma run_actions_ranged nodes env F rid nd start stop stride :
  nodes !! rid = Some nd -> nKind nd = RangeNode start stop stride ->
  forallb (fun id => negb (is_range nodes id)) F = true ->
  forall acts cache cnt amb i a p,
    acts !! i = Some (a, p) ->
    path nodes (aPrev a) = F ++ [rid] ->
    (forall j a' p', acts !! j = Some (a', p') -> j <> i ->
                     ~ In rid (path nodes (aPrev a'))) ->
    cache_ok nodes env cache -> cache_find rid cache = None -> rid < length cnt ->
    fst (fst (run_actions nodes env acts cache cnt amb)) !! i
    = Some (a, if forallb (gate nodes env) F
                  && RangeAdmit start stop stride (seen_of cnt rid)
               then accumulate (aOp a) (values env (aBl a)) p else p)
    /\ seen_of (snd (fst (run_actions nodes env acts cache cnt amb))) rid
       = (if forallb (gate nodes env) F then seen_of cnt rid + 1 else seen_of cnt rid)%N.
Proof.
  intros Hnd Hk HF.
  assert (HridF : ~ In rid F).
  { intros Hin. rewrite forallb_forall in HF. specialize (HF _ Hin).
    unfold is_range in HF. rewrite Hnd in HF. cbn in HF. rewrite Hk in HF. discriminate. }
  induction acts as [|[a0 p0] acts IH];
    intros cache cnt amb i a p Hi Hpath Hoth Hc Hfind Hlen; [discriminate Hi|].
  cbn [run_actions]. destruct i as [|i].
  - injection Hi as -> ->. rewrite Hpath, CheckFilters_app.
    pose proof (CheckFilters_filters nodes env F cache cnt Hc HF) as Hb.
    destruct (CheckFilters_untouched nodes env F rid cache cnt HridF) as [Hf1 Hs1].
    pose proof (CheckFilters_counters nodes F env cache cnt) as Hl1.
    destruct (CheckFilters nodes F env cache cnt) as [[b c1] n1].
    cbn [fst snd] in Hb, Hf1, Hs1, Hl1. subst b.
    destruct (forallb (gate nodes env) F); cbn [andb].
    + rewrite (CheckFilters_range nodes rid nd start stop stride env c1 n1 Hnd Hk)
        by congruence.
      rewrite Hs1.
      set (adm := RangeAdmit start stop stride (seen_of cnt rid)).
      destruct (if adm then Exec (aOp a) 0 (aBl a) env p amb else (p, amb))
        as [p1 amb1] eqn:Hex.
      pose proof (run_actions_untouched nodes env rid acts ((rid, adm) :: c1)
                    (alter count_seen rid n1) amb1
                    (fun j a' p' Hj => Hoth (S j) a' p' Hj ltac:(lia))) as Hrest.
      destruct (run_actions nodes env acts ((rid, adm) :: c1) (alter count_seen rid n1) amb1)
        as [[rest' n2] amb2].
      cbn [fst snd] in *. split.
      * cbn. f_equal. f_equal. destruct adm; unfold Exec in Hex; now injection Hex.
      * rewrite Hrest, seen_of_count_seen by lia. now rewrite Hs1.
    + pose proof (run_actions_untouched nodes env rid acts c1 n1 amb
                    (fun j a' p' Hj => Hoth (S j) a' p' Hj ltac:(lia))) as Hrest.
      destruct (run_actions nodes env acts c1 n1 amb) as [[rest' n2] amb2].
      cbn [fst snd] in *. split; [reflexivity | congruence].
  - assert (H0 : ~ In rid (path nodes (aPrev a0))) by (apply (Hoth 0 a0 p0 eq_refl); lia).
    pose proof (CheckFilters_cache_ok nodes env (path nodes (aPrev a0)) cache cnt Hc) as Hc1.
    destruct (CheckFilters_untouched nodes env (path nodes (aPrev a0)) rid cache cnt H0)
      as [Hf1 Hs1].
    pose proof (CheckFilters_counters nodes (path nodes (aPrev a0)) env cache cnt) as Hl1.
    destruct (CheckFilters nodes (path nodes (aPrev a0)) env cache cnt) as [[b c1] n1].
    cbn [fst snd] in Hc1, Hf1, Hs1, Hl1.
    destruct (if b then Exec (aOp a0) 0 (aBl a0) env p0 amb else (p0, amb)) as [p1 amb1].
    destruct (IH c1 n1 amb1 i a p Hi Hpath
                (fun j a' p' Hj Hne => Hoth (S j) a' p' Hj ltac:(lia)) Hc1
                ltac:(congruence) ltac:(lia)) as [IH1 IH2].
    destruct (run_actions nodes env acts c1 n1 amb1) as [[rest' n2] amb2].
    cbn [fst snd] in *. rewrite Hs1 in IH1, IH2. split; [exact IH1 | exact IH2].
Qed.

Lemma fold_left_app_if {A B} (f : A -> B -> A) (b : bool) (x : B) l a :
  fold_left f ((if b then [x] else []) ++ l) a = fold_left f l (if b then f a x else a).
Proof. now destruct b. Qed.

(** The loop, an action just below a range that no other action is below:
    its partial result is the one left by the rows the range admits among
    those the filters above it admit. *)
Lemma loop_ranged e tree F rid nd start stop stride i a :
  fNodes e !! rid = Some nd -> nKind nd = RangeNode start stop stride ->
  forallb (fun id => negb (is_range (fNodes e) id)) F = true ->
  path (fNodes e) (aPrev a) = F ++ [rid] ->
  forall rows acts cnt amb p,
    acts !! i = Some (a, p) ->
    (forall j a', map fst acts !! j = Some a' -> j <> i ->
                  ~ In rid (path (fNodes e) (aPrev a'))) ->
    rid < length cnt ->
    fst (fst (fold_left (process_row e tree) rows (acts, cnt, amb))) !! i
    = Some (a, fold_left (fun q r => accumulate (aOp a) (values (row_env e tree r) (aBl a)) q)
                 (range_gate start stop stride (seen_of cnt rid)
                    (List.filter (fun r => forallb (gate (fNodes e) (row_env e tree r)) F)
                       rows)) p).
Proof.
  intros Hnd Hk HF Hpath.
  induction rows as [|r rows IH]; intros acts cnt amb p Hi Hoth Hlen; [exact Hi|].
  cbn [fold_left List.filter process_row].
  destruct (run_actions_ranged (fNodes e) (row_env e tree r) F rid nd start stop stride
              Hnd Hk HF acts [] cnt amb i a p Hi Hpath) as [H1 H2].
  { intros j a' p' Hj Hne. apply (Hoth j a'); [|exact Hne].
    rewrite list_lookup_fmap, Hj. reflexivity. }
  { apply cache_ok_nil. }
  { reflexivity. }
  { exact Hlen. }
  pose proof (run_actions_actions (fNodes e) (row_env e tree r) acts [] cnt amb) as Hsame.
  pose proof (run_actions_counters (fNodes e) (row_env e tree r) acts [] cnt amb) as Hcnt.
  destruct (run_actions (fNodes e) (row_env e tree r) acts [] cnt amb)
    as [[acts1 cnt1] amb1].
  cbn [fst snd] in H1, H2, Hsame, Hcnt.
  rewrite (IH acts1 cnt1 amb1 _ H1) by (rewrite ?Hsame, ?Hcnt; assumption).
  f_equal. f_equal. rewrite H2.
  destruct (forallb (gate (fNodes e) (row_env e tree r)) F); cbn [andb range_gate].
  - now rewrite fold_left_app_if.
  - reflexivity.
Qed.

Lemma seen_of_reset cs rid : seen_of (map reset_seen cs) rid = 0%N.
Proof.
  unfold seen_of. change (map reset_seen cs) with (reset_seen <$> cs).
  rewrite list_lookup_fmap. now destruct (cs !! rid).
Qed.

(** A run that is not aborted leaves in the result object of an action just
    below a range what the specification says of the rows the range admits
    among those the filters above it admit, in order. *)
Lemma Run_result_ranged df w e i a r F rid nd start stop stride :
  lock w df = Some e ->
  bind_columns e (resolve (fTree e) (files w)) = None ->
  results_apart (fBookedActions e) (heap w) = true ->
  fBookedActions e !! i = Some a ->
  result_object (aOp a) = Some r ->
  fNodes e !! rid = Some nd -> nKind nd = RangeNode start stop stride ->
  forallb (fun id => negb (is_range (fNodes e) id)) F = true ->
  path (fNodes e) (aPrev a) = F ++ [rid] ->
  (forall j a', fBookedActions e !! j = Some a' -> j <> i ->
                ~ In rid (path (fNodes e) (aPrev a'))) ->
  rid < length (fCounters e) ->
  let tree := resolve (fTree e) (files w) in
  cell_value (heap (snd (Run df w))) r
  = result_over (aOp a) (cell_value (heap w) r)
      (map (fun row => values (row_env e tree row) (aBl a))
         (range_gate start stop stride 0
            (List.filter (fun row => forallb (gate (fNodes e) (row_env e tree row)) F)
               (seq 0 (GetEntries tree))))).
Proof.
  intros Hlock Hb Hap Hi Hr Hnd Hk HF Hpath Hoth Hlen tree.
  rewrite (Run_alive _ _ _ Hlock Hb). cbn [snd heap set_ambient set_heap].
  apply results_apart_spec in Hap as [Hd Hl].
  rewrite cell_value_fold_ready.
  assert (Hloop : fst (fst (event_loop e (files w) (heap w) (ambient w))) !! i
                  = Some (a, fold_left (fun q vs => accumulate (aOp a) vs q)
                               (map (fun row => values (row_env e tree row) (aBl a))
                                  (range_gate start stop stride 0
                                     (List.filter
                                        (fun row => forallb (gate (fNodes e)
                                                               (row_env e tree row)) F)
                                        (seq 0 (GetEntries tree)))))
                               (init_partial (heap w) (aOp a)))).
  { unfold event_loop. fold tree.
    erewrite (loop_ranged e tree F rid nd start stop stride i a Hnd Hk HF Hpath); cycle 1.
    - rewrite list_lookup_fmap, Hi. reflexivity.
    - intros j a' Hj. apply Hoth. rewrite map_map in Hj. cbn in Hj.
      now rewrite map_id in Hj.
    - now rewrite length_map.
    - rewrite seen_of_reset. f_equal. f_equal.
      apply (fold_left_map_values
               (fun row => values (row_env e tree row) (aBl a))
               (fun q vs => accumulate (aOp a) vs q)). }
  rewrite (fold_Finalize_value _ _ i a _ r Hloop Hr).
  - rewrite (init_partial_started _ _ _ Hr). now apply (finished_fold _ r).
  - apply (Hl a r); [|exact Hr]. apply list_elem_of_In. eapply list_elem_of_lookup_2; eauto.
  - now rewrite event_loop_actions.
Qed.

Lemma row_env_same_kinds e e' tree r :
  fBookedBranches e' = fBookedBranches e ->
  (forall b, In b (fBookedBranches e) ->
             nKind <$> fNodes e' !! snd b = nKind <$> fNodes e !! snd b) ->
  row_env e' tree r = row_env e tree r.
Proof.
  intros Hb Hk. unfold row_env. rewrite Hb. clear Hb. revert Hk.
  generalize (GetEntry tree r).
  induction (fBookedBranches e) as [|b bs IH]; intros env Hk; [reflexivity|].
  cbn [fold_left].
  assert (derive (fNodes e') env b = derive (fNodes e) env b) as ->
    by (unfold derive; now rewrite (Hk b (or_introl eq_refl))).
  apply IH. intros b' Hb'. apply Hk. now right.
Qed.

Lemma distinct_app_one l x : distinct l = true -> ~ In x l -> distinct (l ++ [x]) = true.
Proof.
  induction l as [|y l IH]; intros Hd Hx; [reflexivity|].
  cbn [app distinct] in *. apply andb_true_iff in Hd as [Hy Hd].
  apply andb_true_iff. split; [|apply IH; [exact Hd | intros H; apply Hx; now right]].
  apply negb_true_iff. apply negb_true_iff in Hy.
  rewrite existsb_app, Hy. cbn. rewrite orb_false_r. apply Nat.eqb_neq.
  intros ->. apply Hx. now left.
Qed.

(** A new result object, behind those of the heap, is apart from those of
    the actions pending. *)
Lemma results_apart_new acts a h c :
  results_apart acts h = true -> result_object (aOp a) = Some (length h) ->
  results_apart (acts ++ [a]) (h ++ [c]) = true.
Proof.
  intros H Ha. pose proof (results_apart_spec _ _ H) as [Hd Hl].
  unfold results_apart in *. apply andb_true_iff in H as [_ Hf].
  rewrite result_objects_app. unfold result_objects at 2 4. cbn [flat_map].
  rewrite Ha. cbn [app]. apply andb_true_iff. split.
  - apply distinct_app_one; [exact Hd|]. intros Hin.
    rewrite forallb_forall in Hf. specialize (Hf _ Hin). apply Nat.ltb_lt in Hf. lia.
  - rewrite forallb_app, length_app. cbn [length forallb]. apply andb_true_iff. split.
    + rewrite forallb_forall in Hf |- *. intros x Hx. specialize (Hf x Hx).
      apply Nat.ltb_lt in Hf. apply Nat.ltb_lt. lia.
    + rewrite andb_true_r. apply Nat.ltb_lt. lia.
Qed.

Lemma node_readers_counted tree booked (nodes : list Node) i :
  map (node_readers tree booked) (alter IncrChildrenCount_node i nodes)
  = map (node_readers tree booked) nodes.
Proof.
  apply list_eq. intros j. rewrite !list_lookup_fmap, lookup_counted.
  destruct (nodes !! j) as [nd|]; [|reflexivity]. cbn.
  destruct (decide (i = j)); reflexivity.
Qed.

(** A range reads no column: appending one leaves the readers as they
    were. *)
Lemma bind_columns_ranged e tree i start stop stride prev cs :
  bind_columns (set_nodes (alter IncrChildrenCount_node i (fNodes e)
                           ++ [{| nKind := RangeNode start stop stride; fPrevData := prev;
                                  fNChildren := 0 |}]) cs e) tree
  = bind_columns e tree.
Proof.
  unfold bind_columns. cbn [fNodes fBookedBranches fBookedActions set_nodes].
  rewrite map_app, node_readers_counted, !first_error_app. cbn.
  now destruct (first_error (map (node_readers tree (fBookedBranches e)) (fNodes e))).
Qed.

(** [Range] then [Take] of a column, then the reading of the result, in
    sequential mode on a node of a well-formed graph below filters only:
    the values of the column at the rows the range admits among those the
    filter chain of the node admits, in order. *)
Lemma Range_then_Take start stop stride T col this w e :
  lock w (fImplWeakPtr this) = Some e ->
  fgImplicitMT w = false ->
  (stride =? 0)%N || (negb (stop =? 0)%N && (stop <? start)%N) = false ->
  well_formed_engine e -> fProxiedPtr this < length (fNodes e) ->
  filters_only e (fProxiedPtr this) = true ->
  results_apart (fBookedActions e) (heap w) = true ->
  bind_columns e (resolve (fTree e) (files w)) = None ->
  reader_bind (resolve (fTree e) (files w)) (fBookedBranches e) col T = None ->
  col <> "" ->
  fst ((h <- TDF.Range start stop stride this ;; p <- TDF.Take T col h ;; Get p) w)
  = Ok (VVec (map (fun r => lookup_col (row_env e (resolve (fTree e) (files w)) r) col)
                (range_gate start stop stride 0
                   (passing_rows e (resolve (fTree e) (files w)) (fProxiedPtr this))))).
Proof.
  intros Hlock Hmt Hargs (Hpf & Hpos & Hcnt & Hacts & Hbr) Hthis Hfo Hap Hbind Hread Hcol.
  set (tree := resolve (fTree e) (files w)) in *.
  set (df := fImplWeakPtr this) in *.
  set (rid := length (fNodes e)).
  set (nd := {| nKind := RangeNode start stop stride; fPrevData := fProxiedPtr this;
                fNChildren := 0 |}).
  set (e1 := set_nodes (alter IncrChildrenCount_node (fProxiedPtr this) (fNodes e) ++ [nd])
               (fCounters e ++ [zero_counter]) e).
  set (w1 := put_engine df e1 w).
  set (ptr := length (heap w)).
  set (a := {| aOp := TakeOperation ptr (fNSlots e1); aTypes := [T]; aBl := [col];
               aPrev := rid |}).
  set (e2 := with_action a ptr e1).
  set (w2 := put_engine df e2
               (set_heap (heap w1 ++ [{| cValue := VVec []; cReady := false |}]) w1)).
  assert (Hlock1 : lock w1 df = Some e1) by (eapply lock_put_engine_eq; eauto).
  assert (Hlock2 : lock w2 df = Some e2).
  { eapply lock_put_engine_eq. apply lock_set_heap. exact Hlock1. }
  assert (Hnames : names_used [T] [col] (fDefaultBranches e1) = Some [col]).
  { unfold names_used, TDF.count_provided. cbn [fold_left length].
    apply String.eqb_neq in Hcol. rewrite Hcol. reflexivity. }
  assert (Hcall : (h <- TDF.Range start stop stride this ;; p <- TDF.Take T col h ;; Get p) w
                  = Get {| fObjPtr := ptr; fImplWeakPtrOfResult := df |} w2).
  { unfold bind at 1. rewrite Range_outcome, Hargs, Hmt. fold df. rewrite Hlock.
    fold nd e1 w1 rid. unfold bind at 1.
    rewrite (Take_alive T col {| fProxiedPtr := rid; fImplWeakPtr := df |} w1 e1 Hlock1).
    rewrite Hnames. reflexivity. }
  rewrite Hcall. unfold Get. cbn [fImplWeakPtrOfResult fObjPtr]. rewrite Hlock2.
  assert (Hready : cell_ready (heap w2) ptr = false) by apply cell_ready_new.
  rewrite Hready.
  assert (Htree : resolve (fTree e2) (files w2) = tree) by reflexivity.
  assert (Hbind2 : bind_columns e2 (resolve (fTree e2) (files w2)) = None).
  { rewrite Htree. change (bind_columns (book_on a e1) tree = None).
    rewrite bind_columns_book_on.
    pose proof (bind_columns_ranged e tree (fProxiedPtr this) start stop stride
                  (fProxiedPtr this) (fCounters e ++ [zero_counter])) as Hb1.
    change (bind_columns e1 tree = bind_columns e tree) in Hb1. rewrite Hb1, Hbind.
    unfold action_readers. cbn [aTypes aBl a bind_readers].
    change (fBookedBranches e1) with (fBookedBranches e). now rewrite Hread. }
  assert (Hkinds : forall id, id < rid ->
            nKind <$> fNodes e2 !! id = nKind <$> fNodes e !! id).
  { intros id Hid. change (fNodes e2)
      with (alter IncrChildrenCount_node rid
              (alter IncrChildrenCount_node (fProxiedPtr this) (fNodes e) ++ [nd])).
    rewrite nKind_counted, lookup_app_l by now rewrite length_alter.
    apply nKind_counted. }
  assert (Hrow : forall r, row_env e2 tree r = row_env e tree r).
  { intros r. apply row_env_same_kinds; [reflexivity|]. intros [name id] Hin.
    destruct (Hbr name id Hin) as (nd0 & ex & bl & Hnd0 & _). apply Hkinds.
    eapply lookup_lt_Some; eauto. }
  assert (Hpath : path (fNodes e2) rid = path (fNodes e) (fProxiedPtr this) ++ [rid]).
  { change (fNodes e2)
      with (alter IncrChildrenCount_node rid
              (alter IncrChildrenCount_node (fProxiedPtr this) (fNodes e) ++ [nd])).
    rewrite path_counted. now apply (path_appended (fNodes e) (fProxiedPtr this) nd). }
  pose proof (Run_alive df w2 e2 Hlock2 Hbind2) as Hrun.
  pose proof (Run_result_ranged df w2 e2 (length (fBookedActions e)) a ptr
                (path (fNodes e) (fProxiedPtr this)) rid (IncrChildrenCount_node nd)
                start stop stride Hlock2 Hbind2) as Hres.
  rewrite Hrun in Hres |- *. cbn [fst snd] in Hres |- *. f_equal.
  rewrite Hres; clear Hres.
  - rewrite Htree.
    replace (cell_value (heap w2) ptr) with (VVec []) by (symmetry; apply cell_value_new).
    cbn [result_over aOp a app]. f_equal. rewrite map_map.
    replace (List.filter
               (fun row => forallb (gate (fNodes e2) (row_env e2 tree row))
                             (path (fNodes e) (fProxiedPtr this)))
               (seq 0 (GetEntries tree)))
      with (passing_rows e tree (fProxiedPtr this)).
    + apply map_ext. intros r. now rewrite Hrow.
    + unfold passing_rows, passes. apply filter_ext. intros r. rewrite Hrow.
      apply forallb_same_in. intros id Hid. unfold gate.
      rewrite Hkinds; [reflexivity|]. eapply path_below; eauto.
  - apply results_apart_new; [exact Hap | reflexivity].
  - apply list_lookup_middle. reflexivity.
  - reflexivity.
  - change (fNodes e2)
      with (alter IncrChildrenCount_node rid
              (alter IncrChildrenCount_node (fProxiedPtr this) (fNodes e) ++ [nd])).
    rewrite list_lookup_alter_eq. unfold rid.
    rewrite <- (length_alter IncrChildrenCount_node (fNodes e) (fProxiedPtr this)).
    rewrite list_lookup_middle by reflexivity. reflexivity.
  - reflexivity.
  - unfold filters_only in Hfo. rewrite <- Hfo. apply forallb_same_in. intros id Hid.
    unfold is_range. rewrite Hkinds; [reflexivity|]. eapply path_below; eauto.
  - exact Hpath.
  - intros j a' Hj Hne Hin.
    change (fBookedActions e2) with (fBookedActions e ++ [a]) in Hj.
    assert (Hj' : fBookedActions e !! j = Some a').
    { destruct (Nat.lt_ge_cases j (length (fBookedActions e))) as [Hlt|Hge].
      - now rewrite lookup_app_l in Hj.
      - rewrite lookup_app_r in Hj by exact Hge.
        destruct (j - length (fBookedActions e)) as [|k] eqn:Hk; [lia|discriminate Hj]. }
    assert (Ha' : aPrev a' < length (fNodes e)).
    { apply Hacts. apply list_elem_of_In. eapply list_elem_of_lookup_2; eauto. }
    change (fNodes e2)
      with (alter IncrChildrenCount_node rid
              (alter IncrChildrenCount_node (fProxiedPtr this) (fNodes e) ++ [nd])) in Hin.
    rewrite path_counted, path_kept in Hin by assumption.
    apply path_below in Hin. unfold rid in Hin. lia.
  - change (fCounters e2) with (fCounters e ++ [zero_counter]).
    rewrite length_app. cbn [length]. unfold rid. lia.
Qed.

(** ** Range(stop) *)

Lemma Range_stop_arguments stop :
  (1 =? 0)%N || (negb (stop =? 0)%N && (stop <? 0)%N) = false.
Proof.
  replace (stop <? 0)%N with false by (symmetry; apply N.ltb_ge; lia).
  now rewrite andb_false_r.
Qed.

Lemma range_gate_first_rows stop rows : range_gate 0 stop 1 0 rows = first_rows stop rows.
Proof.
  unfold first_rows. destruct (N.eqb_spec stop 0) as [->|Hs].
  - apply range_gate_unbounded.
  - rewrite range_gate_first by assumption. now rewrite N.sub_0_r.
Qed.

Lemma filtered_engine_well_formed e :
  lock filtered_world 0 = Some e -> well_formed_engine e.
Proof.
  intros [= <-]. split; [|split; [|split; [|split]]].
  - intros id nd H Hid. destruct id as [|[|id]]; [contradiction | | discriminate H].
    injection H as <-. cbn. lia.
  - cbn. lia.
  - reflexivity.
  - intros a [].
  - intros name id [].
Qed.

(** C9: [Range(stop)] is [Range(0, stop, 1)]: the same outcome in every
    world, hence the same construction-time failures: never
    [InvalidArgument], since the stride is 1 and no stop is below 0;
    [Unsupported] under implicit multi-threading; else [EngineGone] on a
    released engine. On a live engine in sequential mode it appends the
    range with start 0, the stop given and stride 1 as a child of the node
    called on. And in the event loop that range admits the first [stop] rows
    that reach it, or all of them when [stop] is 0: in sequential mode, on a
    node of a well-formed graph below filters only, a [Take] booked on the
    handle returned collects the values of its column at exactly the first
    [stop] rows that pass the filter chain of the node called on, in
    ascending order (the readers bind, and the result objects of the
    pending actions are apart). *)
Theorem Range_stop_is_Range_0_stop_1 (stop : N) this w :
  TDF.Range_stop stop this w = TDF.Range 0 stop 1 this w
  /\ fst (TDF.Range_stop stop this w)
     = (if fgImplicitMT w then Throw Unsupported
        else match lock w (fImplWeakPtr this) with
             | None => Throw EngineGone
             | Some e => Ok {| fProxiedPtr := length (fNodes e);
                               fImplWeakPtr := fImplWeakPtr this |}
             end)
  /\ (forall e,
        lock w (fImplWeakPtr this) = Some e -> fgImplicitMT w = false ->
        exists e',
          lock (snd (TDF.Range_stop stop this w)) (fImplWeakPtr this) = Some e'
          /\ fNodes e' !! length (fNodes e)
             = Some {| nKind := RangeNode 0 stop 1; fPrevData := fProxiedPtr this;
                       fNChildren := 0 |}
          /\ length (fNodes e') = S (length (fNodes e)))
  /\ (forall e T col,
        lock w (fImplWeakPtr this) = Some e ->
        fgImplicitMT w = false -> fNSlots e = 1%N ->
        well_formed_engine e -> fProxiedPtr this < length (fNodes e) ->
        filters_only e (fProxiedPtr this) = true ->
        results_apart (fBookedActions e) (heap w) = true ->
        bind_columns e (resolve (fTree e) (files w)) = None ->
        reader_bind (resolve (fTree e) (files w)) (fBookedBranches e) col T = None ->
        col <> "" ->
        fst ((h <- TDF.Range_stop stop this ;; p <- TDF.Take T col h ;; Get p) w)
        = Ok (VVec (map (fun r => lookup_col (row_env e (resolve (fTree e) (files w)) r) col)
                      (first_rows stop
                         (passing_rows e (resolve (fTree e) (files w))
                            (fProxiedPtr this)))))).
Proof.
  split; [reflexivity|]. unfold TDF.Range_stop. split; [|split].
  - rewrite Range_outcome, Range_stop_arguments.
    destruct (fgImplicitMT w); [reflexivity|].
    now destruct (lock w (fImplWeakPtr this)).
  - intros e Hlock Hmt. rewrite Range_outcome, Range_stop_arguments, Hmt, Hlock.
    cbn [snd]. eexists. split; [eapply lock_put_engine_eq; exact Hlock|].
    cbn [fNodes set_nodes]. split.
    + rewrite <- (length_alter IncrChildrenCount_node (fNodes e) (fProxiedPtr this)).
      now rewrite list_lookup_middle.
    + rewrite length_app, length_alter. cbn. lia.
  - intros e T col Hlock Hmt Hslots Hwf Hthis Hfo Hap Hbind Hread Hcol.
    rewrite <- range_gate_first_rows.
    apply Range_then_Take; try assumption. apply Range_stop_arguments.
Qed.

Lemma Range_stop_is_Range_0_stop_1_witness :
  fst ((h <- TDF.Range_stop 3 filtered ;; p <- TDF.Take t_int "y" h ;; Get p) filtered_world)
  = Ok (VVec [VInt 0; VInt 2; VInt 4])
  /\ fst (TDF.Range_stop 3 filtered (released_world false)) = Throw EngineGone.
Proof.
  destruct (Range_stop_is_Range_0_stop_1 3 filtered filtered_world) as (_ & _ & _ & H).
  destruct (Range_stop_is_Range_0_stop_1 3 filtered (released_world false))
    as (_ & H0 & _).
  split; [|exact H0].
  refine (eq_trans
            (H _ t_int "y" eq_refl eq_refl eq_refl
               (filtered_engine_well_formed _ eq_refl) _ eq_refl eq_refl eq_refl eq_refl _)
            _).
  - cbn. lia.
  - discriminate.
  - reflexivity.
Defined.


(** ** The scenarios of the specification, run on the model *)

(** S4: twenty rows, [Range(2, 12, 3)] then [Take] of [x]. *)
Example scenario_Range :
  fst ((h <- TDF.Range 2 12 3 root ;; p <- TDF.Take t_int "x" h ;; Get p)
         (make_world false (make_tree [("x", int_column)] 20) []))
  = Ok (VVec [VInt 2; VInt 5; VInt 8; VInt 11]).
Proof. vm_compute. reflexivity. Qed.

(** [Range(3)] lets the first three rows through. *)
Example scenario_Range_stop :
  fst ((h <- TDF.Range_stop 3 root ;; p <- TDF.Take t_int "x" h ;; Get p)
         (make_world false (make_tree [("x", int_column)] 20) []))
  = Ok (VVec [VInt 0; VInt 1; VInt 2]).
Proof. vm_compute. reflexivity. Qed.

(** S1, on ten rows: [Filter(x < 5)] then [Count]. *)
Example scenario_Count :
  fst ((h <- TDF.Filter below_5 ["x"] "" root ;; p <- TDF.Count h ;; Get p) snapshot_world)
  = Ok (VUInt 5).
Proof. vm_compute. reflexivity. Qed.

(** S6: [Filter(x < 5)], [Snapshot] of [x] and [y], then [Take] of [y] on
    the handle returned. *)
Example scenario_Snapshot :
  fst ((h <- TDF.Filter below_5 ["x"] "" root ;;
        s <- TDF.Snapshot "t" "f" ["x"; "y"] h ;;
        p <- TDF.Take t_int "y" s ;; Get p) snapshot_world)
  = Ok (VVec [VInt 0; VInt 2; VInt 4; VInt 6; VInt 8]).
Proof. vm_compute. reflexivity. Qed.

(** A lazy [Count] booked before an instant [Foreach] is materialized by the
    loop the [Foreach] triggers: its handle is ready when [Foreach] returns. *)
Example scenario_Foreach_materializes :
  (let w := snd ((p <- TDF.Count root ;; TDF.ForeachSlot collect ["x"] root) counting_world)
   in (cell_ready (heap w) 0, cell_value (heap w) 0, user (ambient w)))
  = (true, VUInt 3, [VInt 0; VInt 1; VInt 2]).
Proof. vm_compute. reflexivity. Qed.

(** * Further properties of the code *)

(** ** The version macros *)

Lemma ROOT_VERSION_weighted a b c : ROOT_VERSION a b c = (a * 65536 + b * 256 + c)%Z.
Proof. unfold ROOT_VERSION. now rewrite !Z.shiftl_mul_pow2 by lia. Qed.

(** [ROOT_VERSION] orders versions as releases are ordered, major number
    first, as long as the major numbers are below 2^15, so that the codes
    fit an [int], and the minor and patch numbers are below 256: this is
    what [#if ROOT_VERSION_CODE >= ROOT_VERSION(a,b,c)] relies on. *)
Theorem ROOT_VERSION_orders_releases (a b c a' b' c' : Z) :
  (0 <= a < 2 ^ 15)%Z -> (0 <= b < 256)%Z -> (0 <= c < 256)%Z ->
  (0 <= a' < 2 ^ 15)%Z -> (0 <= b' < 256)%Z -> (0 <= c' < 256)%Z ->
  ((ROOT_VERSION a b c < ROOT_VERSION a' b' c')%Z
   <-> version_before (a, b, c) (a', b', c'))
  /\ (0 <= ROOT_VERSION a b c < 2 ^ 31)%Z /\ (0 <= ROOT_VERSION a' b' c' < 2 ^ 31)%Z.
Proof.
  intros Ha Hb Hc Ha' Hb' Hc'. rewrite !ROOT_VERSION_weighted. unfold version_before.
  change (2 ^ 15)%Z with 32768%Z in Ha, Ha'. change (2 ^ 31)%Z with 2147483648%Z. lia.
Qed.

Lemma ROOT_VERSION_orders_releases_witness :
  (ROOT_VERSION 2 23 4 < ROOT_VERSION_CODE)%Z
  /\ ((ROOT_VERSION 2 23 4 < ROOT_VERSION 5 4 0)%Z <-> version_before (2, 23, 4) (5, 4, 0))%Z.
Proof.
  split; [reflexivity|].
  apply (ROOT_VERSION_orders_releases 2 23 4 5 4 0); lia.
Defined.

(** The numbers of a release can be read back from its code by shifts and
    masks when the minor and patch numbers are below 256; the code fits a
    32-bit [int] when the major number is below 2^15; and the code the file
    defines is the one of release 5.04/00. Out of these bounds two releases
    can have one code. *)
Theorem ROOT_VERSION_decodes (a b c : Z) :
  (0 <= a < 2 ^ 15)%Z -> (0 <= b < 256)%Z -> (0 <= c < 256)%Z ->
  Z.shiftr (ROOT_VERSION a b c) 16 = a
  /\ Z.land (Z.shiftr (ROOT_VERSION a b c) 8) 255 = b
  /\ Z.land (ROOT_VERSION a b c) 255 = c
  /\ (0 <= ROOT_VERSION a b c < 2 ^ 31)%Z
  /\ ROOT_VERSION 5 4 0 = ROOT_VERSION_CODE
  /\ ROOT_VERSION 0 1 0 = ROOT_VERSION 0 0 256.
Proof.
  intros Ha Hb Hc. rewrite !ROOT_VERSION_weighted.
  change 255%Z with (Z.ones 8). rewrite !Z.land_ones by lia.
  rewrite !Z.shiftr_div_pow2 by lia.
  change (2 ^ 16)%Z with 65536%Z. change (2 ^ 8)%Z with 256%Z.
  change (2 ^ 15)%Z with 32768%Z in Ha. change (2 ^ 31)%Z with 2147483648%Z.
  repeat split; try lia.
  - symmetry. apply (Z.div_unique _ 65536 a (b * 256 + c)); lia.
  - replace (a * 65536 + b * 256 + c)%Z with ((a * 256 + b) * 256 + c)%Z by lia.
    replace (((a * 256 + b) * 256 + c) / 256)%Z with (a * 256 + b)%Z
      by (apply (Z.div_unique _ 256 _ c); lia).
    symmetry. apply (Z.mod_unique _ 256 a b); lia.
  - symmetry. apply (Z.mod_unique _ 256 (a * 256 + b) c); lia.
Qed.

Lemma ROOT_VERSION_decodes_witness :
  Z.shiftr (ROOT_VERSION 5 4 0) 16 = 5%Z
  /\ Z.land (Z.shiftr (ROOT_VERSION 5 4 0) 8) 255 = 4%Z
  /\ Z.land (ROOT_VERSION 5 4 0) 255 = 0%Z.
Proof.
  destruct (ROOT_VERSION_decodes 5 4 0) as (H1 & H2 & H3 & _); [lia | lia | lia |].
  split; [exact H1|]. split; [exact H2 | exact H3].
Defined.

(** ** What no call does *)

Section Always.
Context (R : World -> World -> Prop) `{!Frame R}.

Lemma always_bind {A B} (m : M A) (k : A -> M B) :
  always R m -> (forall a, always R (k a)) -> always R (bind m k).
Proof.
  intros Hm Hk w. unfold bind. specialize (Hm w).
  destruct (m w) as [[a|e] w1]; cbn in Hm; [|exact Hm].
  eapply frame_trans; [exact Hm | apply Hk].
Qed.

Lemma always_pure {A} (m : M A) : (forall w, snd (m w) = w) -> always R m.
Proof. intros Hm w. rewrite Hm. apply frame_refl. Qed.

Lemma always_ret {A} (a : A) : always R (ret a).
Proof. now apply always_pure. Qed.
Lemma always_throw {A} e : always R (@throw A e).
Proof. now apply always_pure. Qed.
Lemma always_impl {A} df (f : TDataFrameImpl -> A) : always R (impl df f).
Proof. apply always_pure. intros w. unfold impl. now destruct (lock w df). Qed.
Lemma always_GetTree df : always R (GetTree df).
Proof. apply always_pure. intros w. unfold GetTree. now destruct (lock w df). Qed.
Lemma always_checked this : always R (TDF.GetDataFrameChecked this).
Proof.
  apply always_pure. intros w. unfold TDF.GetDataFrameChecked.
  now destruct (lock w (fImplWeakPtr this)).
Qed.
Lemma always_PickBranchNames n bl defBl : always R (PickBranchNames n bl defBl).
Proof. apply always_pure. intros w. apply PickBranchNames_pure. Qed.
Lemma always_CheckTmpBranch name tree : always R (CheckTmpBranch name tree).
Proof. apply always_pure. intros w. unfold CheckTmpBranch. now destruct (existsb _ _). Qed.
Lemma always_types bl tree booked :
  always R (mapM (fun b => ColumnName2ColumnTypeName b tree booked) bl).
Proof.
  apply always_pure. apply mapM_pure. intros. apply ColumnName2ColumnTypeName_pure.
Qed.
Lemma always_GetBranchNames types bl msg this :
  always R (TDF.GetBranchNames types bl msg this).
Proof. apply always_pure. intros w. apply GetBranchNames_pure. Qed.
Lemma always_IsImplicitMTEnabled : always R IsImplicitMTEnabled.
Proof. now apply always_pure. Qed.
Lemma always_compile {A} (f : World -> A) : always R (fun w => (Ok (f w), w)).
Proof. now apply always_pure. Qed.

(** A member call of the engine. *)
Lemma always_update df f :
  (forall w e, lock w df = Some e -> R w (put_engine df (f e) w)) ->
  always R (update df f).
Proof.
  intros Hf w. unfold update. destruct (lock w df) as [e|] eqn:Hlock; cbn.
  - now apply Hf.
  - apply frame_refl.
Qed.
End Always.

Lemma engine_extends_refl e : engine_extends e e.
Proof.
  repeat split; try reflexivity. intros id nd H. exists nd. repeat split; [exact H | lia].
Qed.

Lemma engine_extends_trans e1 e2 e3 :
  engine_extends e1 e2 -> engine_extends e2 e3 -> engine_extends e1 e3.
Proof.
  intros (Ht & Hd & Hs & Hb & Hn) (Ht' & Hd' & Hs' & Hb' & Hn').
  repeat split; try congruence.
  - etransitivity; eauto.
  - intros id nd H. destruct (Hn id nd H) as (nd1 & H1 & Hk & Hp & Hc).
    destruct (Hn' id nd1 H1) as (nd2 & H2 & Hk' & Hp' & Hc').
    exists nd2. repeat split; [exact H2 | congruence | congruence | lia].
Qed.

#[local] Instance graph_grows_frame : Frame graph_grows.
Proof.
  split.
  - intros w. repeat split. intros df e H. exists e. split; [exact H | apply engine_extends_refl].
  - intros w1 w2 w3 (Hm & Hp & He) (Hm' & Hp' & He'). repeat split; try congruence.
    intros df e H. destruct (He df e H) as (e2 & H2 & Hx).
    destruct (He' df e2 H2) as (e3 & H3 & Hx'). exists e3. split; [exact H3|].
    eapply engine_extends_trans; eauto.
Qed.

Lemma grows_put_engine w df e e' :
  lock w df = Some e -> engine_extends e e' -> graph_grows w (put_engine df e' w).
Proof.
  intros H Hx. repeat split. intros df' e0 H0.
  destruct (decide (df = df')) as [<-|Hne].
  - rewrite H in H0. injection H0 as <-. exists e'. split; [|exact Hx].
    eapply lock_put_engine_eq; eauto.
  - exists e0. split; [|apply engine_extends_refl]. now rewrite lock_put_engine_ne.
Qed.

Lemma grows_outside w w' :
  fgImplicitMT w' = fgImplicitMT w -> fgPoolSize w' = fgPoolSize w ->
  (exists more, engines w' = engines w ++ more) -> graph_grows w w'.
Proof.
  intros Hm Hp [more He]. repeat split; try assumption. intros df e H. exists e.
  split; [|apply engine_extends_refl]. apply lock_Some in H. unfold lock.
  rewrite He, lookup_app_l by (eapply lookup_lt_Some; eauto). now rewrite H.
Qed.

Lemma extends_same_nodes e e' :
  fTree e' = fTree e -> fDefaultBranches e' = fDefaultBranches e -> fNSlots e' = fNSlots e ->
  fBookedBranches e' = fBookedBranches e -> fNodes e' = fNodes e -> engine_extends e e'.
Proof.
  intros Ht Hd Hs Hb Hn. repeat split; try assumption.
  - now rewrite Hb.
  - intros id nd H. exists nd. rewrite Hn. repeat split; [exact H | lia].
Qed.

Lemma grows_IncrChildrenCount df node : always graph_grows (IncrChildrenCount df node).
Proof.
  apply always_update; [apply _|]. intros w e H. eapply grows_put_engine; eauto.
  repeat split; try reflexivity. intros id nd Hnd. cbn.
  destruct (decide (node = id)) as [->|Hne].
  - rewrite list_lookup_alter_eq, Hnd. cbn. eexists. split; [reflexivity|]. cbn.
    repeat split; lia.
  - rewrite list_lookup_alter_ne by exact Hne. exists nd. repeat split; [exact Hnd | lia].
Qed.

Lemma grows_Book df nd : always graph_grows (Book df nd).
Proof.
  unfold Book. apply always_bind; [apply _ | apply always_impl; apply _ |]. intros id.
  apply always_bind; [apply _ | | intros; apply always_ret; apply _].
  apply always_update; [apply _|]. intros w e H. eapply grows_put_engine; eauto.
  repeat split; try reflexivity. intros i x Hx. exists x. cbn.
  rewrite lookup_app_l by (eapply lookup_lt_Some; eauto). repeat split; [exact Hx | lia].
Qed.

Lemma grows_BookBranch df name nd : always graph_grows (BookBranch df name nd).
Proof.
  unfold BookBranch. apply always_bind; [apply _ | apply grows_Book |]. intros id.
  apply always_bind; [apply _ | | intros; apply always_ret; apply _].
  apply always_update; [apply _|]. intros w e H. eapply grows_put_engine; eauto.
  repeat split; try reflexivity.
  - cbn. now apply prefix_app_r.
  - intros i x Hx. exists x. repeat split; [exact Hx | lia].
Qed.

Lemma grows_BookAction df a : always graph_grows (BookAction df a).
Proof.
  apply always_update; [apply _|]. intros w e H. eapply grows_put_engine; eauto.
  now apply extends_same_nodes.
Qed.

Lemma grows_MakeActionResultProxy r df : always graph_grows (MakeActionResultProxy r df).
Proof.
  unfold MakeActionResultProxy.
  apply always_bind; [apply _ | | intros; apply always_ret; apply _].
  apply always_update; [apply _|]. intros w e H. eapply grows_put_engine; eauto.
  now apply extends_same_nodes.
Qed.

Lemma grows_make_shared v : always graph_grows (make_shared v).
Proof. intros w. apply grows_outside; try reflexivity. exists []. cbn. now rewrite app_nil_r. Qed.

Lemma grows_Run df : always graph_grows (Run df).
Proof.
  intros w. unfold Run. destruct (lock w df) as [e|] eqn:Hlock; [|apply frame_refl].
  destruct (bind_columns e (resolve (fTree e) (files w))); [apply frame_refl|].
  destruct (event_loop e (files w) (heap w) (ambient w)) as [[acts cnt] amb]. cbn [snd].
  eapply frame_trans; [eapply grows_put_engine; eauto|].
  - apply (extends_same_nodes e (ran e cnt)); reflexivity.
  - apply grows_outside; try reflexivity. exists []. cbn. now rewrite app_nil_r.
Qed.

Lemma grows_NodeReport df node : always graph_grows (NodeReport df node).
Proof.
  unfold NodeReport. apply always_bind; [apply _ | apply always_impl; apply _ |]. intros ls w.
  apply grows_outside; try reflexivity. exists []. cbn. now rewrite app_nil_r.
Qed.

Create HintDb grows.
#[local] Hint Resolve grows_IncrChildrenCount grows_Book grows_BookBranch grows_BookAction
  grows_MakeActionResultProxy grows_make_shared grows_Run grows_NodeReport : grows.

(** The steps that leave the world as it is, for any relation. *)
Ltac frame_base :=
  first
    [ apply always_ret | apply always_throw | apply always_impl | apply always_GetTree
    | apply always_checked | apply always_PickBranchNames | apply always_CheckTmpBranch
    | apply always_types | apply always_GetBranchNames | apply always_IsImplicitMTEnabled
    | apply always_compile ];
  apply _.

Ltac frame db :=
  lazymatch goal with
  | |- always _ (bind _ _) => apply always_bind; [apply _ | frame db | intros; frame db]
  | |- always _ (if ?b then _ else _) => destruct b; frame db
  | |- always _ (match ?c with Some _ => _ | None => _ end) =>
      destruct c as [[? ?]|]; cbn beta iota; frame db
  | |- _ => first [ frame_base | solve [auto with db] ]
  end.

Lemma grows_BuildAndBook at_ types bl r nSlots this :
  always graph_grows (TDF.BuildAndBook at_ types bl r nSlots this).
Proof. unfold TDF.BuildAndBook. destruct at_; frame grows. Qed.

#[local] Hint Resolve grows_BuildAndBook : grows.

Lemma grows_CreateAction at_ types bl r this :
  always graph_grows (TDF.CreateAction at_ types bl r this).
Proof.
  unfold TDF.CreateAction, TDF.JitBuildAndBook, TDF.CallBuildAndBook. unfold_members.
  frame grows.
Qed.

Lemma grows_ForeachSlot f bl this : always graph_grows (TDF.ForeachSlot f bl this).
Proof. unfold TDF.ForeachSlot. unfold_members. frame grows. Qed.

#[local] Hint Resolve grows_CreateAction grows_ForeachSlot : grows.

Lemma grows_SnapshotImpl ts tn fn bnames this :
  always graph_grows (TDF.SnapshotImpl ts tn fn bnames this).
Proof.
  unfold TDF.SnapshotImpl, TDF.Foreach, TDF.set_t, TDF.set_firstEvt.
  destruct (negb _); [frame grows|].
  repeat (apply always_bind; [apply _ | | intros _]);
    try apply grows_ForeachSlot;
    intros w; apply grows_outside; try reflexivity;
    first [ exists []; cbn; now rewrite app_nil_r | eexists; reflexivity ].
Qed.

#[local] Hint Resolve grows_SnapshotImpl : grows.


(** ** What the lazy calls leave alone *)

Lemma still_pending_refl e : still_pending e e.
Proof. repeat split; reflexivity. Qed.

Lemma cell_ready_prefix (h h' : list Cell) r :
  h `prefix_of` h' -> r < length h -> cell_ready h' r = cell_ready h r.
Proof.
  intros [k ->] Hr. unfold cell_ready. now rewrite lookup_app_l.
Qed.

#[local] Instance nothing_ran_frame : Frame nothing_ran.
Proof.
  split.
  - intros w. repeat split; try reflexivity.
    + intros r Hr. unfold cell_ready. now rewrite lookup_ge_None_2.
    + intros df e H. exists e. split; [exact H | apply still_pending_refl].
  - intros w1 w2 w3 (Hf & Ha & Ho & Hh & Hn & He) (Hf' & Ha' & Ho' & Hh' & Hn' & He').
    repeat split; try congruence.
    + etransitivity; eauto.
    + intros r Hr. destruct (Nat.le_gt_cases (length (heap w2)) r) as [Hge|Hlt].
      * now apply Hn'.
      * rewrite (cell_ready_prefix _ _ _ Hh' Hlt). now apply Hn.
    + intros df e H. destruct (He df e H) as (e2 & H2 & Hr & Hb & Hp & Hc).
      destruct (He' df e2 H2) as (e3 & H3 & Hr' & Hb' & Hp' & Hc').
      exists e3. split; [exact H3|].
      repeat split; [congruence | etransitivity; eauto ..].
Qed.

Lemma nothing_ran_put_engine w df e e' :
  lock w df = Some e -> still_pending e e' -> nothing_ran w (put_engine df e' w).
Proof.
  intros H Hx. repeat split; try reflexivity.
  - intros r Hr. unfold cell_ready. cbn. now rewrite lookup_ge_None_2.
  - intros df' e0 H0. destruct (decide (df = df')) as [<-|Hne].
    + rewrite H in H0. injection H0 as <-. exists e'. split; [|exact Hx].
      eapply lock_put_engine_eq; eauto.
    + exists e0. split; [|apply still_pending_refl]. now rewrite lock_put_engine_ne.
Qed.

Lemma lazy_IncrChildrenCount df node : always nothing_ran (IncrChildrenCount df node).
Proof.
  apply always_update; [apply _|]. intros w e H. eapply nothing_ran_put_engine; eauto.
  repeat split; reflexivity.
Qed.

Lemma lazy_Book df nd : always nothing_ran (Book df nd).
Proof.
  unfold Book. apply always_bind; [apply _ | apply always_impl; apply _ |]. intros id.
  apply always_bind; [apply _ | | intros; apply always_ret; apply _].
  apply always_update; [apply _|]. intros w e H. eapply nothing_ran_put_engine; eauto.
  repeat split; try reflexivity. cbn. now apply prefix_app_r.
Qed.

Lemma lazy_BookBranch df name nd : always nothing_ran (BookBranch df name nd).
Proof.
  unfold BookBranch. apply always_bind; [apply _ | apply lazy_Book |]. intros id.
  apply always_bind; [apply _ | | intros; apply always_ret; apply _].
  apply always_update; [apply _|]. intros w e H. eapply nothing_ran_put_engine; eauto.
  repeat split; reflexivity.
Qed.

Lemma lazy_BookAction df a : always nothing_ran (BookAction df a).
Proof.
  apply always_update; [apply _|]. intros w e H. eapply nothing_ran_put_engine; eauto.
  repeat split; try reflexivity. cbn. now apply prefix_app_r.
Qed.

Lemma lazy_MakeActionResultProxy r df : always nothing_ran (MakeActionResultProxy r df).
Proof.
  unfold MakeActionResultProxy.
  apply always_bind; [apply _ | | intros; apply always_ret; apply _].
  apply always_update; [apply _|]. intros w e H. eapply nothing_ran_put_engine; eauto.
  repeat split; try reflexivity. cbn. now apply prefix_app_r.
Qed.

Lemma lazy_make_shared v : always nothing_ran (make_shared v).
Proof.
  intros w. repeat split; try reflexivity.
  - cbn. now apply prefix_app_r.
  - intros r Hr. unfold cell_ready. cbn.
    destruct (decide (r = length (heap w))) as [->|Hne].
    + now rewrite list_lookup_middle.
    + rewrite lookup_ge_None_2; [reflexivity|]. rewrite length_app. cbn. lia.
  - intros df e H. exists e. split; [exact H | apply still_pending_refl].
Qed.

Create HintDb lazy.
#[local] Hint Resolve lazy_IncrChildrenCount lazy_Book lazy_BookBranch lazy_BookAction
  lazy_MakeActionResultProxy lazy_make_shared : lazy.

Lemma lazy_BuildAndBook at_ types bl r nSlots this :
  always nothing_ran (TDF.BuildAndBook at_ types bl r nSlots this).
Proof. unfold TDF.BuildAndBook. destruct at_; frame lazy. Qed.

#[local] Hint Resolve lazy_BuildAndBook : lazy.

(** The transformations and the lazy actions run nothing, whether they
    return or throw: the files, the memory of the user's callables and the
    output are as before; every result object there was holds what it held,
    ready or not; a result object made by the call is not ready; no engine
    is marked as having run, and the actions pending stay pending, in their
    order. *)
Theorem lazy_calls_run_nothing (c : Call) this w :
  runs_loop c = false -> nothing_ran w (snd (invoke c this w)).
Proof.
  intros Hc. revert w. change (always nothing_ran (invoke c this)).
  destruct c; try discriminate Hc; cbn [invoke];
    unfold returns_node, returns_result, returns_void,
      TDF.Filter_name, TDF.Histo1D_name, TDF.Histo1D_weighted_names, TDF.Histo1D_VW,
      TDF.Histo2D_VW, TDF.Histo3D_VW, TDF.Profile1D_VW, TDF.Profile2D_VW, TDF.Reduce,
      TDF.Range_stop,
      TDF.Histo1D, TDF.Histo1D_weighted, TDF.Histo2D, TDF.Histo2D_weighted,
      TDF.Histo3D, TDF.Histo3D_weighted, TDF.Profile1D, TDF.Profile1D_weighted,
      TDF.Profile2D, TDF.Profile2D_weighted, TDF.Fill_typed, TDF.Fill,
      TDF.Min, TDF.Max, TDF.Mean,
      TDF.Filter_expression, TDF.InterpretCall_Filter, TDF.Define_expression,
      TDF.InterpretCall_Define, TDF.Filter, TDF.Define, TDF.Range, TDF.Reduce_init,
      TDF.Count, TDF.Take,
      TDF.CreateAction, TDF.JitBuildAndBook, TDF.CallBuildAndBook;
    unfold_members; cbv zeta; frame lazy.
Qed.

Lemma lazy_calls_run_nothing_witness :
  runs_loop (Call_Take t_int "x") = false
  /\ nothing_ran counting_world (snd (invoke (Call_Take t_int "x") root counting_world)).
Proof.
  split; [reflexivity|].
  apply (lazy_calls_run_nothing (Call_Take t_int "x") root counting_world). reflexivity.
Defined.

(** ** A call that throws has changed nothing *)

Lemma atomic_bind {A B} (m : M A) (k : A -> M B) :
  changes_nothing m -> (forall a, atomic (k a)) -> atomic (bind m k).
Proof.
  intros Hm Hk w e w' H. unfold bind in H. specialize (Hm w).
  destruct (m w) as [[a|e1] w1]; cbn in Hm; subst w1.
  - eapply Hk; eauto.
  - now injection H as _ <-.
Qed.

Lemma atomic_alive_bind {A B} df (m : M A) (k : A -> M B) :
  changes_nothing m -> (forall a, atomic_alive df (k a)) -> atomic_alive df (bind m k).
Proof.
  intros Hm Hk w Hw e w' H. unfold bind in H. specialize (Hm w).
  destruct (m w) as [[a|e1] w1]; cbn in Hm; subst w1.
  - eapply Hk; eauto.
  - now injection H as _ <-.
Qed.

Lemma atomic_checked {B} this (k : nat -> M B) :
  atomic_alive (fImplWeakPtr this) (k (fImplWeakPtr this)) ->
  atomic (bind (TDF.GetDataFrameChecked this) k).
Proof.
  intros Hk w e w' H. unfold bind, TDF.GetDataFrameChecked in H.
  destruct (lock w (fImplWeakPtr this)) as [e0|] eqn:Hlock.
  - eapply Hk; eauto. now exists e0.
  - now injection H as _ <-.
Qed.

Lemma atomic_alive_weaken {A} df (m : M A) : atomic m -> atomic_alive df m.
Proof. intros Hm w _. apply Hm. Qed.

Lemma atomic_alive_safe {A} df (m : M A) : safe df m -> atomic_alive df m.
Proof.
  intros Hm w Hw e w' H. destruct (Hm w Hw) as (a & w1 & H1 & _). congruence.
Qed.

Lemma atomic_changes_nothing {A} (m : M A) : changes_nothing m -> atomic m.
Proof. intros Hm w e w' H. specialize (Hm w). now rewrite H in Hm. Qed.

Lemma safe_bind {A B} df (m : M A) (k : A -> M B) :
  safe df m -> (forall a, safe df (k a)) -> safe df (bind m k).
Proof.
  intros Hm Hk w Hw. destruct (Hm w Hw) as (a & w1 & H1 & Hw1).
  unfold bind. rewrite H1. now apply Hk.
Qed.

Lemma safe_ret {A} df (a : A) : safe df (ret a).
Proof. intros w Hw. now exists a, w. Qed.

Lemma safe_impl {A} df (f : TDataFrameImpl -> A) : safe df (impl df f).
Proof. intros w [e He]. exists (f e), w. unfold impl. rewrite He. split; [reflexivity | now exists e]. Qed.

Lemma safe_GetTree df : safe df (GetTree df).
Proof.
  intros w [e He]. eexists _, w. unfold GetTree. rewrite He.
  split; [reflexivity | now exists e].
Qed.

Lemma safe_checked this : safe (fImplWeakPtr this) (TDF.GetDataFrameChecked this).
Proof.
  intros w [e He]. eexists _, w. unfold TDF.GetDataFrameChecked. rewrite He.
  split; [reflexivity | now exists e].
Qed.

Lemma safe_checked_bind {B} this (k : nat -> M B) :
  safe (fImplWeakPtr this) (k (fImplWeakPtr this)) ->
  safe (fImplWeakPtr this) (bind (TDF.GetDataFrameChecked this) k).
Proof.
  intros Hk w Hw. unfold bind, TDF.GetDataFrameChecked.
  destruct Hw as [e He]. rewrite He. apply Hk. now exists e.
Qed.

Lemma safe_update df f : safe df (update df f).
Proof.
  intros w [e He]. eexists tt, _. unfold update. rewrite He. split; [reflexivity|].
  eexists. eapply lock_put_engine_eq; eauto.
Qed.

Lemma safe_outside {A} df (m : M A) :
  (forall w, exists a w', m w = (Ok a, w') /\ engines w' = engines w) -> safe df m.
Proof.
  intros Hm w [e He]. destruct (Hm w) as (a & w' & H & Heq). exists a, w'.
  split; [exact H|]. exists e. unfold lock. now rewrite Heq.
Qed.

Lemma safe_make_shared df v : safe df (make_shared v).
Proof. apply safe_outside. intros w. now eexists _, _. Qed.

Lemma safe_IncrChildrenCount df node : safe df (IncrChildrenCount df node).
Proof. apply safe_update. Qed.
Lemma safe_BookAction df a : safe df (BookAction df a).
Proof. apply safe_update. Qed.

Lemma safe_Book df nd : safe df (Book df nd).
Proof.
  unfold Book. apply safe_bind; [apply safe_impl|]. intros id.
  apply safe_bind; [apply safe_update | intros; apply safe_ret].
Qed.

Lemma safe_BookBranch df name nd : safe df (BookBranch df name nd).
Proof.
  unfold BookBranch. apply safe_bind; [apply safe_Book|]. intros id.
  apply safe_bind; [apply safe_update | intros; apply safe_ret].
Qed.

Lemma safe_MakeActionResultProxy r df : safe df (MakeActionResultProxy r df).
Proof.
  unfold MakeActionResultProxy. apply safe_bind; [apply safe_update | intros; apply safe_ret].
Qed.

Lemma safe_NodeReport df node : safe df (NodeReport df node).
Proof.
  unfold NodeReport. apply safe_bind; [apply safe_impl|]. intros ls.
  apply safe_outside. intros w. now eexists _, _.
Qed.

Create HintDb safe.
#[local] Hint Resolve safe_ret safe_impl safe_GetTree safe_checked safe_update
  safe_make_shared safe_IncrChildrenCount safe_BookAction safe_Book safe_BookBranch
  safe_MakeActionResultProxy safe_NodeReport : safe.

Ltac safe :=
  lazymatch goal with
  | |- safe _ (bind (TDF.GetDataFrameChecked _) _) => apply safe_checked_bind; safe
  | |- safe _ (bind _ _) => apply safe_bind; [safe | intros; safe]
  | |- safe _ (if ?b then _ else _) => destruct b; safe
  | |- _ => solve [auto with safe]
  end.

Lemma safe_BuildAndBook at_ types bl r nSlots this :
  safe (fImplWeakPtr this) (TDF.BuildAndBook at_ types bl r nSlots this).
Proof. unfold TDF.BuildAndBook. destruct at_; cbv zeta; safe. Qed.

#[local] Hint Resolve safe_BuildAndBook : safe.

Lemma changes_nothing_impl {A} df (f : TDataFrameImpl -> A) : changes_nothing (impl df f).
Proof. intros w. unfold impl. now destruct (lock w df). Qed.
Lemma changes_nothing_GetTree df : changes_nothing (GetTree df).
Proof. intros w. unfold GetTree. now destruct (lock w df). Qed.
Lemma changes_nothing_PickBranchNames n bl defBl : changes_nothing (PickBranchNames n bl defBl).
Proof. intros w. apply PickBranchNames_pure. Qed.
Lemma changes_nothing_CheckTmpBranch name tree : changes_nothing (CheckTmpBranch name tree).
Proof. intros w. unfold CheckTmpBranch. now destruct (existsb _ _). Qed.
Lemma changes_nothing_types bl tree booked :
  changes_nothing (mapM (fun b => ColumnName2ColumnTypeName b tree booked) bl).
Proof.
  unfold changes_nothing. apply mapM_pure. intros. apply ColumnName2ColumnTypeName_pure.
Qed.
Lemma changes_nothing_GetBranchNames types bl msg this :
  changes_nothing (TDF.GetBranchNames types bl msg this).
Proof. intros w. apply GetBranchNames_pure. Qed.
Lemma changes_nothing_IsImplicitMTEnabled : changes_nothing IsImplicitMTEnabled.
Proof. now intros w. Qed.
Lemma changes_nothing_compile {A} (f : World -> A) : changes_nothing (fun w => (Ok (f w), w)).
Proof. now intros w. Qed.
Lemma changes_nothing_ret {A} (a : A) : changes_nothing (ret a).
Proof. now intros w. Qed.
Lemma changes_nothing_throw {A} e : changes_nothing (@throw A e).
Proof. now intros w. Qed.

Create HintDb pure.
#[local] Hint Resolve changes_nothing_impl changes_nothing_GetTree
  changes_nothing_PickBranchNames changes_nothing_CheckTmpBranch changes_nothing_types
  changes_nothing_GetBranchNames changes_nothing_IsImplicitMTEnabled
  changes_nothing_compile changes_nothing_ret changes_nothing_throw : pure.

Lemma atomic_alive_assoc {A B C} df (m : M A) (k1 : A -> M B) (k2 : B -> M C) :
  atomic_alive df (bind m (fun a => bind (k1 a) k2)) ->
  atomic_alive df (bind (bind m k1) k2).
Proof. intros H w Hw e w' Hb. rewrite bind_assoc in Hb. eapply H; eauto. Qed.

(** A method is a chain of checks that change nothing, followed by steps
    that cannot fail once the engine has been found. *)
Ltac atom :=
  lazymatch goal with
  | |- atomic_alive _ (bind (bind _ _) _) => apply atomic_alive_assoc; atom
  | |- atomic (bind (TDF.GetDataFrameChecked _) _) => apply atomic_checked; atom
  | |- atomic (bind _ _) => apply atomic_bind; [solve [auto with pure] | intros; atom]
  | |- atomic (if ?b then _ else _) => destruct b; atom
  | |- atomic (match ?c with Some _ => _ | None => _ end) =>
      destruct c as [[? ?]|]; cbn beta iota; atom
  | |- atomic_alive _ (if ?b then _ else _) => destruct b; atom
  | |- atomic_alive _ (match ?c with Some _ => _ | None => _ end) =>
      destruct c as [[? ?]|]; cbn beta iota; atom
  | |- atomic_alive _ (bind _ _) =>
      first [ apply atomic_alive_safe; solve [safe]
            | apply atomic_alive_bind; [solve [auto with pure] | intros; atom] ]
  | |- atomic_alive _ _ =>
      first [ apply atomic_alive_safe; solve [safe]
            | apply atomic_alive_weaken; atom ]
  | |- atomic _ => first [ apply atomic_changes_nothing; solve [auto with pure]
                         | solve [auto with atomic] ]
  end.

Create HintDb atomic.

Lemma atomic_map {A B} (m : M A) (f : A -> B) :
  atomic m -> atomic (bind m (fun a => ret (f a))).
Proof.
  intros Hm w e w' H. unfold bind in H. destruct (m w) as [[a|e1] w1] eqn:Hmw.
  - discriminate H.
  - injection H as <- <-. eapply Hm; eauto.
Qed.

Lemma atomic_Filter f bn name this : atomic (TDF.Filter f bn name this).
Proof. unfold TDF.Filter. unfold_members. atom. Qed.

Lemma atomic_Define name e bl this : atomic (TDF.Define name e bl this).
Proof. unfold TDF.Define. unfold_members. atom. Qed.

#[local] Hint Resolve atomic_Filter atomic_Define : atomic.

Lemma atomic_Filter_expression e name this : atomic (TDF.Filter_expression e name this).
Proof.
  unfold TDF.Filter_expression, TDF.InterpretCall_Filter. unfold_members. atom.
Qed.

Lemma atomic_Define_expression name e this : atomic (TDF.Define_expression name e this).
Proof.
  unfold TDF.Define_expression, TDF.InterpretCall_Define. unfold_members. atom.
Qed.

Lemma atomic_Range start stop stride this : atomic (TDF.Range start stop stride this).
Proof. unfold TDF.Range. atom. Qed.

Lemma atomic_Reduce_init f T bn init this : atomic (TDF.Reduce_init f T bn init this).
Proof. unfold TDF.Reduce_init. unfold_members. atom. Qed.

Lemma atomic_Count this : atomic (TDF.Count this).
Proof. unfold TDF.Count. unfold_members. atom. Qed.

Lemma atomic_Take T bn this : atomic (TDF.Take T bn this).
Proof. unfold TDF.Take. unfold_members. atom. Qed.

Lemma atomic_CreateAction at_ types bl r this : atomic (TDF.CreateAction at_ types bl r this).
Proof.
  unfold TDF.CreateAction, TDF.JitBuildAndBook, TDF.CallBuildAndBook. unfold_members. atom.
Qed.

#[local] Hint Resolve atomic_Filter_expression atomic_Define_expression atomic_Range
  atomic_Reduce_init atomic_Count atomic_Take atomic_CreateAction : atomic.

(** Every call that does not run the event loop (every transformation and
    every lazy action: all but [Foreach], [ForeachSlot], [Snapshot] and
    [Report]) leaves the world exactly as it was when it throws: each method
    makes its checks before it books anything, and once the engine has been
    found nothing it does to the graph can fail. *)
Theorem failed_call_changes_nothing (c : Call) this w k w' :
  runs_loop c = false -> invoke c this w = (Throw k, w') -> w' = w.
Proof.
  intros Hc. revert w k w'. change (atomic (invoke c this)).
  destruct c; try discriminate Hc; cbn [invoke];
    unfold returns_node, returns_result, returns_void; apply atomic_map;
    unfold TDF.Filter_name, TDF.Histo1D_name, TDF.Histo1D_weighted_names, TDF.Histo1D_VW,
      TDF.Histo2D_VW, TDF.Histo3D_VW, TDF.Profile1D_VW, TDF.Profile2D_VW, TDF.Reduce,
      TDF.Range_stop,
      TDF.Histo1D, TDF.Histo1D_weighted, TDF.Histo2D, TDF.Histo2D_weighted,
      TDF.Histo3D, TDF.Histo3D_weighted, TDF.Profile1D, TDF.Profile1D_weighted,
      TDF.Profile2D, TDF.Profile2D_weighted, TDF.Fill_typed, TDF.Fill,
      TDF.Min, TDF.Max, TDF.Mean;
    cbv zeta; atom.
Qed.

Lemma failed_call_changes_nothing_witness :
  runs_loop (Call_Histo3D t_int t_int t_int default_TH1F "x" "y" "z") = false
  /\ fst (invoke (Call_Histo3D t_int t_int t_int default_TH1F "x" "y" "z") root
            histogram_world)
     = Throw Unsupported
  /\ snd (invoke (Call_Histo3D t_int t_int t_int default_TH1F "x" "y" "z") root
            histogram_world)
     = histogram_world.
Proof.
  split; [reflexivity|]. split; [reflexivity|].
  exact (failed_call_changes_nothing
           (Call_Histo3D t_int t_int t_int default_TH1F "x" "y" "z") root histogram_world
           Unsupported _ eq_refl eq_refl).
Defined.

(** ** Snapshot *)

Lemma TFile_Get_recreated filename treename fs :
  TFile_Get filename treename (TFile_Open_RECREATE filename fs) = None.
Proof.
  induction fs as [|[[f0 n0] t0] fs IH]; [reflexivity|].
  cbn [TFile_Open_RECREATE List.filter fst].
  destruct (String.eqb_spec f0 filename) as [->|H0]; cbn [negb]; [exact IH|].
  cbn [TFile_Get]. apply String.eqb_neq in H0. rewrite H0. cbn [andb]. exact IH.
Qed.

(** [SnapshotImpl] with as many types as names is the recreation of the
    file, then [Foreach] on [fillTree], then the writing of the tree and the
    making of the new data frame. *)
Lemma SnapshotImpl_steps Args treename filename bnames this w :
  length Args = length bnames ->
  TDF.SnapshotImpl Args treename filename bnames this w
  = match TDF.ForeachSlot (AddSlotParameter (fillTree Args bnames)) bnames this
            (set_ambient {| firstEvt := firstEvt (ambient w); t := new_TTree;
                            user := user (ambient w) |}
               (set_files (TFile_Open_RECREATE filename (files w)) w)) with
    | (Ok _, w3) =>
        (Ok {| fProxiedPtr := 0; fImplWeakPtr := length (engines w3) |},
         set_engines
           (engines w3
            ++ [Some (SetTree (TChain treename filename)
                        (new_TDataFrameImpl (InMemory new_TTree) bnames
                           (if fgImplicitMT w3 then fgPoolSize w3 else 1%N)))])
           (set_ambient {| firstEvt := true; t := t (ambient w3); user := user (ambient w3) |}
              (set_files (TTree_Write filename treename (t (ambient w3)) (files w3)) w3)))
    | (Throw k, w3) => (Throw k, w3)
    end.
Proof.
  intros Hlen. unfold TDF.SnapshotImpl. rewrite Hlen, Nat.eqb_refl. cbn [negb].
  unfold TDF.set_t, TDF.set_firstEvt, TDF.Foreach.
  unfold bind at 1. cbv beta iota.
  unfold bind at 1. cbv beta iota.
  unfold bind at 1. rewrite take_ge by lia.
  destruct (TDF.ForeachSlot _ _ _ _) as [[u|k] w3]; reflexivity.
Qed.

(** The world in which the loop of a snapshot is run: the file recreated,
    the tree of [fillTree] empty, the action booked. *)
Lemma Snapshot_Foreach Args filename bnames this w e :
  lock w (fImplWeakPtr this) = Some e ->
  length Args = length bnames ->
  (Z.of_nat (length bnames) < 2 ^ 32)%Z ->
  TDF.ForeachSlot (AddSlotParameter (fillTree Args bnames)) bnames this
    (set_ambient {| firstEvt := firstEvt (ambient w); t := new_TTree;
                    user := user (ambient w) |}
       (set_files (TFile_Open_RECREATE filename (files w)) w))
  = Run (fImplWeakPtr this)
      (put_engine (fImplWeakPtr this)
         (book_on (snapshot_action Args bnames (fProxiedPtr this)) e)
         (set_ambient {| firstEvt := firstEvt (ambient w); t := new_TTree;
                         user := user (ambient w) |}
            (set_files (TFile_Open_RECREATE filename (files w)) w))).
Proof.
  intros Hlock Hlen Hsmall.
  erewrite ForeachSlot_alive; [reflexivity | exact Hlock |].
  pose proof (Snapshot_names Args bnames (fDefaultBranches e)
                (set_ambient {| firstEvt := firstEvt (ambient w); t := new_TTree;
                                user := user (ambient w) |}
                   (set_files (TFile_Open_RECREATE filename (files w)) w)) Hlen Hsmall) as H.
  rewrite Hlen, take_ge in H by lia. exact H.
Qed.

(** The typed [Snapshot] checks the number of types first, then recreates
    the output file, and only then looks for the engine, books its action
    and runs the loop. With a wrong number of types it throws and nothing
    has changed. With the right number and an engine that has been released
    it throws after the file has been recreated: whatever tree the file held
    is gone, while the engines and the result objects are as before. With
    the right number and a live engine whose readers do not bind it throws
    the error of the readers, again after the file has been recreated, and
    the action it has booked stays on the engine. When the readers bind it
    returns the handle of a new engine. *)
Theorem Snapshot_typed_outcomes Args treename filename bnames this w :
  (Z.of_nat (length bnames) < 2 ^ 32)%Z ->
  let outcome := TDF.Snapshot_typed Args treename filename bnames this w in
  (length Args <> length bnames -> outcome = (Throw ArityMismatch, w))
  /\ (length Args = length bnames -> lock w (fImplWeakPtr this) = None ->
      fst outcome = Throw EngineGone
      /\ files (snd outcome) = TFile_Open_RECREATE filename (files w)
      /\ (forall name, TFile_Get filename name (files (snd outcome)) = None)
      /\ engines (snd outcome) = engines w /\ heap (snd outcome) = heap w)
  /\ (length Args = length bnames ->
      forall e, lock w (fImplWeakPtr this) = Some e ->
      let a := snapshot_action Args bnames (fProxiedPtr this) in
      let tree := resolve (fTree e) (TFile_Open_RECREATE filename (files w)) in
      (forall k, bind_columns (book_on a e) tree = Some k ->
         fst outcome = Throw k
         /\ files (snd outcome) = TFile_Open_RECREATE filename (files w)
         /\ (forall name, TFile_Get filename name (files (snd outcome)) = None)
         /\ lock (snd outcome) (fImplWeakPtr this) = Some (book_on a e)
         /\ heap (snd outcome) = heap w)
      /\ (bind_columns (book_on a e) tree = None ->
          fst outcome = Ok {| fProxiedPtr := 0; fImplWeakPtr := length (engines w) |})).
Proof.
  intros Hsmall outcome. subst outcome. unfold TDF.Snapshot_typed. split; [|split].
  - intros Hne. unfold TDF.SnapshotImpl. now apply Nat.eqb_neq in Hne as ->.
  - intros Hlen Hlock. rewrite (SnapshotImpl_steps _ _ _ _ _ _ Hlen).
    rewrite ForeachSlot_released by exact Hlock. cbn.
    split; [reflexivity|]. split; [reflexivity|].
    split; [|split; reflexivity].
    intros name. apply TFile_Get_recreated.
  - intros Hlen e Hlock. set (a := snapshot_action Args bnames (fProxiedPtr this)).
    rewrite (SnapshotImpl_steps _ _ _ _ _ _ Hlen).
    rewrite (Snapshot_Foreach _ _ _ _ _ e Hlock Hlen Hsmall). fold a.
    split.
    + intros k Hbind. erewrite Run_aborted; cycle 1.
      { eapply lock_put_engine_eq. exact Hlock. }
      { exact Hbind. }
      cbn [fst snd files heap put_engine set_engines set_ambient set_files].
      split; [reflexivity|]. split; [reflexivity|].
      split; [intros name; apply TFile_Get_recreated|].
      split; [|reflexivity].
      change (lock (put_engine (fImplWeakPtr this) (book_on a e)
                      (set_ambient {| firstEvt := firstEvt (ambient w); t := new_TTree;
                                      user := user (ambient w) |}
                         (set_files (TFile_Open_RECREATE filename (files w)) w)))
                (fImplWeakPtr this) = Some (book_on a e)).
      eapply lock_put_engine_eq. exact Hlock.
    + intros Hbind. erewrite Run_alive; cycle 1.
      { eapply lock_put_engine_eq. exact Hlock. }
      { exact Hbind. }
      cbn [fst fImplWeakPtr engines put_engine set_engines set_ambient set_files set_heap].
      now rewrite !length_insert.
Qed.

Lemma Snapshot_typed_outcomes_witness :
  let w := set_files [("f", "old", make_tree [("x", int_column)] 3)] (released_world false) in
  TFile_Get "f" "old" (files w) = Some (make_tree [("x", int_column)] 3)
  /\ fst (TDF.Snapshot_typed [t_int] "t" "f" ["x"] root w) = Throw EngineGone
  /\ TFile_Get "f" "old" (files (snd (TDF.Snapshot_typed [t_int] "t" "f" ["x"] root w)))
     = None
  /\ fst (TDF.Snapshot_typed [t_double] "t" "f" ["x"] root counting_world)
     = Throw TypeMismatch
  /\ last_booked (snd (TDF.Snapshot_typed [t_double] "t" "f" ["x"] root counting_world)) 0
     = Some (snapshot_action [t_double] ["x"] 0).
Proof.
  intros w. split; [reflexivity|].
  destruct (Snapshot_typed_outcomes [t_int] "t" "f" ["x"] root w) as (_ & H & _);
    [cbn; lia|].
  destruct (H eq_refl eq_refl) as (H1 & _ & H3 & _).
  split; [exact H1|]. split; [apply H3|].
  destruct (Snapshot_typed_outcomes [t_double] "t" "f" ["x"] root counting_world)
    as (_ & _ & H'); [cbn; lia|].
  destruct (H' eq_refl _ eq_refl) as (Hk & _).
  destruct (Hk TypeMismatch eq_refl) as (Hk1 & _ & _ & Hk4 & _).
  split; [exact Hk1|]. unfold last_booked.
  change (fImplWeakPtr root) with 0 in Hk4. rewrite Hk4. reflexivity.
Defined.

Lemma Snapshot_on_live treename filename bnames this w e :
  lock w (fImplWeakPtr this) = Some e ->
  TDF.Snapshot treename filename bnames this w
  = if forallb (known_column (resolve (fTree e) (files w)) (fBookedBranches e)) bnames
    then TDF.Snapshot_typed (map (column_type (resolve (fTree e) (files w))) bnames)
           treename filename bnames this w
    else (Throw UnknownColumn, w).
Proof.
  intros H. unfold TDF.Snapshot. unfold_members. do 3 tdf_step.
  unfold bind at 1. rewrite types_outcome. now destruct (forallb _ bnames).
Qed.

(** The untyped [Snapshot] looks for the engine before anything else, and
    infers the types before it touches the file: with the engine released
    it throws [EngineGone], and with a column that neither the store nor a
    derived column has it throws [UnknownColumn], in both cases with nothing
    changed, the output file included. With every column known it is the
    typed [Snapshot] on the types [ColumnName2ColumnTypeName] reports. *)
Theorem Snapshot_fails_before_writing treename filename bnames this w :
  (lock w (fImplWeakPtr this) = None ->
   TDF.Snapshot treename filename bnames this w = (Throw EngineGone, w))
  /\ (forall e, lock w (fImplWeakPtr this) = Some e ->
      let tree := resolve (fTree e) (files w) in
      (forallb (known_column tree (fBookedBranches e)) bnames = false ->
       TDF.Snapshot treename filename bnames this w = (Throw UnknownColumn, w))
      /\ (forallb (known_column tree (fBookedBranches e)) bnames = true ->
          TDF.Snapshot treename filename bnames this w
          = TDF.Snapshot_typed (map (column_type tree) bnames)
              treename filename bnames this w)).
Proof.
  split.
  - intros Hlock. unfold TDF.Snapshot. now rewrite bind_released.
  - intros e Hlock tree. rewrite (Snapshot_on_live _ _ _ _ _ e Hlock). fold tree.
    split; intros ->; reflexivity.
Qed.

Lemma Snapshot_fails_before_writing_witness :
  let w := set_files [("f", "old", make_tree [("x", int_column)] 3)] (released_world false) in
  let w0 := set_files [("f", "old", make_tree [("x", int_column)] 3)] counting_world in
  TDF.Snapshot "t" "f" ["x"] root w = (Throw EngineGone, w)
  /\ TFile_Get "f" "old" (files w) = Some (make_tree [("x", int_column)] 3)
  /\ TDF.Snapshot "t" "f" ["x"; "z"] root w0 = (Throw UnknownColumn, w0).
Proof.
  intros w w0. split; [|split; [reflexivity|]].
  - destruct (Snapshot_fails_before_writing "t" "f" ["x"] root w) as (H & _).
    exact (H eq_refl).
  - destruct (Snapshot_fails_before_writing "t" "f" ["x"; "z"] root w0) as (_ & H).
    destruct (H _ eq_refl) as (H1 & _). exact (H1 eq_refl).
Defined.

(** What a [SnapshotImpl] that returns has made: a new engine behind those
    there were, over the chain of the file, with the names as its default
    columns. *)
Lemma SnapshotImpl_Ok Args treename filename bnames this w s w' :
  TDF.SnapshotImpl Args treename filename bnames this w = (Ok s, w') ->
  s = {| fProxiedPtr := 0; fImplWeakPtr := length (engines w) |}
  /\ alive w (fImplWeakPtr this)
  /\ exists nSlots,
       lock w' (length (engines w))
       = Some (SetTree (TChain treename filename)
                 (new_TDataFrameImpl (InMemory new_TTree) bnames nSlots)).
Proof.
  intros H. destruct (Nat.eq_dec (length Args) (length bnames)) as [Hlen|Hne]; cycle 1.
  { unfold TDF.SnapshotImpl in H. apply Nat.eqb_neq in Hne. rewrite Hne in H.
    discriminate H. }
  rewrite (SnapshotImpl_steps _ _ _ _ _ _ Hlen) in H.
  set (w1 := set_ambient _ _) in H.
  assert (Hlen3 : forall u w3, TDF.ForeachSlot (AddSlotParameter (fillTree Args bnames))
                                 bnames this w1 = (Ok u, w3) ->
                               length (engines w3) = length (engines w)).
  { intros u w3 H3. destruct (lock w1 (fImplWeakPtr this)) as [e|] eqn:Hlock;
      [|rewrite ForeachSlot_released in H3 by exact Hlock; discriminate H3].
    unfold TDF.ForeachSlot in H3. unfold_members.
    do 2 (erewrite ?bind_GetDataFrameChecked, ?bind_impl in H3 by exact Hlock).
    unfold bind at 1 in H3.
    pose proof (PickBranchNames_pure
                  (uint (Z.of_N (SlotCallable_fgSize (AddSlotParameter (fillTree Args bnames)))
                         - 1)) bnames (fDefaultBranches e) w1) as Hp.
    destruct (PickBranchNames _ bnames (fDefaultBranches e) w1) as [[abl|k] w2];
      [|discriminate H3].
    cbn [snd] in Hp. subst w2.
    unfold BookAction, IncrChildrenCount in H3.
    erewrite bind_update in H3 by exact Hlock.
    erewrite bind_update in H3 by (eapply lock_put_engine_eq; exact Hlock).
    rewrite put_engine_twice in H3. unfold Run in H3.
    erewrite lock_put_engine_eq in H3 by exact Hlock.
    destruct (bind_columns _ _); [discriminate H3|].
    destruct (event_loop _ _ _ _) as [[acts cnt] amb]. injection H3 as _ <-.
    cbn [engines put_engine set_engines set_ambient set_heap].
    now rewrite !length_insert. }
  assert (Halive : alive w (fImplWeakPtr this)).
  { destruct (lock w (fImplWeakPtr this)) as [e|] eqn:Hlock; [now exists e|].
    rewrite ForeachSlot_released in H by exact Hlock. discriminate H. }
  destruct (TDF.ForeachSlot _ _ _ _) as [[u|k] w3] eqn:Hf; [|discriminate H].
  specialize (Hlen3 u w3 eq_refl). injection H as <- <-. rewrite Hlen3.
  split; [reflexivity|]. split; [exact Halive|]. eexists.
  unfold lock. cbn [engines set_engines set_ambient set_files].
  rewrite <- Hlen3. rewrite list_lookup_middle by reflexivity. reflexivity.
Qed.

(** A [Snapshot] returns only when called on a live engine; the data frame
    it gives back is a new engine, not the one the call was made on, and the
    columns written are its
    default columns: an action called on it without column names reads the
    first columns written, in the order they were given. *)
Theorem Snapshot_frame_defaults Args treename filename bnames this w s w' :
  TDF.Snapshot_typed Args treename filename bnames this w = (Ok s, w') ->
  lock w (fImplWeakPtr s) = None
  /\ alive w (fImplWeakPtr this)
  /\ fImplWeakPtr s <> fImplWeakPtr this
  /\ (exists e', lock w' (fImplWeakPtr s) = Some e' /\ fDefaultBranches e' = bnames
                 /\ fTree e' = TChain treename filename)
  /\ (forall n msg,
        TDF.GetDefaultBranchNames n msg s w'
        = (if (N.of_nat (length bnames) <? n)%N then Throw MissingColumnSpec
           else Ok (take (N.to_nat n) bnames), w'))
  /\ (forall T b rest, bnames = b :: rest ->
        exists p w'',
          TDF.Take T "" s w' = (Ok p, w'')
          /\ aBl <$> last_booked w'' (fImplWeakPtr s) = Some [b]).
Proof.
  unfold TDF.Snapshot_typed. intros H.
  apply SnapshotImpl_Ok in H as (-> & Halive & nSlots & Hnew). cbn [fImplWeakPtr].
  assert (Hout : lock w (length (engines w)) = None).
  { unfold lock. now rewrite lookup_ge_None_2. }
  split; [exact Hout|]. split; [exact Halive|]. split.
  { destruct Halive as [e He]. intros Heq. rewrite Heq in Hout. congruence. }
  split; [eexists; split; [exact Hnew | split; reflexivity]|]. split.
  - intros n msg.
    now rewrite (GetDefaultBranchNames_alive n msg
                   {| fProxiedPtr := 0; fImplWeakPtr := length (engines w) |} w' _ Hnew).
  - intros T b rest ->.
    rewrite (Take_alive T ""
               {| fProxiedPtr := 0; fImplWeakPtr := length (engines w) |} w' _ Hnew).
    cbn [fDefaultBranches SetTree new_TDataFrameImpl].
    assert (Hn : names_used [T] [""] (b :: rest) = Some [b]).
    { unfold names_used. change (uint (Z.of_nat (length [T]))) with 1%N.
      change (TDF.count_provided [""]) with 0%N. cbn [N.eqb].
      destruct (N.ltb_spec (N.of_nat (length (b :: rest))) 1) as [Hlt|_]; [|reflexivity].
      cbn [length] in Hlt. lia. }
    rewrite Hn.
    eexists _, _. split; [reflexivity|]. cbn [fImplWeakPtr].
    erewrite last_booked_with_action by exact Hnew. reflexivity.
Qed.

Lemma Snapshot_frame_defaults_witness :
  TDF.Snapshot_typed [t_int; t_int] "t" "f" ["y"; "x"] root snapshot_world
  = (Ok {| fProxiedPtr := 0; fImplWeakPtr := 1 |},
     snd (TDF.Snapshot_typed [t_int; t_int] "t" "f" ["y"; "x"] root snapshot_world))
  /\ TDF.GetDefaultBranchNames 1 ""
       {| fProxiedPtr := 0; fImplWeakPtr := 1 |}
       (snd (TDF.Snapshot_typed [t_int; t_int] "t" "f" ["y"; "x"] root snapshot_world))
     = (Ok ["y"],
        snd (TDF.Snapshot_typed [t_int; t_int] "t" "f" ["y"; "x"] root snapshot_world)).
Proof.
  assert (H : TDF.Snapshot_typed [t_int; t_int] "t" "f" ["y"; "x"] root snapshot_world
              = (Ok {| fProxiedPtr := 0; fImplWeakPtr := 1 |},
                 snd (TDF.Snapshot_typed [t_int; t_int] "t" "f" ["y"; "x"] root
                        snapshot_world))) by (vm_compute; reflexivity).
  split; [exact H|].
  destruct (Snapshot_frame_defaults _ _ _ _ _ _ _ _ H) as (_ & _ & _ & _ & Hd & _).
  apply Hd.
Defined.

(** ** Booking a lazy action *)

Ltac booked e Hlock :=
  exists e; eexists; split; [exact Hlock|]; split; [reflexivity|];
  apply and_comm; split; reflexivity.

Lemma CreateAction_books_result at_ types bl r this w p w' :
  TDF.CreateAction at_ types bl r this w = (Ok p, w') ->
  exists a, books_result this p a w w' /\ aBl a = bl
            /\ exists e, lock w (fImplWeakPtr this) = Some e
                         /\ aOp a = operation_of at_ r (fObjPtr p) (fNSlots e).
Proof.
  intros H. destruct (lock w (fImplWeakPtr this)) as [e|] eqn:Hlock.
  - rewrite (CreateAction_alive _ _ _ _ _ _ e Hlock) in H.
    destruct (TNeedJitting types && _); [discriminate|].
    injection H as <- <-. eexists. split; [booked e Hlock|]. split; [reflexivity|].
    exists e. split; reflexivity.
  - rewrite CreateAction_released in H by exact Hlock. discriminate H.
Qed.

Lemma named_books_result at_ types bl msg r this w p w' :
  bind (TDF.GetBranchNames types bl msg this)
       (fun names => TDF.CreateAction at_ types names r this) w = (Ok p, w') ->
  exists a, books_result this p a w w'
            /\ exists e, lock w (fImplWeakPtr this) = Some e
                         /\ aOp a = operation_of at_ r (fObjPtr p) (fNSlots e).
Proof.
  intros H. rewrite bind_GetBranchNames in H.
  destruct (fst (TDF.GetBranchNames types bl msg this w)) as [names|k]; [|discriminate].
  apply CreateAction_books_result in H as (a & Ha & _ & He). eauto.
Qed.

Lemma Count_alive this w e :
  lock w (fImplWeakPtr this) = Some e ->
  TDF.Count this w =
  (Ok {| fObjPtr := length (heap w); fImplWeakPtrOfResult := fImplWeakPtr this |},
   put_engine (fImplWeakPtr this)
     (with_action
        {| aOp := CountOperation (length (heap w)) (fNSlots e);
           aTypes := []; aBl := []; aPrev := fProxiedPtr this |}
        (length (heap w)) e)
     (set_heap (heap w ++ [{| cValue := VUInt 0; cReady := false |}]) w)).
Proof.
  intros H. unfold TDF.Count. unfold_members. do 2 tdf_step.
  unfold BookAction, IncrChildrenCount, MakeActionResultProxy. repeat tdf_step.
  reflexivity.
Qed.

Lemma returns_node_result m w p w' : returns_node m w <> (Ok (Result_handle p), w').
Proof. unfold returns_node, bind. destruct (m w) as [[h|k] w1]; discriminate. Qed.

Lemma returns_void_result m w p w' : returns_void m w <> (Ok (Result_handle p), w').
Proof. unfold returns_void, bind. destruct (m w) as [[h|k] w1]; discriminate. Qed.

Lemma returns_result_handle m w p w' :
  returns_result m w = (Ok (Result_handle p), w') -> m w = (Ok p, w').
Proof. intros H. apply returns_result_Ok in H as (q & Hq & [= ->]). exact Hq. Qed.

(** Every call that returns the handle of a lazy result has made exactly
    one new result object, which is not ready and is not one of the result
    objects there were; has booked exactly one action, on the node it was
    called on and behind the actions already pending; and has changed
    nothing else but the children count of that node. The handle refers to
    the new object and to the engine of the node. *)
Theorem lazy_action_books_one_result (c : Call) this w p w' :
  invoke c this w = (Ok (Result_handle p), w') ->
  exists a, books_result this p a w w'.
Proof.
  intros H.
  destruct c; cbn [invoke] in H;
    try (now apply returns_node_result in H);
    try (now apply returns_void_result in H);
    apply returns_result_handle in H;
    unfold TDF.Histo1D_name, TDF.Histo1D_weighted_names, TDF.Histo1D_VW,
      TDF.Histo2D_VW, TDF.Histo3D_VW, TDF.Profile1D_VW, TDF.Profile2D_VW, TDF.Reduce,
      TDF.Histo1D, TDF.Histo1D_weighted, TDF.Histo2D, TDF.Histo2D_weighted,
      TDF.Histo3D, TDF.Histo3D_weighted, TDF.Profile1D, TDF.Profile1D_weighted,
      TDF.Profile2D, TDF.Profile2D_weighted, TDF.Fill_typed, TDF.Fill,
      TDF.Min, TDF.Max, TDF.Mean in H;
    cbv zeta in H;
    try (destruct (HasAxisLimits model); cbn [negb] in H; [|discriminate H]);
    try (apply named_books_result in H as (a & Ha & _); now exists a);
    try (apply CreateAction_books_result in H as (a & Ha & _); now exists a).
  - (* Reduce *)
    destruct (lock w (fImplWeakPtr this)) as [e|] eqn:Hlock.
    + rewrite (Reduce_init_alive _ _ _ _ _ _ e Hlock) in H.
      destruct (names_used [T] [branchName] (fDefaultBranches e)); [|discriminate].
      injection H as <- <-. eexists. booked e Hlock.
    + unfold TDF.Reduce_init in H. rewrite bind_released in H by exact Hlock. discriminate.
  - (* Reduce with an initial value *)
    destruct (lock w (fImplWeakPtr this)) as [e|] eqn:Hlock.
    + rewrite (Reduce_init_alive _ _ _ _ _ _ e Hlock) in H.
      destruct (names_used [T] [branchName] (fDefaultBranches e)); [|discriminate].
      injection H as <- <-. eexists. booked e Hlock.
    + unfold TDF.Reduce_init in H. rewrite bind_released in H by exact Hlock. discriminate.
  - (* Count *)
    destruct (lock w (fImplWeakPtr this)) as [e|] eqn:Hlock.
    + rewrite (Count_alive _ _ e Hlock) in H.
      injection H as <- <-. eexists. booked e Hlock.
    + unfold TDF.Count in H. rewrite bind_released in H by exact Hlock. discriminate.
  - (* Take *)
    destruct (lock w (fImplWeakPtr this)) as [e|] eqn:Hlock.
    + rewrite (Take_alive _ _ _ _ e Hlock) in H.
      destruct (names_used [T] [branchName] (fDefaultBranches e)); [|discriminate].
      injection H as <- <-. eexists. booked e Hlock.
    + unfold TDF.Take in H. rewrite bind_released in H by exact Hlock. discriminate.
Qed.

Lemma lazy_action_books_one_result_witness :
  exists a,
    books_result root {| fObjPtr := 0; fImplWeakPtrOfResult := 0 |} a counting_world
      (snd (invoke Call_Count root counting_world)).
Proof.
  exact (lazy_action_books_one_result Call_Count root counting_world
           {| fObjPtr := 0; fImplWeakPtrOfResult := 0 |} _ eq_refl).
Defined.

Lemma books_result_last this p a w w' :
  books_result this p a w w' -> last_booked w' (fImplWeakPtr this) = Some a.
Proof.
  intros (e & v & Hlock & _ & _ & ->). eapply last_booked_with_action. eauto with tdf.
Qed.

Lemma HasAxisLimits_extended (h : Aggregator) (b : bool) :
  HasAxisLimits (if b then SetCanExtendAllAxes h else h) = HasAxisLimits h.
Proof. now destruct b. Qed.

(** Which operation a histogram books. A one-dimensional histogram fills
    through [FillTOOperation] when its model has axis limits and through
    [FillOperation] when it has none; the histograms of two and three
    dimensions, the profiles and [Fill], which are only booked for a model
    with axis limits, always fill through [FillTOOperation]. The operation
    works on the result object of the handle returned, with the slot count of
    the engine. *)
Theorem histogram_operation (c : Call) (m : Aggregator) this w p w' :
  Histo1D_model c = Some m \/ requires_limits c = Some m ->
  invoke c this w = (Ok (Result_handle p), w') ->
  exists a e,
    lock w (fImplWeakPtr this) = Some e
    /\ last_booked w' (fImplWeakPtr this) = Some a
    /\ aOp a = (if HasAxisLimits m then FillTOOperation (fObjPtr p) (fNSlots e)
                else FillOperation (fObjPtr p) (fNSlots e))
    /\ (requires_limits c = Some m -> HasAxisLimits m = true).
Proof.
  intros Hc H.
  destruct c; try (destruct Hc; discriminate);
    cbn [invoke] in H; apply returns_result_handle in H;
    unfold TDF.Histo1D_name, TDF.Histo1D_weighted_names, TDF.Histo1D_VW,
      TDF.Histo2D_VW, TDF.Histo3D_VW, TDF.Profile1D_VW, TDF.Profile2D_VW,
      TDF.Histo1D, TDF.Histo1D_weighted, TDF.Histo2D, TDF.Histo2D_weighted,
      TDF.Histo3D, TDF.Histo3D_weighted, TDF.Profile1D, TDF.Profile1D_weighted,
      TDF.Profile2D, TDF.Profile2D_weighted, TDF.Fill_typed, TDF.Fill in H;
    cbv zeta in H; cbn [Histo1D_model requires_limits] in *;
    (destruct Hc as [Hc|Hc]; [|try discriminate Hc]; try discriminate Hc;
     injection Hc as <-).
  all: try (destruct (HasAxisLimits model) eqn:Hm; cbn [negb] in H; [|discriminate H]).
  all: first [ apply named_books_result in H as (a & Ha & e & He & Hop)
             | apply CreateAction_books_result in H as (a & Ha & _ & e & He & Hop) ].
  all: exists a, e; (split; [exact He|]);
       (split; [eapply books_result_last; eauto|]);
       cbn [operation_of] in Hop; rewrite ?HasAxisLimits_extended in Hop;
       try rewrite Hm in Hop; (split; [exact Hop|]); try discriminate; auto.
Qed.

Lemma histogram_operation_witness :
  exists a,
    last_booked (snd (invoke (Call_Histo1D_name t_int "v") root histogram_world)) 0 = Some a
    /\ aOp a = FillOperation 0 1.
Proof.
  destruct (histogram_operation (Call_Histo1D_name t_int "v") default_TH1F root
              histogram_world {| fObjPtr := 0; fImplWeakPtrOfResult := 0 |} _
              (or_introl eq_refl) eq_refl)
    as (a & e & He & Ha & Hop & _).
  exists a. split; [exact Ha|]. injection He as <-. exact Hop.
Defined.

(** ** Appending a node *)

Lemma set_branches_same e bs :
  bs = fBookedBranches e -> set_branches bs e = e.
Proof. intros ->. now destruct e. Qed.

Lemma Filter_appends f bn name this w h w' :
  TDF.Filter f bn name this w = (Ok h, w') ->
  exists e bl,
    lock w (fImplWeakPtr this) = Some e
    /\ PickBranchNames (fgSize f) bn (fDefaultBranches e) w = (Ok bl, w)
    /\ appends_node this h {| nKind := FilterNode f bl name;
                              fPrevData := fProxiedPtr this; fNChildren := 0 |} w w'.
Proof.
  intros H. destruct (lock w (fImplWeakPtr this)) as [e|] eqn:Hlock.
  - rewrite (Filter_alive _ _ _ _ _ e Hlock) in H.
    pose proof (PickBranchNames_pure (fgSize f) bn (fDefaultBranches e) w) as Hp.
    destruct (PickBranchNames (fgSize f) bn (fDefaultBranches e) w) as [[bl|k] w1] eqn:Hpick;
      cbn in Hp, H; subst w1; [|discriminate].
    injection H as <- <-. exists e, bl. split; [reflexivity|]. split; [exact Hpick|].
    exists e. split; [exact Hlock|]. split; [reflexivity|].
    split; [reflexivity|]. split; [reflexivity|].
    cbn [registers nKind]. now rewrite set_branches_same by (cbn; now rewrite app_nil_r).
  - unfold TDF.Filter in H. rewrite bind_released in H by exact Hlock. discriminate.
Qed.

Lemma Define_alive name expression bl this w e :
  lock w (fImplWeakPtr this) = Some e ->
  TDF.Define name expression bl this w =
  match fst (CheckTmpBranch name (resolve (fTree e) (files w)) w) with
  | Throw k => (Throw k, w)
  | Ok _ =>
      match fst (PickBranchNames (fgSize expression) bl (fDefaultBranches e) w) with
      | Throw k => (Throw k, w)
      | Ok actualBl =>
          (Ok {| fProxiedPtr := length (fNodes e); fImplWeakPtr := fImplWeakPtr this |},
           put_engine (fImplWeakPtr this)
             (set_branches (fBookedBranches e ++ [(name, length (fNodes e))])
                (set_nodes
                   (alter IncrChildrenCount_node (fProxiedPtr this) (fNodes e)
                    ++ [{| nKind := BranchNode name expression actualBl;
                           fPrevData := fProxiedPtr this; fNChildren := 0 |}])
                   (fCounters e ++ [zero_counter]) e)) w)
      end
  end.
Proof.
  intros H. unfold TDF.Define. unfold_members. do 2 tdf_step. unfold bind at 1.
  unfold CheckTmpBranch at 1 2.
  destruct (existsb (String.eqb name) (GetListOfBranches (resolve (fTree e) (files w))));
    [reflexivity|].
  cbn [ret fst]. tdf_step. unfold bind at 1.
  pose proof (PickBranchNames_pure (fgSize expression) bl (fDefaultBranches e) w) as Hp.
  destruct (PickBranchNames (fgSize expression) bl (fDefaultBranches e) w) as [[abl|k] w1];
    cbn in Hp; subst w1; [|reflexivity].
  unfold IncrChildrenCount, BookBranch, Book. repeat tdf_step. cbn.
  now rewrite length_alter.
Qed.

Lemma Define_appends name expression bl this w h w' :
  TDF.Define name expression bl this w = (Ok h, w') ->
  exists e actualBl,
    lock w (fImplWeakPtr this) = Some e
    /\ PickBranchNames (fgSize expression) bl (fDefaultBranches e) w = (Ok actualBl, w)
    /\ appends_node this h {| nKind := BranchNode name expression actualBl;
                              fPrevData := fProxiedPtr this; fNChildren := 0 |} w w'.
Proof.
  intros H. destruct (lock w (fImplWeakPtr this)) as [e|] eqn:Hlock.
  - rewrite (Define_alive _ _ _ _ _ e Hlock) in H.
    destruct (fst (CheckTmpBranch _ _ _)); [|discriminate].
    pose proof (PickBranchNames_pure (fgSize expression) bl (fDefaultBranches e) w) as Hp.
    destruct (PickBranchNames (fgSize expression) bl (fDefaultBranches e) w)
      as [[abl|k] w1] eqn:Hpick; cbn in Hp, H; subst w1; [|discriminate].
    injection H as <- <-. exists e, abl. split; [reflexivity|]. split; [exact Hpick|].
    exists e. split; [exact Hlock|]. repeat split.
  - unfold TDF.Define in H. rewrite bind_released in H by exact Hlock. discriminate.
Qed.

Lemma returns_node_handle m w h w' :
  returns_node m w = (Ok (Node_handle h), w') -> m w = (Ok h, w').
Proof.
  unfold returns_node, bind. destruct (m w) as [[h0|k] w1]; [|discriminate].
  now intros [= <- <-].
Qed.

Lemma returns_result_node m w h w' : returns_result m w <> (Ok (Node_handle h), w').
Proof. unfold returns_result, bind. destruct (m w) as [[p|k] w1]; discriminate. Qed.

Lemma returns_void_node m w h w' : returns_void m w <> (Ok (Node_handle h), w').
Proof. unfold returns_void, bind. destruct (m w) as [[p|k] w1]; discriminate. Qed.

Lemma node_call_appends (c : Call) this w h w' :
  is_Snapshot c = false ->
  invoke c this w = (Ok (Node_handle h), w') ->
  exists nd e,
    lock w (fImplWeakPtr this) = Some e
    /\ appends_node this h nd w w' /\ node_of c this w e (nKind nd).
Proof.
  intros Hc H.
  destruct c; try discriminate Hc; cbn [invoke] in H;
    try (now apply returns_result_node in H);
    try (now apply returns_void_node in H);
    apply returns_node_handle in H.
  - apply Filter_appends in H as (e & bl & He & Hp & H). eexists _, e.
    split; [exact He|]. split; [exact H|]. now repeat split.
  - apply Filter_appends in H as (e & bl & He & Hp & H). eexists _, e.
    split; [exact He|]. split; [exact H|]. now repeat split.
  - unfold TDF.Filter_expression, TDF.InterpretCall_Filter in H. unfold_members.
    destruct (lock w (fImplWeakPtr this)) as [e|] eqn:Hlock;
      [|rewrite bind_released in H by exact Hlock; discriminate].
    revert H. do 3 tdf_step. unfold bind at 1.
    destruct (compile_filter _ _ _) as [[f bl]|] eqn:Hcomp; [|discriminate].
    intros H. apply Filter_appends in H as (e0 & bl' & He & Hp & H).
    rewrite Hlock in He. injection He as <-. eexists _, e.
    split; [reflexivity|]. split; [exact H|].
    split; [reflexivity|]. exists bl. split; [exact Hcomp | exact Hp].
  - apply Define_appends in H as (e & bl' & He & Hp & H). eexists _, e.
    split; [exact He|]. split; [exact H|]. now repeat split.
  - unfold TDF.Define_expression, TDF.InterpretCall_Define in H. unfold_members.
    destruct (lock w (fImplWeakPtr this)) as [e|] eqn:Hlock;
      [|rewrite bind_released in H by exact Hlock; discriminate].
    revert H. do 3 tdf_step. unfold bind at 1.
    destruct (compile_define _ _ _) as [[f bl]|] eqn:Hcomp; [|discriminate].
    intros H. apply Define_appends in H as (e0 & bl' & He & Hp & H).
    rewrite Hlock in He. injection He as <-. eexists _, e.
    split; [reflexivity|]. split; [exact H|].
    split; [reflexivity|]. exists bl. split; [exact Hcomp | exact Hp].
  - rewrite Range_outcome in H.
    destruct (_ || _); [discriminate|]. destruct (fgImplicitMT w); [discriminate|].
    destruct (lock w (fImplWeakPtr this)) as [e|] eqn:Hlock; [|discriminate].
    injection H as <- <-.
    exists {| nKind := RangeNode start stop stride; fPrevData := fProxiedPtr this;
              fNChildren := 0 |}, e.
    split; [reflexivity|]. split.
    + exists e. split; [exact Hlock|]. split; [reflexivity|].
      split; [reflexivity|]. split; [reflexivity|].
      cbn [registers nKind].
      now rewrite set_branches_same by (cbn; now rewrite app_nil_r).
    + cbn. now repeat split.
  - unfold TDF.Range_stop in H. rewrite Range_outcome in H.
    destruct (_ || _); [discriminate|]. destruct (fgImplicitMT w); [discriminate|].
    destruct (lock w (fImplWeakPtr this)) as [e|] eqn:Hlock; [|discriminate].
    injection H as <- <-.
    exists {| nKind := RangeNode 0 stop 1; fPrevData := fProxiedPtr this;
              fNChildren := 0 |}, e.
    split; [reflexivity|]. split.
    + exists e. split; [exact Hlock|]. split; [reflexivity|].
      split; [reflexivity|]. split; [reflexivity|].
      cbn [registers nKind].
      now rewrite set_branches_same by (cbn; now rewrite app_nil_r).
    + cbn. now repeat split.
Qed.

(** Every transformation that returns ([Filter], [Define] and [Range], in
    all their forms) has appended exactly one node to the graph of the
    engine: a filter, a derived column or a range with the arguments of the
    call, on the columns picked among those given and the default columns
    of the engine; its parent is the node the call was made on and it has no
    child yet. The handle returned is on that node, for the same engine. A
    derived column is registered with the engine under its name. The actions
    pending, the result objects and every other engine are as before. *)
Theorem transformation_appends_one_node (c : Call) this w h w' :
  is_Snapshot c = false ->
  invoke c this w = (Ok (Node_handle h), w') ->
  exists nd e e',
    appends_node this h nd w w' /\ node_of c this w e (nKind nd)
    /\ lock w (fImplWeakPtr this) = Some e
    /\ lock w' (fImplWeakPtr this) = Some e'
    /\ fImplWeakPtr h = fImplWeakPtr this
    /\ fProxiedPtr h = length (fNodes e)
    /\ length (fNodes e') = S (length (fNodes e))
    /\ fNodes e' !! fProxiedPtr h = Some nd
    /\ fBookedActions e' = fBookedActions e
    /\ heap w' = heap w /\ files w' = files w /\ ambient w' = ambient w.
Proof.
  intros Hc H.
  destruct (node_call_appends c this w h w' Hc H) as (nd & e & Hlock & Ha & Hk).
  pose proof Ha as (e0 & Hlock0 & -> & Hprev & Hch & ->).
  rewrite Hlock in Hlock0. injection Hlock0 as <-.
  exists nd, e. eexists. split; [exact Ha|]. split; [exact Hk|]. split; [exact Hlock|].
  split; [eapply lock_put_engine_eq; exact Hlock|]. cbn.
  split; [reflexivity|]. split; [reflexivity|]. split.
  - rewrite length_app, length_alter. cbn. lia.
  - split; [|now repeat split].
    rewrite <- (length_alter IncrChildrenCount_node (fNodes e) (fProxiedPtr this)) at 1.
    now rewrite list_lookup_middle.
Qed.

Lemma transformation_appends_one_node_witness :
  exists nd,
    appends_node root filtered nd snapshot_world filtered_world
    /\ nKind nd = FilterNode below_5 ["x"] "".
Proof.
  destruct (transformation_appends_one_node (Call_Filter below_5 ["x"] "") root
              snapshot_world filtered filtered_world eq_refl eq_refl)
    as (nd & e & e' & Ha & Hk & He & _).
  exists nd. split; [exact Ha|].
  injection He as <-. destruct (nKind nd) as [|f bl name| |]; try (exfalso; exact Hk).
  destruct Hk as (-> & -> & Hp). injection Hp as <-. reflexivity.
Defined.

(** ** The graph stays a tree *)

#[local] Instance keeps_well_formed_frame this : Frame (keeps_well_formed this).
Proof.
  split.
  - intros w H. exact H.
  - intros w1 w2 w3 H12 H23 H. apply H23, H12, H.
Qed.

Lemma always_checked_bind R `{!Frame R} {B} this (k : nat -> M B) :
  always R (k (fImplWeakPtr this)) -> always R (bind (TDF.GetDataFrameChecked this) k).
Proof.
  intros Hk w. unfold bind, TDF.GetDataFrameChecked.
  destruct (lock w (fImplWeakPtr this)); [apply Hk | apply frame_refl].
Qed.

(** A change of one engine that keeps it well formed and keeps its nodes. *)
Lemma keeps_put_engine this w df e e' :
  lock w df = Some e ->
  (well_formed_engine e ->
   (df = fImplWeakPtr this -> fProxiedPtr this < length (fNodes e)) ->
   well_formed_engine e' /\ length (fNodes e) <= length (fNodes e')) ->
  keeps_well_formed this w (put_engine df e' w).
Proof.
  intros Hlock Hf [Hwf (e0 & He0 & Hv)].
  assert (Hthis : df = fImplWeakPtr this -> fProxiedPtr this < length (fNodes e)).
  { intros ->. rewrite Hlock in He0. now injection He0 as <-. }
  destruct (Hf (Hwf df e Hlock) Hthis) as [Hwf' Hlen]. split.
  - intros df' e1 H1. destruct (decide (df = df')) as [<-|Hne].
    + erewrite lock_put_engine_eq in H1 by eauto. now injection H1 as <-.
    + rewrite lock_put_engine_ne in H1 by exact Hne. eapply Hwf; eauto.
  - destruct (decide (df = fImplWeakPtr this)) as [->|Hne].
    + exists e'. split; [eapply lock_put_engine_eq; eauto|]. specialize (Hthis eq_refl). lia.
    + exists e0. split; [|exact Hv]. now rewrite lock_put_engine_ne.
Qed.

Lemma keeps_update this df f :
  (forall e, well_formed_engine e ->
     (df = fImplWeakPtr this -> fProxiedPtr this < length (fNodes e)) ->
     well_formed_engine (f e) /\ length (fNodes e) <= length (fNodes (f e))) ->
  always (keeps_well_formed this) (update df f).
Proof.
  intros Hf. apply always_update; [apply _|]. intros w e H.
  eapply keeps_put_engine; eauto.
Qed.

Lemma keeps_outside this w w' :
  (exists more, engines w' = engines w ++ more
                /\ forall e, In (Some e) more -> well_formed_engine e) ->
  keeps_well_formed this w w'.
Proof.
  intros (more & He & Hmore) [Hwf (e0 & He0 & Hv)]. split.
  - intros df e H. unfold lock in H. rewrite He in H.
    destruct (decide (df < length (engines w))) as [Hlt|Hge].
    + rewrite lookup_app_l in H by exact Hlt. apply (Hwf df e). exact H.
    + rewrite lookup_app_r in H by lia. apply Hmore.
      destruct (more !! (df - length (engines w))) as [[e1|]|] eqn:Hm; try discriminate.
      injection H as <-. eapply list_elem_of_In, list_elem_of_lookup_2; eauto.
  - exists e0. split; [|exact Hv]. apply lock_Some in He0. unfold lock.
    rewrite He, lookup_app_l by (eapply lookup_lt_Some; eauto). now rewrite He0.
Qed.

Lemma keeps_same_engines this w w' : engines w' = engines w -> keeps_well_formed this w w'.
Proof.
  intros H. apply keeps_outside. exists []. rewrite app_nil_r. split; [exact H|].
  intros e [].
Qed.

Lemma branch_counted (nodes : list Node) i id nd name expression bl :
  nodes !! id = Some nd -> nKind nd = BranchNode name expression bl ->
  exists nd' expression' bl',
    alter IncrChildrenCount_node i nodes !! id = Some nd'
    /\ nKind nd' = BranchNode name expression' bl'.
Proof.
  intros Hnd Hk. rewrite lookup_counted, Hnd. cbn.
  eexists _, expression, bl. split; [reflexivity|]. now destruct (decide (i = id)).
Qed.

Lemma keeps_IncrChildrenCount this df node :
  always (keeps_well_formed this) (IncrChildrenCount df node).
Proof.
  apply keeps_update. intros e (Hp & Hn & Hc & Ha & Hb) _. cbn. rewrite length_alter.
  split; [|lia]. repeat split; try assumption.
  - now apply parents_first_counted.
  - cbn. now rewrite length_alter.
  - cbn. now rewrite length_alter.
  - cbn. intros a Hin. rewrite length_alter. now apply Ha.
  - cbn. intros name id Hin. destruct (Hb name id Hin) as (nd & ex & bl & Hnd & Hk).
    eapply branch_counted; eauto.
Qed.

Lemma well_formed_appended e nd bs :
  well_formed_engine e -> fPrevData nd < length (fNodes e) ->
  (forall name id, In (name, id) bs ->
     id = length (fNodes e) /\ exists expression bl, nKind nd = BranchNode name expression bl) ->
  well_formed_engine
    (set_branches (fBookedBranches e ++ bs)
       (set_nodes (fNodes e ++ [nd]) (fCounters e ++ [zero_counter]) e)).
Proof.
  intros (Hp & Hn & Hc & Ha & Hb) Hnd Hbs. repeat split; cbn.
  - intros id x Hx Hid. destruct (decide (id < length (fNodes e))) as [Hlt|Hge].
    + rewrite lookup_app_l in Hx by exact Hlt. now apply (Hp id).
    + assert (id = length (fNodes e)) as ->.
      { apply lookup_lt_Some in Hx. rewrite length_app in Hx. cbn in Hx. lia. }
      rewrite list_lookup_middle in Hx by reflexivity. injection Hx as <-. exact Hnd.
  - rewrite length_app. cbn. lia.
  - rewrite !length_app. cbn. lia.
  - intros a Hin. rewrite length_app. cbn. specialize (Ha a Hin). lia.
  - intros name id Hin. apply in_app_or in Hin as [Hin|Hin].
    + destruct (Hb name id Hin) as (x & ex & bl & Hx & Hk). exists x, ex, bl.
      split; [|exact Hk]. rewrite lookup_app_l; [exact Hx|]. eapply lookup_lt_Some; eauto.
    + destruct (Hbs name id Hin) as (-> & ex & bl & Hk). exists nd, ex, bl.
      split; [|exact Hk]. now rewrite list_lookup_middle.
Qed.

Lemma keeps_Book this k :
  always (keeps_well_formed this)
    (Book (fImplWeakPtr this)
       {| nKind := k; fPrevData := fProxiedPtr this; fNChildren := 0 |}).
Proof.
  unfold Book. apply always_bind; [apply _ | apply always_impl; apply _ |]. intros id.
  apply always_bind; [apply _ | | intros; apply always_ret; apply _].
  apply keeps_update. intros e Hwf Hthis. specialize (Hthis eq_refl). split.
  - rewrite <- (set_branches_same
                  (set_nodes (fNodes e ++ [_]) (fCounters e ++ [zero_counter]) e)
                  (fBookedBranches e ++ [])) by (cbn; now rewrite app_nil_r).
    apply well_formed_appended; [exact Hwf | exact Hthis | intros ? ? []].
  - cbn. rewrite length_app. lia.
Qed.

Lemma BookBranch_alive df name nd w e :
  lock w df = Some e ->
  BookBranch df name nd w
  = (Ok (length (fNodes e)),
     put_engine df
       (set_branches (fBookedBranches e ++ [(name, length (fNodes e))])
          (set_nodes (fNodes e ++ [nd]) (fCounters e ++ [zero_counter]) e)) w).
Proof.
  intros H. unfold BookBranch, Book. repeat tdf_step. reflexivity.
Qed.

Lemma keeps_BookBranch this name expression bl :
  always (keeps_well_formed this)
    (BookBranch (fImplWeakPtr this) name
       {| nKind := BranchNode name expression bl; fPrevData := fProxiedPtr this;
          fNChildren := 0 |}).
Proof.
  intros w. destruct (lock w (fImplWeakPtr this)) as [e|] eqn:Hlock.
  - rewrite (BookBranch_alive _ _ _ _ e Hlock). cbn [snd].
    eapply keeps_put_engine; eauto. intros Hwf Hthis. specialize (Hthis eq_refl). split.
    + apply well_formed_appended; [exact Hwf | exact Hthis |].
      intros n id [[= <- <-]|[]]. split; [reflexivity|]. now exists expression, bl.
    + cbn. rewrite length_app. lia.
  - unfold BookBranch, Book, bind, impl. rewrite Hlock. apply frame_refl.
Qed.

Lemma keeps_BookAction this op ts bl :
  always (keeps_well_formed this)
    (BookAction (fImplWeakPtr this)
       {| aOp := op; aTypes := ts; aBl := bl; aPrev := fProxiedPtr this |}).
Proof.
  apply keeps_update. intros e (Hp & Hn & Hc & Ha & Hb) Hthis. specialize (Hthis eq_refl).
  split; [|reflexivity]. repeat split; try assumption. cbn.
  intros a Hin. apply in_app_or in Hin as [Hin|[<-|[]]]; [now apply Ha | exact Hthis].
Qed.

Lemma keeps_MakeActionResultProxy this r df :
  always (keeps_well_formed this) (MakeActionResultProxy r df).
Proof.
  unfold MakeActionResultProxy.
  apply always_bind; [apply _ | | intros; apply always_ret; apply _].
  apply keeps_update. intros e Hwf _. split; [exact Hwf | reflexivity].
Qed.

Lemma keeps_make_shared this v : always (keeps_well_formed this) (make_shared v).
Proof. intros w. now apply keeps_same_engines. Qed.

Lemma keeps_NodeReport this df node : always (keeps_well_formed this) (NodeReport df node).
Proof.
  unfold NodeReport. apply always_bind; [apply _ | apply always_impl; apply _ |]. intros ls w.
  now apply keeps_same_engines.
Qed.

Lemma keeps_Run this df : always (keeps_well_formed this) (Run df).
Proof.
  intros w. unfold Run. destruct (lock w df) as [e|] eqn:Hlock; [|apply frame_refl].
  destruct (bind_columns e (resolve (fTree e) (files w))); [apply frame_refl|].
  pose proof (event_loop_counters e (files w) (heap w) (ambient w)) as Hcnt.
  destruct (event_loop e (files w) (heap w) (ambient w)) as [[acts cnt] amb]. cbn [snd].
  eapply frame_trans; [eapply (keeps_put_engine this w df e (ran e cnt)); eauto|].
  - intros (Hp & Hn & Hc & Ha & Hb) _. split; [|reflexivity].
    repeat split; try assumption; cbn in *; [congruence | intros a []].
  - now apply keeps_same_engines.
Qed.

Create HintDb wf.
#[local] Hint Resolve keeps_IncrChildrenCount keeps_Book keeps_BookBranch keeps_BookAction
  keeps_MakeActionResultProxy keeps_make_shared keeps_NodeReport keeps_Run : wf.

Ltac frame_this db :=
  lazymatch goal with
  | |- always _ (bind (TDF.GetDataFrameChecked _) _) =>
      apply always_checked_bind; try apply _; frame_this db
  | |- always _ (bind _ _) =>
      apply always_bind; [apply _ | frame_this db | intros; frame_this db]
  | |- always _ (if ?b then _ else _) => destruct b; frame_this db
  | |- always _ (match ?c with Some _ => _ | None => _ end) =>
      destruct c as [[? ?]|]; cbn beta iota; frame_this db
  | |- _ => first [ frame_base | solve [auto with db] ]
  end.

Lemma keeps_BuildAndBook this at_ types bl r nSlots :
  always (keeps_well_formed this) (TDF.BuildAndBook at_ types bl r nSlots this).
Proof. unfold TDF.BuildAndBook. destruct at_; cbv zeta; frame_this wf. Qed.

#[local] Hint Resolve keeps_BuildAndBook : wf.

Lemma keeps_CreateAction this at_ types bl r :
  always (keeps_well_formed this) (TDF.CreateAction at_ types bl r this).
Proof.
  unfold TDF.CreateAction, TDF.JitBuildAndBook, TDF.CallBuildAndBook. unfold_members.
  frame_this wf.
Qed.

Lemma keeps_Filter this f bn name :
  always (keeps_well_formed this) (TDF.Filter f bn name this).
Proof. unfold TDF.Filter. unfold_members. frame_this wf. Qed.

Lemma keeps_Define this name e bl :
  always (keeps_well_formed this) (TDF.Define name e bl this).
Proof. unfold TDF.Define. unfold_members. frame_this wf. Qed.

Lemma keeps_ForeachSlot this f bl :
  always (keeps_well_formed this) (TDF.ForeachSlot f bl this).
Proof. unfold TDF.ForeachSlot. unfold_members. frame_this wf. Qed.

#[local] Hint Resolve keeps_CreateAction keeps_Filter keeps_Define keeps_ForeachSlot : wf.

Lemma well_formed_new_engine src defaults nSlots :
  well_formed_engine (SetTree src (new_TDataFrameImpl (InMemory new_TTree) defaults nSlots)).
Proof.
  repeat split; cbn; try lia.
  intros id nd H Hid. destruct id as [|id]; [contradiction | discriminate H].
Qed.

Lemma keeps_SnapshotImpl this ts tn fn bnames :
  always (keeps_well_formed this) (TDF.SnapshotImpl ts tn fn bnames this).
Proof.
  unfold TDF.SnapshotImpl, TDF.Foreach, TDF.set_t, TDF.set_firstEvt.
  destruct (negb _); [frame_this wf|].
  repeat (apply always_bind; [apply _ | | intros _]);
    try apply keeps_ForeachSlot;
    intros w; try (now apply keeps_same_engines).
  apply keeps_outside. eexists. split; [reflexivity|].
  intros e [[= <-]|[]]. apply well_formed_new_engine.
Qed.

#[local] Hint Resolve keeps_SnapshotImpl : wf.

Lemma keeps_invoke (c : Call) this : always (keeps_well_formed this) (invoke c this).
Proof.
  destruct c; cbn [invoke];
    unfold returns_node, returns_result, returns_void,
      TDF.Filter_name, TDF.Histo1D_name, TDF.Histo1D_weighted_names, TDF.Histo1D_VW,
      TDF.Histo2D_VW, TDF.Histo3D_VW, TDF.Profile1D_VW, TDF.Profile2D_VW, TDF.Reduce,
      TDF.Range_stop, TDF.Snapshot_typed, TDF.Foreach,
      TDF.Histo1D, TDF.Histo1D_weighted, TDF.Histo2D, TDF.Histo2D_weighted,
      TDF.Histo3D, TDF.Histo3D_weighted, TDF.Profile1D, TDF.Profile1D_weighted,
      TDF.Profile2D, TDF.Profile2D_weighted, TDF.Fill_typed, TDF.Fill,
      TDF.Min, TDF.Max, TDF.Mean,
      TDF.Filter_expression, TDF.InterpretCall_Filter, TDF.Define_expression,
      TDF.InterpretCall_Define, TDF.Range, TDF.Reduce_init,
      TDF.Count, TDF.Take, TDF.Report, TDF.Snapshot;
    unfold_members; cbv zeta; frame_this wf.
Qed.

Lemma SnapshotImpl_handle Args treename filename bnames this w h w' :
  TDF.SnapshotImpl Args treename filename bnames this w = (Ok h, w') -> valid w' h.
Proof.
  unfold TDF.SnapshotImpl. destruct (negb _); [discriminate|].
  unfold TDF.set_t, TDF.set_firstEvt. intros H.
  unfold bind at 1 in H. cbv beta iota in H.
  unfold bind at 1 in H. cbv beta iota in H.
  unfold bind at 1 in H.
  destruct (TDF.Foreach _ _ _ _) as [[u|k] w3]; [|discriminate].
  unfold bind in H. cbv beta iota in H. injection H as <- <-.
  eexists. split.
  - unfold lock. cbn [engines set_engines fImplWeakPtr set_ambient set_files].
    rewrite list_lookup_middle by reflexivity. reflexivity.
  - cbn. lia.
Qed.

Lemma appends_node_valid this h nd w w' : appends_node this h nd w w' -> valid w' h.
Proof.
  intros (e & Hlock & -> & _ & _ & ->). eexists. split.
  - cbn [fImplWeakPtr]. eapply lock_put_engine_eq; eauto.
  - cbn. rewrite length_app, length_alter. cbn. lia.
Qed.

Lemma well_formed_make_world mt tr defaults : well_formed (make_world mt tr defaults).
Proof.
  intros df e H. unfold lock in H. cbn in H. destruct df as [|df]; [|discriminate].
  cbn in H. injection H as <-.
  exact (well_formed_new_engine (InMemory tr) defaults (if mt then 4%N else 1%N)).
Qed.

(** The graph stays a tree, and handles stay good. If, before a call, the
    graph of every engine is well formed and the handle the call is made on
    is on a node of a live engine, then after the call, whether it returned
    or threw, the graph of every engine is well formed (the one of the new
    engine of [Snapshot] too), the handle is still on a node of a live
    engine, and so is the handle the call returns. *)
Theorem graph_stays_a_tree (c : Call) this w :
  well_formed w -> valid w this ->
  well_formed (snd (invoke c this w))
  /\ valid (snd (invoke c this w)) this
  /\ (forall h, fst (invoke c this w) = Ok (Node_handle h) -> valid (snd (invoke c this w)) h).
Proof.
  intros Hwf Hv. destruct (keeps_invoke c this w (conj Hwf Hv)) as [Hwf' Hv'].
  split; [exact Hwf'|]. split; [exact Hv'|].
  intros h Hh.
  assert (H : invoke c this w = (Ok (Node_handle h), snd (invoke c this w))).
  { destruct (invoke c this w) as [r w']. cbn in *. now subst. }
  destruct (is_Snapshot c) eqn:Hc.
  - destruct c; try discriminate Hc; cbn [invoke] in H; apply returns_node_handle in H.
    + eapply SnapshotImpl_handle. exact H.
    + unfold TDF.Snapshot in H. unfold bind in H.
      repeat match type of H with
             | match ?m with _ => _ end = _ =>
                 destruct m as [[?|?] ?]; try discriminate H
             end.
      eapply SnapshotImpl_handle. exact H.
  - destruct (node_call_appends c this w h _ Hc H) as (nd & _ & _ & Ha & _).
    eapply appends_node_valid; eauto.
Qed.

Lemma graph_stays_a_tree_witness :
  well_formed snapshot_world /\ valid snapshot_world root
  /\ well_formed filtered_world /\ valid filtered_world filtered.
Proof.
  assert (Hwf : well_formed snapshot_world) by apply well_formed_make_world.
  assert (Hv : valid snapshot_world root).
  { eexists. split; [reflexivity|]. cbn. lia. }
  destruct (graph_stays_a_tree (Call_Filter below_5 ["x"] "") root snapshot_world Hwf Hv)
    as (H1 & _ & H3).
  split; [exact Hwf|]. split; [exact Hv|]. split; [exact H1|]. exact (H3 filtered eq_refl).
Defined.

(** ** The filter chain of a new node *)

(** A transformation puts its node at the end of the filter chain of the
    node it is called on: a row passes the chain of the new node if and only
    if it passes the chain of the node called on and the new node accepts it
    (a filter by its predicate on the columns picked for it among those
    given and the default columns; a derived column or a range is no
    filter). The chain of every node there was is as it was. *)
Theorem new_node_extends_chain (c : Call) this w h w' e :
  well_formed w -> valid w this ->
  lock w (fImplWeakPtr this) = Some e ->
  is_Snapshot c = false ->
  invoke c this w = (Ok (Node_handle h), w') ->
  exists e' nd,
    lock w' (fImplWeakPtr h) = Some e'
    /\ fNodes e' !! fProxiedPtr h = Some nd
    /\ node_of c this w e (nKind nd)
    /\ (forall env,
          passes e' (fProxiedPtr h) env
          = passes e (fProxiedPtr this) env && verdict (nKind nd) env)
    /\ (forall f bn name, c = Call_Filter f bn name ->
          exists bl,
            PickBranchNames (fgSize f) bn (fDefaultBranches e) w = (Ok bl, w)
            /\ forall env,
                 passes e' (fProxiedPtr h) env
                 = passes e (fProxiedPtr this) env && fcall f (values env bl))
    /\ (forall id env, id < length (fNodes e) -> passes e' id env = passes e id env).
Proof.
  intros Hwf (e0 & He0 & Hthis) Hlock Hc H.
  rewrite Hlock in He0. injection He0 as <-.
  destruct (Hwf _ _ Hlock) as (Hp & _).
  destruct (node_call_appends c this w h w' Hc H)
    as (nd & e2 & He2 & (e1 & He1 & -> & Hprev & _ & ->) & Hk).
  rewrite Hlock in He1. injection He1 as <-.
  rewrite Hlock in He2. injection He2 as <-.
  assert (Hpass : forall env,
            passes (set_branches (fBookedBranches e ++ registers nd (length (fNodes e)))
                      (set_nodes
                         (alter IncrChildrenCount_node (fProxiedPtr this) (fNodes e) ++ [nd])
                         (fCounters e ++ [zero_counter]) e)) (length (fNodes e)) env
            = passes e (fProxiedPtr this) env && verdict (nKind nd) env).
  { intros env. unfold passes. cbn [fNodes set_branches set_nodes].
    rewrite (path_appended (fNodes e) (fProxiedPtr this) nd) by (rewrite ?Hprev; assumption).
    rewrite Hprev, forallb_app. cbn [forallb]. rewrite andb_true_r. f_equal.
    + apply forallb_same_in. intros id Hid. apply gate_appended. eapply path_below; eauto.
    + unfold gate, verdict.
      rewrite <- (length_alter IncrChildrenCount_node (fNodes e) (fProxiedPtr this)) at 1.
      now rewrite list_lookup_middle. }
  eexists _, nd. cbn [fImplWeakPtr fProxiedPtr].
  split; [eapply lock_put_engine_eq; eauto|].
  cbn [fNodes set_branches set_nodes].
  split.
  { rewrite <- (length_alter IncrChildrenCount_node (fNodes e) (fProxiedPtr this)) at 1.
    now rewrite list_lookup_middle. }
  split; [exact Hk|]. split; [exact Hpass|]. split.
  - intros f bn name ->. cbn [node_of] in Hk.
    destruct (nKind nd) as [|f' bl name'| |] eqn:Hnd; try (exfalso; exact Hk).
    destruct Hk as (-> & -> & Hpick). exists bl. split; [exact Hpick|].
    intros env. rewrite Hpass. reflexivity.
  - intros id env Hid. unfold passes. cbn [fNodes set_branches set_nodes].
    rewrite path_kept by assumption.
    apply forallb_same_in. intros x Hx. apply gate_appended. eapply path_below; eauto.
Qed.

Lemma new_node_extends_chain_witness :
  exists e',
    lock filtered_world (fImplWeakPtr filtered) = Some e'
    /\ (forall env,
          passes e' (fProxiedPtr filtered) env
          = passes (new_TDataFrameImpl
                      (InMemory (make_tree [("x", int_column); ("y", double_column)] 10))
                      [] 1) 0 env
            && fcall below_5 (values env ["x"])).
Proof.
  destruct (new_node_extends_chain (Call_Filter below_5 ["x"] "") root snapshot_world
              filtered filtered_world _
              (well_formed_make_world _ _ _)
              (ex_intro _ _ (conj eq_refl (Nat.lt_0_succ 0))) eq_refl eq_refl eq_refl)
    as (e' & nd & H1 & _ & _ & _ & H5 & _).
  exists e'. split; [exact H1|].
  destruct (H5 below_5 ["x"] "" eq_refl) as (bl & Hp & Hv).
  injection Hp as <-. exact Hv.
Defined.

(** ** Report *)

Lemma NodeReport_alive df node w e :
  lock w df = Some e ->
  exists ls, NodeReport df node w = (Ok tt, set_stdout (stdout w ++ ls) w).
Proof. intros H. unfold NodeReport. tdf_step. eexists. reflexivity. Qed.

(** [Report] runs the event loop only if the engine has never run. On an
    engine that has run, it returns, having printed and done nothing else:
    the engines, the result objects, the files and the memory of the
    callables are as before, so the lazy actions booked since the last run
    are still pending when it returns. On an engine that has not run, it
    comes to [Run] followed by the printing: if the run is aborted [Report]
    throws the error of the run, having printed nothing and changed nothing;
    otherwise it returns, and the engine has run, so that a second [Report]
    will not run it again. *)
Theorem Report_runs_only_once this w e :
  lock w (fImplWeakPtr this) = Some e ->
  (fHasRunAtLeastOnce e = true ->
   exists ls, TDF.Report this w = (Ok tt, set_stdout (stdout w ++ ls) w))
  /\ (fHasRunAtLeastOnce e = false ->
      (forall k, Run (fImplWeakPtr this) w = (Throw k, w) ->
                 TDF.Report this w = (Throw k, w))
      /\ (forall w1, Run (fImplWeakPtr this) w = (Ok tt, w1) ->
            exists ls e1,
              TDF.Report this w = (Ok tt, set_stdout (stdout w1 ++ ls) w1)
              /\ lock w1 (fImplWeakPtr this) = Some e1
              /\ fHasRunAtLeastOnce e1 = true)
      /\ ((exists k, Run (fImplWeakPtr this) w = (Throw k, w))
          \/ (exists w1, Run (fImplWeakPtr this) w = (Ok tt, w1)))).
Proof.
  intros Hlock. unfold TDF.Report. unfold_members. split.
  - intros Hrun. do 2 tdf_step. rewrite Hrun. cbn [negb]. tdf_step.
    destruct (NodeReport_alive _ (fProxiedPtr this) w e Hlock) as [ls ->].
    now exists ls.
  - intros Hrun. split; [|split].
    + intros k Hk. do 2 tdf_step. rewrite Hrun. cbn [negb].
      unfold bind at 1. now rewrite Hk.
    + intros w1 H1. do 2 tdf_step. rewrite Hrun. cbn [negb].
      unfold bind at 1. rewrite H1.
      destruct (bind_columns e (resolve (fTree e) (files w))) as [k|] eqn:Hbind.
      * rewrite (Run_aborted _ _ e k Hlock Hbind) in H1. discriminate H1.
      * rewrite (Run_alive _ _ e Hlock Hbind) in H1. injection H1 as <-.
        match goal with
        | |- context [NodeReport ?df ?node ?w1] =>
            destruct (NodeReport_alive df node w1
                        (ran e (snd (fst (event_loop e (files w) (heap w) (ambient w))))))
              as [ls Hls]
        end.
        { apply lock_set_ambient, lock_set_heap. eapply lock_put_engine_eq; eauto. }
        exists ls, (ran e (snd (fst (event_loop e (files w) (heap w) (ambient w))))).
        split; [exact Hls|]. split; [|reflexivity].
        apply lock_set_ambient, lock_set_heap. eapply lock_put_engine_eq; eauto.
    + destruct (bind_columns e (resolve (fTree e) (files w))) as [k|] eqn:Hbind.
      * left. exists k. exact (Run_aborted _ _ e k Hlock Hbind).
      * right. eexists. exact (Run_alive _ _ e Hlock Hbind).
Qed.

Lemma Report_runs_only_once_witness :
  let w := snd ((TDF.Report root ;; TDF.Count root) counting_world) in
  exists ls,
    TDF.Report root w = (Ok tt, set_stdout (stdout w ++ ls) w)
    /\ last_booked (set_stdout (stdout w ++ ls) w) 0
       = Some {| aOp := CountOperation 0 1; aTypes := []; aBl := []; aPrev := 0 |}.
Proof.
  intros w.
  destruct (Report_runs_only_once root w _ eq_refl) as (H & _).
  destruct (H eq_refl) as [ls Hls]. exists ls. split; [exact Hls | reflexivity].
Defined.

(** ** The names an action reads *)

Lemma count_provided_from (bl : BranchNames_t) (acc : N) :
  (Z.of_N acc + Z.of_nat (length bl) < 2 ^ 32)%Z ->
  fold_left (fun providedBranches s =>
               if String.eqb s "" then providedBranches
               else uint (Z.of_N providedBranches + 1)) bl acc
  = (acc + N.of_nat (length (List.filter (fun s => negb (String.eqb s "")) bl)))%N.
Proof.
  revert acc. induction bl as [|s bl IH]; intros acc H; [cbn; lia|].
  cbn [fold_left List.filter length] in *. destruct (String.eqb s ""); cbn [negb].
  - apply IH. lia.
  - assert (Hu : uint (Z.of_N acc + 1) = (acc + 1)%N).
    { unfold uint. rewrite Z.mod_small by lia. lia. }
    rewrite Hu, IH by lia. cbn [length]. lia.
Qed.

Lemma filter_all {A} (p : A -> bool) (l : list A) :
  length (List.filter p l) <= length l
  /\ (length (List.filter p l) = length l -> forall x, In x l -> p x = true)
  /\ (length (List.filter p l) <> length l -> exists x, In x l /\ p x = false).
Proof.
  induction l as [|a l (Hle & Hall & Hsome)]; cbn [List.filter length].
  - split; [lia|]. split; [intros _ x []|]. intros H. now contradiction H.
  - destruct (p a) eqn:Hp; cbn [length].
    + split; [lia|]. split.
      * intros H x [<-|Hx]; [exact Hp|]. apply Hall; [lia | exact Hx].
      * intros H. destruct Hsome as (x & Hx & Hpx); [lia|]. exists x. split; [now right|exact Hpx].
    + split; [lia|]. split; [lia|]. intros _. exists a. split; [now left | exact Hp].
Qed.

(** When a method passes one name per column type, [GetBranchNames] returns
    either the list it was given, and then no name of it is empty, or, if a
    name was left empty, the first names of the default list of the engine;
    in both cases exactly as many names as there are column types. It never
    mixes the two lists, and it changes nothing. *)
Theorem GetBranchNames_all_or_default types bl msg this w names w' :
  length bl = length types ->
  (Z.of_nat (length bl) < 2 ^ 32)%Z ->
  TDF.GetBranchNames types bl msg this w = (Ok names, w') ->
  w' = w /\ length names = length types
  /\ ((names = bl /\ forall s, In s bl -> s <> "")
      \/ (In "" bl
          /\ exists e, lock w (fImplWeakPtr this) = Some e
                       /\ names = take (length types) (fDefaultBranches e))).
Proof.
  intros Hlen Hsmall H.
  pose proof (GetBranchNames_pure types bl msg this w) as Hpure. rewrite H in Hpure.
  cbn in Hpure. subst w'. split; [reflexivity|].
  unfold TDF.GetBranchNames in H.
  assert (Hu : uint (Z.of_nat (length types)) = N.of_nat (length types)).
  { unfold uint. rewrite Z.mod_small by lia. lia. }
  rewrite Hu in H. unfold TDF.count_provided in H.
  rewrite count_provided_from in H by (cbn; lia). rewrite N.add_0_l in H.
  destruct (filter_all (fun s => negb (String.eqb s "")) bl) as (_ & Hall & Hsome).
  destruct (N.eqb_spec (N.of_nat (length types))
              (N.of_nat (length (List.filter (fun s => negb (String.eqb s "")) bl))))
    as [Heq|Hne].
  - injection H as <-. split; [now symmetry|]. left. split; [reflexivity|].
    intros s Hs ->. specialize (Hall ltac:(lia) "" Hs). discriminate Hall.
  - destruct Hsome as (s & Hs & Hp); [lia|].
    apply negb_false_iff, String.eqb_eq in Hp. subst s.
    destruct (lock w (fImplWeakPtr this)) as [e|] eqn:Hlock.
    + rewrite (GetDefaultBranchNames_alive _ _ _ _ e Hlock) in H.
      destruct (N.ltb_spec (N.of_nat (length (fDefaultBranches e)))
                  (N.of_nat (length types))) as [Hlt|Hge]; [discriminate|].
      injection H as <-. rewrite Nat2N.id. split.
      * rewrite length_take. lia.
      * right. split; [exact Hs|]. now exists e.
    + rewrite GetDefaultBranchNames_released in H by exact Hlock. discriminate.
Qed.

Lemma GetBranchNames_all_or_default_witness :
  TDF.GetBranchNames [t_int; t_int] ["v"; ""] "" root histogram_world
  = (Ok ["x"; "y"], histogram_world)
  /\ length ["x"; "y"] = length [t_int; t_int].
Proof.
  split; [reflexivity|].
  destruct (GetBranchNames_all_or_default [t_int; t_int] ["v"; ""] "" root histogram_world
              ["x"; "y"] histogram_world eq_refl) as (_ & H & _);
    [cbn; lia | reflexivity | exact H].
Defined.

(** ** One engine at a time *)

#[local] Instance others_untouched_frame this : Frame (others_untouched this).
Proof.
  split.
  - intros w df e _ H. exact H.
  - intros w1 w2 w3 H12 H23 df e Hne H. apply H23, H12; assumption.
Qed.

Lemma others_update this f : always (others_untouched this) (update (fImplWeakPtr this) f).
Proof.
  apply always_update; [apply _|]. intros w e H df e0 Hne H0.
  rewrite lock_put_engine_ne by congruence. exact H0.
Qed.

Lemma others_outside this w w' :
  (exists more, engines w' = engines w ++ more) -> others_untouched this w w'.
Proof.
  intros [more He] df e _ H. apply lock_Some in H. unfold lock.
  rewrite He, lookup_app_l by (eapply lookup_lt_Some; eauto). now rewrite H.
Qed.

Lemma others_IncrChildrenCount this node :
  always (others_untouched this) (IncrChildrenCount (fImplWeakPtr this) node).
Proof. apply others_update. Qed.

Lemma others_BookAction this a : always (others_untouched this) (BookAction (fImplWeakPtr this) a).
Proof. apply others_update. Qed.

Lemma others_Book this nd : always (others_untouched this) (Book (fImplWeakPtr this) nd).
Proof.
  unfold Book. apply always_bind; [apply _ | apply always_impl; apply _ |]. intros id.
  apply always_bind; [apply _ | apply others_update | intros; apply always_ret; apply _].
Qed.

Lemma others_BookBranch this name nd :
  always (others_untouched this) (BookBranch (fImplWeakPtr this) name nd).
Proof.
  unfold BookBranch. apply always_bind; [apply _ | apply others_Book |]. intros id.
  apply always_bind; [apply _ | apply others_update | intros; apply always_ret; apply _].
Qed.

Lemma others_MakeActionResultProxy this r :
  always (others_untouched this) (MakeActionResultProxy r (fImplWeakPtr this)).
Proof.
  unfold MakeActionResultProxy.
  apply always_bind; [apply _ | apply others_update | intros; apply always_ret; apply _].
Qed.

Lemma others_make_shared this v : always (others_untouched this) (make_shared v).
Proof. intros w. apply others_outside. exists []. cbn. now rewrite app_nil_r. Qed.

Lemma others_NodeReport this df node : always (others_untouched this) (NodeReport df node).
Proof.
  unfold NodeReport. apply always_bind; [apply _ | apply always_impl; apply _ |]. intros ls w.
  apply others_outside. exists []. cbn. now rewrite app_nil_r.
Qed.

Lemma others_Run this : always (others_untouched this) (Run (fImplWeakPtr this)).
Proof.
  intros w. unfold Run.
  destruct (lock w (fImplWeakPtr this)) as [e|] eqn:Hlock; [|apply frame_refl].
  destruct (bind_columns e (resolve (fTree e) (files w))); [apply frame_refl|].
  destruct (event_loop e (files w) (heap w) (ambient w)) as [[acts cnt] amb]. cbn [snd].
  intros df e0 Hne H0.
  change (lock (put_engine (fImplWeakPtr this) (ran e cnt) w) df = Some e0).
  rewrite lock_put_engine_ne by congruence. exact H0.
Qed.

Create HintDb others.
#[local] Hint Resolve others_IncrChildrenCount others_BookAction others_Book others_BookBranch
  others_MakeActionResultProxy others_make_shared others_NodeReport others_Run : others.

Lemma others_BuildAndBook this at_ types bl r nSlots :
  always (others_untouched this) (TDF.BuildAndBook at_ types bl r nSlots this).
Proof. unfold TDF.BuildAndBook. destruct at_; cbv zeta; frame_this others. Qed.

#[local] Hint Resolve others_BuildAndBook : others.

Lemma others_CreateAction this at_ types bl r :
  always (others_untouched this) (TDF.CreateAction at_ types bl r this).
Proof.
  unfold TDF.CreateAction, TDF.JitBuildAndBook, TDF.CallBuildAndBook. unfold_members.
  frame_this others.
Qed.

Lemma others_Filter this f bn name :
  always (others_untouched this) (TDF.Filter f bn name this).
Proof. unfold TDF.Filter. unfold_members. frame_this others. Qed.

Lemma others_Define this name e bl :
  always (others_untouched this) (TDF.Define name e bl this).
Proof. unfold TDF.Define. unfold_members. frame_this others. Qed.

Lemma others_ForeachSlot this f bl :
  always (others_untouched this) (TDF.ForeachSlot f bl this).
Proof. unfold TDF.ForeachSlot. unfold_members. frame_this others. Qed.

#[local] Hint Resolve others_CreateAction others_Filter others_Define others_ForeachSlot
  : others.

Lemma others_SnapshotImpl this ts tn fn bnames :
  always (others_untouched this) (TDF.SnapshotImpl ts tn fn bnames this).
Proof.
  unfold TDF.SnapshotImpl, TDF.Foreach, TDF.set_t, TDF.set_firstEvt.
  destruct (negb _); [frame_this others|].
  repeat (apply always_bind; [apply _ | | intros _]);
    try apply others_ForeachSlot;
    intros w; apply others_outside;
    first [ exists []; cbn; now rewrite app_nil_r | eexists; reflexivity ].
Qed.

#[local] Hint Resolve others_SnapshotImpl : others.

(** A call on a handle works on the engine of that handle only: whatever
    the call, and whether it returns or throws, every other engine that is
    alive stays alive with the same graph, the same pending actions and the
    same counters. The engine [Snapshot] makes is a new one. *)
Theorem call_touches_one_engine (c : Call) this w df e :
  df <> fImplWeakPtr this -> lock w df = Some e ->
  lock (snd (invoke c this w)) df = Some e.
Proof.
  revert w df e. change (always (others_untouched this) (invoke c this)).
  destruct c; cbn [invoke];
    unfold returns_node, returns_result, returns_void,
      TDF.Filter_name, TDF.Histo1D_name, TDF.Histo1D_weighted_names, TDF.Histo1D_VW,
      TDF.Histo2D_VW, TDF.Histo3D_VW, TDF.Profile1D_VW, TDF.Profile2D_VW, TDF.Reduce,
      TDF.Range_stop, TDF.Snapshot_typed, TDF.Foreach,
      TDF.Histo1D, TDF.Histo1D_weighted, TDF.Histo2D, TDF.Histo2D_weighted,
      TDF.Histo3D, TDF.Histo3D_weighted, TDF.Profile1D, TDF.Profile1D_weighted,
      TDF.Profile2D, TDF.Profile2D_weighted, TDF.Fill_typed, TDF.Fill,
      TDF.Min, TDF.Max, TDF.Mean,
      TDF.Filter_expression, TDF.InterpretCall_Filter, TDF.Define_expression,
      TDF.InterpretCall_Define, TDF.Range, TDF.Reduce_init,
      TDF.Count, TDF.Take, TDF.Report, TDF.Snapshot;
    unfold_members; cbv zeta; frame_this others.
Qed.

Lemma call_touches_one_engine_witness :
  let w := snd (TDF.Snapshot_typed [t_int] "t" "f" ["x"] root snapshot_world) in
  let s := {| fProxiedPtr := 0; fImplWeakPtr := 1 |} in
  exists e, lock w 0 = Some e /\ lock (snd (invoke Call_Count s w)) 0 = Some e.
Proof.
  intros w s. eexists. split; [reflexivity|].
  apply (call_touches_one_engine Call_Count s w 0); [discriminate | reflexivity].
Defined.

(** ** Children counts and what hangs from a node *)

#[local] Instance keeps_counted_frame this : Frame (keeps_counted this).
Proof.
  split.
  - intros w H. exact H.
  - intros w1 w2 w3 H12 H23 H. apply H23, H12, H.
Qed.

Lemma hanging_nodes_app (l1 l2 : list Node) j id :
  hanging_nodes (l1 ++ l2) j id
  = hanging_nodes l1 j id + hanging_nodes l2 (j + length l1) id.
Proof.
  revert j. induction l1 as [|nd l1 IH]; intros j; cbn [app hanging_nodes length].
  - now rewrite Nat.add_0_r.
  - rewrite IH. replace (S j + length l1) with (j + S (length l1)) by lia. lia.
Qed.

Lemma hanging_nodes_counted (nodes : list Node) i j id :
  hanging_nodes (alter IncrChildrenCount_node i nodes) j id = hanging_nodes nodes j id.
Proof.
  revert i j. induction nodes as [|nd nodes IH]; intros i j; [reflexivity|].
  destruct i as [|i]; cbn [alter list_alter hanging_nodes]; [reflexivity|].
  now rewrite IH.
Qed.

Lemma hanging_nodes_none (nodes : list Node) j id :
  (forall k nd, nodes !! k = Some nd -> j + k <> 0 -> fPrevData nd <> id) ->
  hanging_nodes nodes j id = 0.
Proof.
  revert j. induction nodes as [|nd nodes IH]; intros j H; [reflexivity|].
  cbn [hanging_nodes]. rewrite IH.
  - destruct (Nat.eqb_spec j 0) as [->|Hj]; [reflexivity|]. cbn [negb andb].
    destruct (Nat.eqb_spec (fPrevData nd) id) as [Heq|]; [|reflexivity].
    exfalso. apply (H 0 nd eq_refl); [lia | exact Heq].
  - intros k x Hx Hk. apply (H (S k) x Hx). lia.
Qed.

Lemma pending_app (acts : list Action) a id :
  length (List.filter (fun a => Nat.eqb (aPrev a) id) (acts ++ [a]))
  = length (List.filter (fun a => Nat.eqb (aPrev a) id) acts)
    + (if Nat.eqb (aPrev a) id then 1 else 0).
Proof.
  rewrite List.filter_app, length_app. cbn [List.filter].
  now destruct (Nat.eqb (aPrev a) id).
Qed.

Lemma filter_none {A} (f : A -> bool) (l : list A) :
  (forall x, In x l -> f x = false) -> List.filter f l = [].
Proof.
  induction l as [|x l IH]; intros H; [reflexivity|].
  cbn [List.filter]. rewrite H by now left. apply IH. intros y Hy. apply H. now right.
Qed.

(** Booking an action on a node and counting it. *)
Lemma counts_right_book_on a e : counts_right e -> counts_right (book_on a e).
Proof.
  intros H id nd Hnd. unfold book_on in Hnd. cbn [fNodes set_nodes set_actions] in Hnd.
  rewrite lookup_counted in Hnd. destruct (fNodes e !! id) as [nd0|] eqn:Hnd0; [|discriminate].
  cbn in Hnd. injection Hnd as <-. destruct (H id nd0 Hnd0) as [Hle Heq].
  assert (Hh : hanging (book_on a e) id
               = (hanging e id + (if Nat.eqb (aPrev a) id then 1 else 0))%N).
  { unfold hanging, book_on. cbn [fNodes fBookedActions set_nodes set_actions].
    rewrite hanging_nodes_counted, pending_app.
    destruct (Nat.eqb (aPrev a) id); lia. }
  rewrite Hh. change (fHasRunAtLeastOnce (book_on a e)) with (fHasRunAtLeastOnce e).
  destruct (decide (aPrev a = id)) as [Hd|Hd].
  - rewrite (proj2 (Nat.eqb_eq _ _) Hd). cbn [fNChildren IncrChildrenCount_node].
    split; [lia|]. intros Hr. rewrite (Heq Hr). reflexivity.
  - rewrite (proj2 (Nat.eqb_neq _ _) Hd). rewrite N.add_0_r. split; assumption.
Qed.

Lemma counts_right_with_action a ptr e : counts_right e -> counts_right (with_action a ptr e).
Proof. intros H. apply (counts_right_book_on a e H). Qed.

(** Emptying the list of pending actions when the engine has run. *)
Lemma counts_right_ran e cnt : counts_right e -> counts_right (ran e cnt).
Proof.
  intros H id nd Hnd. cbn in Hnd. destruct (H id nd Hnd) as [Hle _].
  split; [|discriminate]. unfold hanging in *. cbn [fNodes fBookedActions ran List.filter length].
  lia.
Qed.

(** Appending a node to the node [this] and counting it. *)
Lemma counts_right_appended e this nd bs :
  well_formed_engine e -> counts_right e ->
  this < length (fNodes e) -> fPrevData nd = this -> fNChildren nd = 0%N ->
  counts_right
    (set_branches bs
       (set_nodes (alter IncrChildrenCount_node this (fNodes e) ++ [nd])
          (fCounters e ++ [zero_counter]) e)).
Proof.
  intros (Hp & Hn & _ & Ha & _) H Hthis Hprev Hch id x Hx.
  cbn [fNodes set_branches set_nodes] in Hx.
  change (fHasRunAtLeastOnce (set_branches bs _)) with (fHasRunAtLeastOnce e).
  assert (Hh : forall i,
             hanging (set_branches bs
                        (set_nodes (alter IncrChildrenCount_node this (fNodes e) ++ [nd])
                           (fCounters e ++ [zero_counter]) e)) i
             = (hanging e i + (if Nat.eqb this i then 1 else 0))%N).
  { intros i. unfold hanging. cbn [fNodes fBookedActions set_branches set_nodes].
    rewrite hanging_nodes_app, hanging_nodes_counted, length_alter.
    cbn [hanging_nodes Nat.add]. rewrite Hprev.
    destruct (Nat.eqb_spec (length (fNodes e)) 0) as [H0|_]; [lia|]. cbn [negb andb].
    destruct (Nat.eqb this i); lia. }
  rewrite Hh.
  destruct (decide (id < length (fNodes e))) as [Hlt|Hge].
  - rewrite lookup_app_l in Hx by now rewrite length_alter.
    rewrite lookup_counted in Hx. destruct (fNodes e !! id) as [nd0|] eqn:Hnd0; [|discriminate].
    cbn in Hx. injection Hx as <-. destruct (H id nd0 Hnd0) as [Hle Heq].
    destruct (decide (this = id)) as [Hd|Hd].
    + rewrite (proj2 (Nat.eqb_eq _ _) Hd). cbn [fNChildren IncrChildrenCount_node].
      split; [lia|]. intros Hr. rewrite (Heq Hr). reflexivity.
    + rewrite (proj2 (Nat.eqb_neq _ _) Hd). rewrite N.add_0_r. split; assumption.
  - assert (id = length (fNodes e)) as ->.
    { apply lookup_lt_Some in Hx. rewrite length_app, length_alter in Hx. cbn in Hx. lia. }
    rewrite <- (length_alter IncrChildrenCount_node (fNodes e) this) in Hx at 1.
    rewrite list_lookup_middle in Hx by reflexivity. injection Hx as <-.
    rewrite (proj2 (Nat.eqb_neq _ _)) by lia. rewrite N.add_0_r, Hch.
    assert (Hz : hanging e (length (fNodes e)) = 0%N).
    { unfold hanging. rewrite hanging_nodes_none.
      - assert (Hf : List.filter (fun a => Nat.eqb (aPrev a) (length (fNodes e)))
                       (fBookedActions e) = []).
        { apply filter_none. intros a0 Hin. apply Nat.eqb_neq.
          specialize (Ha a0 Hin). lia. }
        rewrite Hf. reflexivity.
      - intros k y Hy Hk. pose proof (Hp k y Hy ltac:(lia)).
        apply lookup_lt_Some in Hy. lia. }
    rewrite Hz. split; [lia | reflexivity].
Qed.

Lemma counts_right_fields e1 e2 :
  fNodes e2 = fNodes e1 -> fBookedActions e2 = fBookedActions e1 ->
  fHasRunAtLeastOnce e2 = fHasRunAtLeastOnce e1 ->
  counts_right e1 -> counts_right e2.
Proof.
  intros Hn Ha Hr H id nd Hnd. rewrite Hn in Hnd. unfold hanging. rewrite Hn, Ha, Hr.
  exact (H id nd Hnd).
Qed.

Lemma counted_put_engine w df e e' :
  lock w df = Some e -> counted w -> counts_right e' -> counted (put_engine df e' w).
Proof.
  intros Hlock Hc He' df' e1 H1. destruct (decide (df = df')) as [<-|Hne].
  - erewrite lock_put_engine_eq in H1 by eauto. now injection H1 as <-.
  - rewrite lock_put_engine_ne in H1 by exact Hne. eapply Hc; eauto.
Qed.

Lemma counted_same_engines w w' : engines w' = engines w -> counted w -> counted w'.
Proof. intros He Hc df e H. apply (Hc df e). unfold lock in *. now rewrite <- He. Qed.

(** A computation that keeps the graphs well formed keeps the counts right
    as soon as it does so on a world whose graphs are well formed. *)
Lemma keeps_counted_from {A} this (m : M A) :
  always (keeps_well_formed this) m ->
  (forall w, well_formed w -> valid w this -> counted w -> counted (snd (m w))) ->
  always (keeps_counted this) m.
Proof.
  intros Hwf Hc w (H1 & H2 & H3). destruct (Hwf w (conj H1 H2)) as [H1' H2'].
  split; [exact H1'|]. split; [exact H2'|]. now apply Hc.
Qed.

Lemma valid_this w this e :
  valid w this -> lock w (fImplWeakPtr this) = Some e -> fProxiedPtr this < length (fNodes e).
Proof. intros (e0 & He0 & Hv) H. rewrite H in He0. now injection He0 as ->. Qed.

Lemma counted_CreateAction this at_ types bl r :
  always (keeps_counted this) (TDF.CreateAction at_ types bl r this).
Proof.
  apply keeps_counted_from; [apply keeps_CreateAction|]. intros w Hwf Hv Hc.
  destruct (lock w (fImplWeakPtr this)) as [e|] eqn:Hlock.
  - rewrite (CreateAction_alive _ _ _ _ _ _ e Hlock).
    destruct (TNeedJitting types && _); [exact Hc|]. cbn [snd].
    apply (counted_put_engine _ _ e); [exact Hlock | | ].
    + now apply (counted_same_engines w).
    + apply counts_right_with_action. eapply Hc; eauto.
  - now rewrite CreateAction_released.
Qed.

Lemma keeps_Range this start stop stride :
  always (keeps_well_formed this) (TDF.Range start stop stride this).
Proof. unfold TDF.Range. frame_this wf. Qed.

Lemma keeps_Reduce_init this f T bn init :
  always (keeps_well_formed this) (TDF.Reduce_init f T bn init this).
Proof. unfold TDF.Reduce_init. unfold_members. frame_this wf. Qed.

Lemma keeps_Count this : always (keeps_well_formed this) (TDF.Count this).
Proof. unfold TDF.Count. unfold_members. frame_this wf. Qed.

Lemma keeps_Take this T bn : always (keeps_well_formed this) (TDF.Take T bn this).
Proof. unfold TDF.Take. unfold_members. frame_this wf. Qed.

Lemma counted_Reduce_init this f T bn init :
  always (keeps_counted this) (TDF.Reduce_init f T bn init this).
Proof.
  apply keeps_counted_from; [apply keeps_Reduce_init|]. intros w Hwf Hv Hc.
  destruct (lock w (fImplWeakPtr this)) as [e|] eqn:Hlock.
  - rewrite (Reduce_init_alive _ _ _ _ _ _ e Hlock).
    destruct (names_used [T] [bn] (fDefaultBranches e)); [|exact Hc]. cbn [snd].
    apply (counted_put_engine _ _ e); [exact Hlock | | ].
    + now apply (counted_same_engines w).
    + apply counts_right_with_action. eapply Hc; eauto.
  - unfold TDF.Reduce_init. now rewrite bind_released.
Qed.

Lemma counted_Take this T bn : always (keeps_counted this) (TDF.Take T bn this).
Proof.
  apply keeps_counted_from; [apply keeps_Take|]. intros w Hwf Hv Hc.
  destruct (lock w (fImplWeakPtr this)) as [e|] eqn:Hlock.
  - rewrite (Take_alive _ _ _ _ e Hlock).
    destruct (names_used [T] [bn] (fDefaultBranches e)); [|exact Hc]. cbn [snd].
    apply (counted_put_engine _ _ e); [exact Hlock | | ].
    + now apply (counted_same_engines w).
    + apply counts_right_with_action. eapply Hc; eauto.
  - unfold TDF.Take. now rewrite bind_released.
Qed.

Lemma counted_Count this : always (keeps_counted this) (TDF.Count this).
Proof.
  apply keeps_counted_from; [apply keeps_Count|]. intros w Hwf Hv Hc.
  destruct (lock w (fImplWeakPtr this)) as [e|] eqn:Hlock.
  - rewrite (Count_alive _ _ e Hlock). cbn [snd].
    apply (counted_put_engine _ _ e); [exact Hlock | | ].
    + now apply (counted_same_engines w).
    + apply counts_right_with_action. eapply Hc; eauto.
  - unfold TDF.Count. now rewrite bind_released.
Qed.

Lemma counted_appended this w e nd bs :
  well_formed w -> valid w this -> counted w ->
  lock w (fImplWeakPtr this) = Some e ->
  fPrevData nd = fProxiedPtr this -> fNChildren nd = 0%N ->
  counted
    (put_engine (fImplWeakPtr this)
       (set_branches bs
          (set_nodes (alter IncrChildrenCount_node (fProxiedPtr this) (fNodes e) ++ [nd])
             (fCounters e ++ [zero_counter]) e)) w).
Proof.
  intros Hwf Hv Hc Hlock Hprev Hch.
  apply (counted_put_engine _ _ e); [exact Hlock | exact Hc |].
  apply counts_right_appended; eauto. eapply valid_this; eauto.
Qed.

Lemma counted_Filter this f bn name :
  always (keeps_counted this) (TDF.Filter f bn name this).
Proof.
  apply keeps_counted_from; [apply keeps_Filter|]. intros w Hwf Hv Hc.
  destruct (lock w (fImplWeakPtr this)) as [e|] eqn:Hlock.
  - rewrite (Filter_alive _ _ _ _ _ e Hlock).
    destruct (fst (PickBranchNames _ _ _ _)); [|exact Hc]. cbn [snd].
    rewrite <- (set_branches_same
                  (set_nodes (_ ++ [_]) (fCounters e ++ [zero_counter]) e)
                  (fBookedBranches e)) by reflexivity.
    now apply counted_appended.
  - unfold TDF.Filter. now rewrite bind_released.
Qed.

Lemma counted_Define this name expression bl :
  always (keeps_counted this) (TDF.Define name expression bl this).
Proof.
  apply keeps_counted_from; [apply keeps_Define|]. intros w Hwf Hv Hc.
  destruct (lock w (fImplWeakPtr this)) as [e|] eqn:Hlock.
  - rewrite (Define_alive _ _ _ _ _ e Hlock).
    destruct (fst (CheckTmpBranch _ _ _)); [|exact Hc].
    destruct (fst (PickBranchNames _ _ _ _)); [|exact Hc]. cbn [snd].
    now apply counted_appended.
  - unfold TDF.Define. now rewrite bind_released.
Qed.

Lemma counted_Range this start stop stride :
  always (keeps_counted this) (TDF.Range start stop stride this).
Proof.
  apply keeps_counted_from; [apply keeps_Range|]. intros w Hwf Hv Hc.
  rewrite Range_outcome. destruct (_ || _); [exact Hc|].
  destruct (fgImplicitMT w); [exact Hc|].
  destruct (lock w (fImplWeakPtr this)) as [e|] eqn:Hlock; [|exact Hc]. cbn [snd].
  rewrite <- (set_branches_same
                (set_nodes (_ ++ [_]) (fCounters e ++ [zero_counter]) e)
                (fBookedBranches e)) by reflexivity.
  now apply counted_appended.
Qed.

Lemma counted_Run this df : always (keeps_counted this) (Run df).
Proof.
  apply keeps_counted_from; [apply keeps_Run|]. intros w Hwf Hv Hc.
  destruct (lock w df) as [e|] eqn:Hlock; [|unfold Run; now rewrite Hlock].
  destruct (bind_columns e (resolve (fTree e) (files w))) as [k|] eqn:Hbind.
  - now rewrite (Run_aborted _ _ e k Hlock Hbind).
  - rewrite (Run_alive _ _ e Hlock Hbind). cbn [snd].
    match goal with
    | |- counted (set_ambient _ (set_heap _ ?w0)) =>
        apply (counted_same_engines w0); [reflexivity|]
    end.
    apply (counted_put_engine _ _ e); [exact Hlock | exact Hc |].
    apply counts_right_ran. eapply Hc; eauto.
Qed.

Lemma counted_NodeReport this df node : always (keeps_counted this) (NodeReport df node).
Proof.
  apply keeps_counted_from; [apply keeps_NodeReport|]. intros w Hwf Hv Hc.
  unfold NodeReport, bind, impl. destruct (lock w df); [|exact Hc].
  now apply (counted_same_engines w).
Qed.

Lemma counted_ForeachSlot this f bl :
  always (keeps_counted this) (TDF.ForeachSlot f bl this).
Proof.
  apply keeps_counted_from; [apply keeps_ForeachSlot|]. intros w Hwf Hv Hc.
  destruct (lock w (fImplWeakPtr this)) as [e|] eqn:Hlock.
  - pose proof (PickBranchNames_pure (uint (Z.of_N (SlotCallable_fgSize f) - 1)) bl
                  (fDefaultBranches e) w) as Hp.
    destruct (PickBranchNames (uint (Z.of_N (SlotCallable_fgSize f) - 1)) bl
                (fDefaultBranches e) w) as [[actualBl|k] w1] eqn:Hpick;
      cbn in Hp; subst w1.
    + rewrite (ForeachSlot_alive f bl this w e actualBl Hlock Hpick).
      set (a := {| aOp := ForeachSlotOperation f; aTypes := BranchTypes_t f;
                   aBl := actualBl; aPrev := fProxiedPtr this |}).
      set (w1 := put_engine (fImplWeakPtr this) (book_on a e) w).
      assert (Hlock1 : lock w1 (fImplWeakPtr this) = Some (book_on a e))
        by (eapply lock_put_engine_eq; eauto).
      assert (Hc1 : counted w1).
      { apply (counted_put_engine _ _ e); [exact Hlock | exact Hc |].
        apply counts_right_book_on. eapply Hc; eauto. }
      destruct (bind_columns (book_on a e) (resolve (fTree (book_on a e)) (files w1)))
        as [k|] eqn:Hbind.
      * now rewrite (Run_aborted _ _ _ k Hlock1 Hbind).
      * rewrite (Run_alive _ _ _ Hlock1 Hbind). cbn [snd].
        match goal with
        | |- counted (set_ambient _ (set_heap _ ?w0)) =>
            apply (counted_same_engines w0); [reflexivity|]
        end.
        apply (counted_put_engine _ _ (book_on a e)); [exact Hlock1 | exact Hc1 |].
        apply counts_right_ran. eapply Hc1; eauto.
    + unfold TDF.ForeachSlot. unfold_members. do 2 tdf_step.
      erewrite bind_Throw by exact Hpick. exact Hc.
  - rewrite ForeachSlot_released by exact Hlock. exact Hc.
Qed.

Create HintDb counts.
#[local] Hint Resolve counted_CreateAction counted_Reduce_init counted_Take counted_Count
  counted_Filter counted_Define counted_Range counted_Run counted_NodeReport
  counted_ForeachSlot : counts.

Lemma counts_right_new_engine src defaults nSlots :
  counts_right (SetTree src (new_TDataFrameImpl (InMemory new_TTree) defaults nSlots)).
Proof.
  intros id nd H. cbn in H. destruct id as [|id]; [|discriminate H].
  injection H as <-. split; reflexivity.
Qed.

Lemma keeps_counted_same this w w' : engines w' = engines w -> keeps_counted this w w'.
Proof.
  intros He (Hwf & Hv & Hc). destruct (keeps_same_engines this w w' He (conj Hwf Hv)) as [? ?].
  split; [assumption|]. split; [assumption|]. now apply (counted_same_engines w).
Qed.

Lemma counted_SnapshotImpl this ts tn fn bnames :
  always (keeps_counted this) (TDF.SnapshotImpl ts tn fn bnames this).
Proof.
  unfold TDF.SnapshotImpl, TDF.Foreach, TDF.set_t, TDF.set_firstEvt.
  destruct (negb _); [frame_this counts|].
  repeat (apply always_bind; [apply _ | | intros _]);
    try apply counted_ForeachSlot;
    intros w; try (now apply keeps_counted_same).
  intros (Hwf & Hv & Hc).
  destruct (keeps_outside this w
              (set_engines
                 (engines w ++
                  [Some (SetTree (TChain tn fn)
                           (new_TDataFrameImpl (InMemory new_TTree) bnames
                              (if fgImplicitMT w then fgPoolSize w else 1%N)))]) w))
    as [Hwf' Hv'].
  { eexists. split; [reflexivity|]. intros e [[= <-]|[]]. apply well_formed_new_engine. }
  { now split. }
  cbn [snd]. split; [exact Hwf'|]. split; [exact Hv'|].
  intros df e H. unfold lock in H. cbn [engines set_engines] in H.
  destruct (decide (df < length (engines w))) as [Hlt|Hge].
  - rewrite lookup_app_l in H by exact Hlt. apply (Hc df e). exact H.
  - rewrite lookup_app_r in H by lia.
    destruct (df - length (engines w)) as [|n]; [|discriminate H].
    cbn in H. injection H as <-. apply counts_right_new_engine.
Qed.

#[local] Hint Resolve counted_SnapshotImpl : counts.

Lemma counted_make_world mt tr defaults : counted (make_world mt tr defaults).
Proof.
  intros df e H. unfold lock in H. cbn in H. destruct df as [|df]; [|discriminate].
  cbn in H. injection H as <-.
  exact (counts_right_new_engine (InMemory tr) defaults (if mt then 4%N else 1%N)).
Qed.

(** The children count of a node is what hangs from it. If the graphs are
    well formed, the handle is good and, in every engine, the children count
    of each node is at least the number of nodes and pending actions that
    hang from it, and exactly that number while the engine has not run, then
    the same holds after any call, whether it returned or threw. After a run
    the counts are not lowered although the actions are no longer pending. *)
Theorem children_count_is_what_hangs (c : Call) this w :
  well_formed w -> valid w this -> counted w ->
  counted (snd (invoke c this w)).
Proof.
  intros Hwf Hv Hc.
  assert (H : always (keeps_counted this) (invoke c this)).
  { destruct c; cbn [invoke];
      unfold returns_node, returns_result, returns_void,
        TDF.Filter_name, TDF.Histo1D_name, TDF.Histo1D_weighted_names, TDF.Histo1D_VW,
        TDF.Histo2D_VW, TDF.Histo3D_VW, TDF.Profile1D_VW, TDF.Profile2D_VW, TDF.Reduce,
        TDF.Range_stop, TDF.Snapshot_typed, TDF.Foreach,
        TDF.Histo1D, TDF.Histo1D_weighted, TDF.Histo2D, TDF.Histo2D_weighted,
        TDF.Histo3D, TDF.Histo3D_weighted, TDF.Profile1D, TDF.Profile1D_weighted,
        TDF.Profile2D, TDF.Profile2D_weighted, TDF.Fill_typed, TDF.Fill,
        TDF.Min, TDF.Max, TDF.Mean,
        TDF.Filter_expression, TDF.InterpretCall_Filter, TDF.Define_expression,
        TDF.InterpretCall_Define, TDF.Report, TDF.Snapshot;
      unfold_members; cbv zeta; frame_this counts. }
  exact (proj2 (proj2 (H w (conj Hwf (conj Hv Hc))))).
Qed.

Lemma children_count_is_what_hangs_witness :
  counted snapshot_world /\ counted filtered_world
  /\ children filtered_world 0 0 = Some 1%N.
Proof.
  assert (Hc : counted snapshot_world) by apply counted_make_world.
  split; [exact Hc|]. split; [|reflexivity].
  refine (children_count_is_what_hangs (Call_Filter below_5 ["x"] "") root snapshot_world
            (well_formed_make_world _ _ _) _ Hc).
  eexists. split; [reflexivity|]. cbn. lia.
Defined.

(** ** A snapshot of no row *)

Lemma written_branches e tree bnames rows :
  GetListOfBranches (written e tree bnames rows)
  = match rows with [] => [] | _ => bnames end.
Proof.
  destruct rows as [|r rows]; [reflexivity|]. unfold written, GetListOfBranches.
  cbn [fBranches]. generalize (pair 0%N : string -> addr). intros g.
  induction bnames as [|b bnames IH]; [reflexivity|]. cbn. now rewrite IH.
Qed.

(** [fillTree] makes the branches of the tree at the first row it is given.
    So the tree [Snapshot] writes has the columns asked for when at least
    one row passes the filter chain, and no branch at all when none does,
    although the data frame returned still lists these columns as its
    default columns. The tree has one entry per passing row. (Sequential
    mode, filters only above the node, readers that bind: the columns exist
    and have the types given; as for the round trip.) *)
Theorem Snapshot_of_no_row_has_no_branch Args treename filename bnames this w e :
  lock w (fImplWeakPtr this) = Some e ->
  fgImplicitMT w = false -> fNSlots e = 1%N ->
  length Args = length bnames ->
  (Z.of_nat (length bnames) < 2 ^ 32)%Z ->
  firstEvt (ambient w) = true ->
  forallb (fun a => negb (is_foreach a)) (fBookedActions e) = true ->
  filters_only e (fProxiedPtr this) = true ->
  read_elsewhere (fTree e) filename = true ->
  bind_columns (book_on (snapshot_action Args bnames (fProxiedPtr this)) e)
    (resolve (fTree e) (files w)) = None ->
  let rows := passing_rows e (resolve (fTree e) (files w)) (fProxiedPtr this) in
  exists s w' tr e',
    TDF.Snapshot_typed Args treename filename bnames this w = (Ok s, w')
    /\ TFile_Get filename treename (files w') = Some tr
    /\ GetListOfBranches tr = match rows with [] => [] | _ => bnames end
    /\ GetEntries tr = length rows
    /\ lock w' (fImplWeakPtr s) = Some e'
    /\ fDefaultBranches e' = bnames.
Proof.
  intros Hlock Hmt Hslots Hlen Hsmall Hfirst Hold Hpath Hsrc Hbind rows.
  destruct (SnapshotImpl_alive Args treename filename bnames this w e
              Hlock Hlen Hsmall Hfirst Hold Hpath Hsrc Hbind)
    as (w' & Hcall & Hfile & Hnew & _).
  eexists _, w', _, _. split; [exact Hcall|]. split; [exact Hfile|].
  split; [apply written_branches|]. split.
  - fold rows. unfold written, GetEntries. destruct rows; [reflexivity|].
    cbn [fEntries]. now rewrite length_map.
  - split; [exact Hnew | reflexivity].
Qed.

Lemma Snapshot_of_no_row_has_no_branch_witness :
  exists s w' tr,
    TDF.Snapshot_typed [t_int] "t" "f" ["x"] filtered emptied_world = (Ok s, w')
    /\ TFile_Get "f" "t" (files w') = Some tr
    /\ GetListOfBranches tr = []
    /\ TDF.GetDefaultBranchNames 1 "" s w' = (Ok ["x"], w').
Proof.
  destruct (Snapshot_of_no_row_has_no_branch [t_int] "t" "f" ["x"] filtered emptied_world _
              eq_refl eq_refl eq_refl eq_refl)
    as (s & w' & tr & e' & H1 & H2 & H3 & _ & H5 & H6); try reflexivity.
  exists s, w', tr. split; [exact H1|]. split; [exact H2|]. split; [exact H3|].
  rewrite (GetDefaultBranchNames_alive 1 "" s w' e' H5), H6. reflexivity.
Defined.
